(** * Symbol placement (src/symbol/placement.js): a shallow embedding

    Embedded here: the fade unit [OpacityState], its pairing
    [JointOpacityState], the per-pass decision [JointPlacement], the vertex
    packing [packOpacity], the [CollisionGroups] registry, and of the
    [Placement] engine its constructor, [attemptAnchorPlacement],
    [placeLayerBucket], [hideUnplacedJustifications], [commit], of the
    fade clock [symbolFadeChange], [hasTransitions] and [setStale], and the
    writeback into the vertex arrays ([updateBucketOpacities] up to the end
    of its loop, with [hidePlacedSymbols] and [updateCollisionVertices]),
    with the helpers [getDynamicOffset], [calculateDynamicLayoutOffset] and
    [shiftDynamicCollisionBox].  [placeLayerTile], which only prepares the
    arguments of [placeLayerBucket], [updateLayerOpacities], which only
    picks the buckets of [updateBucketOpacities], and the sorting and
    uploads that end [updateBucketOpacities] are not embedded.

    Conventions.
    - A JavaScript [number] that carries a measure (opacity, time, pixels) is
      an exact rational [Q]; NaN, the infinities and rounding are outside the
      model.  What is stated of such numbers is therefore either an
      expression of the code itself, or a bound that holds however the
      operations round, as long as rounding keeps the order and the whole
      numbers.  Counters and identifiers are [N], symbol indices (which may
      be [-1]) are [Z].
    - An object used as a dictionary is a [gmap]; a missing key is JavaScript's
      [undefined].  The dictionaries keyed by crossTileID have numbers for
      keys, which name no inherited property; the registry of
      [CollisionGroups], keyed by source names, is read through
      [Object.prototype] as the code reads it.
    - The arrays of anchor names, which the code filters and shifts, live in
      a store and are named by reference.
    - A method that mutates [this] or an argument is a computation in the
      monad [M] below: the state is passed explicitly, an exception leaves the
      state as it was when it was thrown.
    - The spatial index and the other modules placement calls are abstract:
      the class [Collaborators] lists what is consumed from them, and every
      statement holds for all of them. *)

From Stdlib Require Import ZArith QArith Qround Lia Lqa.
From stdpp Require Import base option list gmap strings.

(** ** JavaScript numbers and truthiness *)

Definition Math_max (a b : Q) : Q := if Qle_bool a b then b else a.
Definition Math_min (a b : Q) : Q := if Qle_bool a b then a else b.
Definition Math_floor (a : Q) : Z := Qfloor a.

(** [x === y] on numbers. *)
Definition strict_eq (a b : Q) : bool := Qeq_bool a b.

(** Truthiness of a [?boolean]: [undefined] and [false] are falsy. *)
Definition truthy (b : option bool) : bool := default false b.

(** Truthiness of a number that may be missing: [undefined] and [0] are falsy. *)
Definition truthyN (n : option N) : bool :=
  match n with Some k => negb (k =? 0)%N | None => false end.

(** ** class OpacityState *)

Module OpacityState.

Record t := mk { opacity : Q; placed : bool }.

(** [constructor(prevState, increment, placed, skipFade)] *)
Definition new (prevState : option t) (increment : Q) (placed' : bool)
    (skipFade : option bool) : t :=
  {| opacity :=
       match prevState with
       | Some prev =>
           Math_max 0 (Math_min 1
             (opacity prev + (if placed prev then increment else - increment)))
       | None => if truthy skipFade && placed' then 1 else 0
       end;
     placed := placed' |}.

Definition isHidden (s : t) : bool :=
  strict_eq (opacity s) 0 && negb (placed s).

End OpacityState.

(** ** class JointOpacityState *)

Module JointOpacityState.

Record t := mk { text : OpacityState.t; icon : OpacityState.t }.

(** [constructor(prevState, increment, placedText, placedIcon, skipFade)] *)
Definition new (prevState : option t) (increment : Q)
    (placedText placedIcon : bool) (skipFade : option bool) : t :=
  {| text := OpacityState.new (text <$> prevState) increment placedText skipFade;
     icon := OpacityState.new (icon <$> prevState) increment placedIcon skipFade |}.

Definition isHidden (s : t) : bool :=
  OpacityState.isHidden (text s) && OpacityState.isHidden (icon s).

End JointOpacityState.

(** ** class JointPlacement *)

Module JointPlacement.

Record t := mk { text : bool; icon : bool; skipFade : bool }.

End JointPlacement.

(** ** packOpacity *)

Definition shift25 : Z := 2 ^ 25.
Definition shift24 : Z := 2 ^ 24.
Definition shift17 : Z := 2 ^ 17.
Definition shift16 : Z := 2 ^ 16.
Definition shift9 : Z := 2 ^ 9.
Definition shift8 : Z := 2 ^ 8.
Definition shift1 : Z := 2 ^ 1.

Definition packOpacity (opacityState : OpacityState.t) : Z :=
  if strict_eq (OpacityState.opacity opacityState) 0
     && negb (OpacityState.placed opacityState) then 0%Z
  else if strict_eq (OpacityState.opacity opacityState) 1
          && OpacityState.placed opacityState then 4294967295%Z
  else
    let targetBit : Z := if OpacityState.placed opacityState then 1%Z else 0%Z in
    let opacityBits : Z := Math_floor (OpacityState.opacity opacityState * 127) in
    (opacityBits * shift25 + targetBit * shift24 +
     opacityBits * shift17 + targetBit * shift16 +
     opacityBits * shift9 + targetBit * shift8 +
     opacityBits * shift1 + targetBit)%Z.

(** Reading one vertex lane back: lane [k] is bits [8k .. 8k+7]; its top seven
    bits are the quantised opacity and its lowest bit the placed flag. *)
Definition lane (packed : Z) (k : Z) : Z := Z.land (Z.shiftr packed (8 * k)) 255.
Definition laneOpacityBits (packed : Z) (k : Z) : Z := Z.shiftr (lane packed k) 1.
Definition lanePlacedBit (packed : Z) (k : Z) : bool := Z.testbit (lane packed k) 0.

(** ** class CollisionGroups *)

(** The key handed to a group predicate by the collision index; the predicate
    built here reads only [collisionGroupID]. *)
Record CollisionKey := { collisionGroupID : N }.

(** What [get] answers, as far as placement looks at it: the properties
    [ID] and [predicate].  [get] can answer a member of [Object.prototype]
    (see below), on which both are [undefined]; [predicate] is [None] also
    where the code has [null]. *)
Record CollisionGroup := {
  ID : option N;
  predicate : option (CollisionKey → bool)
}.

(** The names that a plain object [{}] answers without having them as its
    own properties: the members of [Object.prototype] (ECMAScript, with its
    Annex B).  Each of them is a function, or for [__proto__] the prototype
    itself: a truthy value without [ID] and [predicate]. *)
Definition Object_prototype : list string :=
  ["constructor"; "hasOwnProperty"; "isPrototypeOf"; "propertyIsEnumerable";
   "toLocaleString"; "toString"; "valueOf"; "__proto__";
   "__defineGetter__"; "__defineSetter__"; "__lookupGetter__"; "__lookupSetter__"].

Definition inheritedMember : CollisionGroup := {| ID := None; predicate := None |}.

Module CollisionGroups.

(** [collisionGroups] holds the own properties of the object [{}] that the
    constructor makes. *)
Record t := mk {
  collisionGroups : gmap string CollisionGroup;
  maxGroupID : N;
  crossSourceCollisions : bool
}.

(** [constructor(crossSourceCollisions)] *)
Definition new (crossSourceCollisions' : bool) : t :=
  {| crossSourceCollisions := crossSourceCollisions';
     maxGroupID := 0;
     collisionGroups := ∅ |}.

(** [this.collisionGroups[sourceID]]: the own property, or else the member
    of [Object.prototype] of that name. *)
Definition property (sourceID : string) (this : t) : option CollisionGroup :=
  match collisionGroups this !! sourceID with
  | Some group => Some group
  | None =>
      if bool_decide (sourceID ∈ Object_prototype) then Some inheritedMember
      else None
  end.

(** [get(sourceID)]: the group, and the registry as the call leaves it. *)
Definition get (sourceID : string) (this : t) : CollisionGroup * t :=
  if negb (crossSourceCollisions this) then
    match property sourceID this with
    | None =>
        let nextGroupID := (maxGroupID this + 1)%N in
        let group :=
          {| ID := Some nextGroupID;
             predicate := Some (λ key, (collisionGroupID key =? nextGroupID)%N) |} in
        (group,
         {| collisionGroups := <[sourceID := group]> (collisionGroups this);
            maxGroupID := nextGroupID;
            crossSourceCollisions := crossSourceCollisions this |})
    | Some group => (group, this)
    end
  else ({| ID := Some 0%N; predicate := None |}, this).

(** A sequence of [get] calls, oldest first. *)
Definition gets (sourceIDs : list string) (this : t) : t :=
  foldl (λ cg sourceID, (get sourceID cg).2) this sourceIDs.

(** What a registry built by [new false] and [get] satisfies: no group is
    stored under a name of [Object.prototype], the ids handed out lie
    between 1 and [maxGroupID], each predicate tests for the id of its
    group, and no id is shared by two sources. *)
Record consistent (cg : t) : Prop := {
  consistent_flag : crossSourceCollisions cg = false;
  consistent_own : ∀ s g, collisionGroups cg !! s = Some g → s ∉ Object_prototype;
  consistent_range : ∀ s g, collisionGroups cg !! s = Some g →
    ∃ n, ID g = Some n ∧ (1 <= n <= maxGroupID cg)%N;
  consistent_predicate : ∀ s g, collisionGroups cg !! s = Some g →
    ∃ n, ID g = Some n ∧ predicate g = Some (λ key, (collisionGroupID key =? n)%N);
  consistent_distinct : ∀ s1 s2 g1 g2,
    collisionGroups cg !! s1 = Some g1 → collisionGroups cg !! s2 = Some g2 →
    ID g1 = ID g2 → s1 = s2
}.

End CollisionGroups.

(** ** Exceptions and state

    [M St A] is a computation over a mutable state [St] that either returns an
    [A] or throws; either way it hands back the state it reached. *)

Inductive exn := AssertionError | TypeError.

Inductive outcome (A : Type) :=
  | Return (a : A)
  | Throw (e : exn).
Arguments Return {A} a.
Arguments Throw {A} e.

Definition M (St A : Type) : Type := St → outcome A * St.

#[export] Instance M_ret {St} : MRet (M St) := λ A a s, (Return a, s).

#[export] Instance M_bind {St} : MBind (M St) := λ A B f m s,
  match m s with
  | (Return a, s') => f a s'
  | (Throw e, s') => (Throw e, s')
  end.

Definition throw {St A} (e : exn) : M St A := λ s, (Throw e, s).
Definition read {St A} (f : St → A) : M St A := λ s, (Return (f s), s).
Definition modify {St} (f : St → St) : M St unit := λ s, (Return (), f s).

(** [assert(cond)] of Node's [assert] module. *)
Definition assert {St} (cond : bool) : M St unit :=
  if cond then mret () else throw AssertionError.

(** A value that must not be [undefined] where a property of it is read. *)
Definition defined {St A} (v : option A) : M St A :=
  match v with Some a => mret a | None => throw TypeError end.

(** [for (let i = from; i < from + count; i++) body(i)]; a [continue] is the
    body returning early. *)
Fixpoint forRange {St} (from count : nat) (body : nat → M St unit) : M St unit :=
  match count with
  | O => mret ()
  | S count' => body from ;; forRange (S from) count' body
  end.

(** [for (const a of l) body(a)], without [break]. *)
Fixpoint forEach {St A} (l : list A) (body : A → M St unit) : M St unit :=
  match l with
  | [] => mret ()
  | a :: l' => body a ;; forEach l' body
  end.

(** [preserves R m]: whatever [m] does, and whether it returns or throws, the
    state it leaves is related by [R] to the state it found. *)
Definition preserves {St A} (R : relation St) (m : M St A) : Prop :=
  ∀ s, R s (m s).2.

(** [ensures m Q]: when [m] returns, it leaves a state where [Q] holds. *)
Definition ensures {St A} (m : M St A) (Q : St → Prop) : Prop :=
  ∀ s a s', m s = (Return a, s') → Q s'.

(** ** Geometry and the data of a bucket *)

Module Point.
Record t := mk { x : Q; y : Q }.
End Point.

Record SingleCollisionBox := {
  x1 : Q; y1 : Q; x2 : Q; y2 : Q;
  anchorPointX : Q; anchorPointY : Q
}.

(** A [mat4] of gl-matrix: sixteen numbers. *)
Definition mat4 : Type := list Q.

(** What [CollisionIndex.placeCollisionBox] answers. *)
Module PlacedBox.
Record t := mk { box : list Q; offscreen : bool }.
End PlacedBox.

(** What [CollisionIndex.placeCollisionCircles] answers. *)
Module PlacedCircles.
Record t := mk { circles : list Q; offscreen : bool }.
End PlacedCircles.

Inductive Justification := JLeft | JCenter | JRight.

(** The object literal [{"left": l, "center": c, "right": r}] and its lookup. *)
Record Justifications := { left : Z; center : Z; right : Z }.

Definition justificationIndex (j : Justifications) (k : Justification) : Z :=
  match k with JLeft => left j | JCenter => center j | JRight => right j end.

Record AnchorAlignment := { horizontalAlign : Q; verticalAlign : Q }.

Module SymbolInstance.
Record t := mk {
  crossTileID : N;
  rightJustifiedTextSymbolIndex : Z;
  centerJustifiedTextSymbolIndex : Z;
  leftJustifiedTextSymbolIndex : Z;
  layoutTextSize : Q;
  dynamicTextOffset : Q;
  numHorizontalGlyphVertices : N;
  numVerticalGlyphVertices : N;
  numIconVertices : N
}.
End SymbolInstance.

Record CollisionArrays := {
  textBox : option SingleCollisionBox;
  iconBox : option SingleCollisionBox;
  textCircles : option (list Q);
  textFeatureIndex : option N;
  iconFeatureIndex : option N
}.

(** The record kept per crossTileID in [Placement.dynamicOffsets]. *)
Record DynamicOffset := {
  radialOffset : Q;
  width : Q;
  height : Q;
  anchor : string;
  textBoxScale : Q;
  prevAnchor : option string
}.

(** Arrays of anchor names live in a store and are named by reference, so that
    [filter] (a new array) and [unshift] (in place) can be told apart. *)
Abbreviation ref := positive (only parsing).
Abbreviation ArrayStore := (gmap positive (list string)) (only parsing).

(** The layout properties read by placement, [layout.get('text-optional')] and
    so on; [dynamic_text_anchor] is [undefined] or a reference to the array. *)
Record Layout := {
  text_optional : bool;
  icon_optional : bool;
  text_allow_overlap : bool;
  icon_allow_overlap : bool;
  text_ignore_placement : bool;
  icon_ignore_placement : bool;
  text_rotation_alignment : string;
  text_pitch_alignment : string;
  dynamic_text_anchor : option ref
}.

Record Transform := { zoom : Q; angle : Q }.

(** [===] on strings. *)
Definition str_eq (a b : string) : bool := bool_decide (a = b).

Definition AUTO_DYNAMIC_PLACEMENT_elements : list string :=
  ["center"; "top"; "bottom"; "left"; "right";
   "top-left"; "top-right"; "bottom-left"; "bottom-right"].

(** The module-level constant [AUTO_DYNAMIC_PLACEMENT] is one array, shared by
    every placement: a fixed reference into the store. *)
Definition AUTO_DYNAMIC_PLACEMENT : ref := 1%positive.

(** ** What placement consumes from its collaborators

    The spatial index, the size evaluation, the serialized collision data and
    the line geometry are data of other modules; placement hands them on
    without looking inside. *)

Class OpaqueData := {
  CollisionIndex : Type;
  SizeData : Type;
  ZoomSize : Type;
  CollisionBoxArray : Type;
  LineVertexArray : Type;
  GlyphOffsetArray : Type;
  PlacedSymbolData : Type
}.

Section Placement.

Context `{OpaqueData}.

(** One entry of [bucket.text.placedSymbolArray]; placement writes its
    [crossTileID] and [hidden] columns and leaves the rest alone. *)
Record PlacedSymbol := {
  layoutData : PlacedSymbolData;
  placedCrossTileID : N;
  hidden : N
}.

(** The parts of a [SymbolBucket] that placement reads or writes.
    [layout] is [bucket.layers[0].layout], [placedSymbolArray] is
    [bucket.text.placedSymbolArray]; [hasTextData] and [hasIconData] are the
    answers of the methods of those names; [collisionArrays] is [undefined]
    until the collision boxes have been deserialized. *)
Record Bucket := {
  layout : Layout;
  textSizeData : SizeData;
  sourceID : string;
  bucketInstanceId : N;
  tilePixelRatio : Q;
  symbolInstances : list SymbolInstance.t;
  collisionArrays : option (list CollisionArrays);
  placedSymbolArray : list PlacedSymbol;
  lineVertexArray : LineVertexArray;
  glyphOffsetArray : GlyphOffsetArray;
  hasTextData : bool;
  hasIconData : bool;
  justReloaded : bool
}.

(** ** class Placement (its fields) *)

#[warnings="-register-all"]
Inductive Placement := mkPlacement {
  transform : Transform;
  collisionIndex : CollisionIndex;
  placements : gmap N JointPlacement.t;
  opacities : gmap N JointOpacityState.t;
  dynamicOffsets : gmap N DynamicOffset;
  commitTime : Q;
  lastPlacementChangeTime : option Q;
  stale : bool;
  fadeDuration : Q;
  collisionGroups : CollisionGroups.t;
  prevPlacement : option Placement
}.

(** The functions placement calls in other modules, and [Math.sqrt]. *)
Class Collaborators := {
  newCollisionIndex : Transform → CollisionIndex;
  placeCollisionBox :
    CollisionIndex → SingleCollisionBox → bool → Q → mat4 →
    option (CollisionKey → bool) → PlacedBox.t;
  placeCollisionCircles :
    CollisionIndex → list Q → bool → Q → Q → option PlacedSymbol →
    LineVertexArray → GlyphOffsetArray → Q → mat4 → mat4 → bool → bool →
    option (CollisionKey → bool) → PlacedCircles.t;
  insertCollisionBox :
    CollisionIndex → list Q → bool → N → N → option N → CollisionIndex;
  insertCollisionCircles :
    CollisionIndex → list Q → bool → N → N → option N → CollisionIndex;
  evaluateSizeForZoom : SizeData → Q → ZoomSize;
  evaluateSizeForFeature : SizeData → ZoomSize → option PlacedSymbol → Q;
  getTextboxScale : Q → Q → Q;
  getAnchorJustification : string → Justification;
  getAnchorAlignment : string → AnchorAlignment;
  deserializeCollisionBoxes : Bucket → CollisionBoxArray → list CollisionArrays;
  Point_rotate : Point.t → Q → Point.t;
  Math_sqrt : Q → Q
}.

Context `{Collaborators}.

(** ** Field updates *)

Definition set_collisionIndex (v : CollisionIndex) (p : Placement) : Placement :=
  mkPlacement (transform p) v (placements p) (opacities p) (dynamicOffsets p)
    (commitTime p) (lastPlacementChangeTime p) (stale p) (fadeDuration p)
    (collisionGroups p) (prevPlacement p).

Definition set_placements (v : gmap N JointPlacement.t) (p : Placement) : Placement :=
  mkPlacement (transform p) (collisionIndex p) v (opacities p) (dynamicOffsets p)
    (commitTime p) (lastPlacementChangeTime p) (stale p) (fadeDuration p)
    (collisionGroups p) (prevPlacement p).

Definition set_opacities (v : gmap N JointOpacityState.t) (p : Placement) : Placement :=
  mkPlacement (transform p) (collisionIndex p) (placements p) v (dynamicOffsets p)
    (commitTime p) (lastPlacementChangeTime p) (stale p) (fadeDuration p)
    (collisionGroups p) (prevPlacement p).

Definition set_dynamicOffsets (v : gmap N DynamicOffset) (p : Placement) : Placement :=
  mkPlacement (transform p) (collisionIndex p) (placements p) (opacities p) v
    (commitTime p) (lastPlacementChangeTime p) (stale p) (fadeDuration p)
    (collisionGroups p) (prevPlacement p).

Definition set_commitTime (v : Q) (p : Placement) : Placement :=
  mkPlacement (transform p) (collisionIndex p) (placements p) (opacities p)
    (dynamicOffsets p) v (lastPlacementChangeTime p) (stale p) (fadeDuration p)
    (collisionGroups p) (prevPlacement p).

Definition set_lastPlacementChangeTime (v : option Q) (p : Placement) : Placement :=
  mkPlacement (transform p) (collisionIndex p) (placements p) (opacities p)
    (dynamicOffsets p) (commitTime p) v (stale p) (fadeDuration p)
    (collisionGroups p) (prevPlacement p).

Definition set_collisionGroups (v : CollisionGroups.t) (p : Placement) : Placement :=
  mkPlacement (transform p) (collisionIndex p) (placements p) (opacities p)
    (dynamicOffsets p) (commitTime p) (lastPlacementChangeTime p) (stale p)
    (fadeDuration p) v (prevPlacement p).

Definition set_prevPlacement (v : option Placement) (p : Placement) : Placement :=
  mkPlacement (transform p) (collisionIndex p) (placements p) (opacities p)
    (dynamicOffsets p) (commitTime p) (lastPlacementChangeTime p) (stale p)
    (fadeDuration p) (collisionGroups p) v.

Definition set_collisionArrays (v : option (list CollisionArrays)) (b : Bucket) : Bucket :=
  {| layout := layout b; textSizeData := textSizeData b; sourceID := sourceID b;
     bucketInstanceId := bucketInstanceId b; tilePixelRatio := tilePixelRatio b;
     symbolInstances := symbolInstances b; collisionArrays := v;
     placedSymbolArray := placedSymbolArray b; lineVertexArray := lineVertexArray b;
     glyphOffsetArray := glyphOffsetArray b; hasTextData := hasTextData b;
     hasIconData := hasIconData b; justReloaded := justReloaded b |}.

Definition set_placedSymbolArray (v : list PlacedSymbol) (b : Bucket) : Bucket :=
  {| layout := layout b; textSizeData := textSizeData b; sourceID := sourceID b;
     bucketInstanceId := bucketInstanceId b; tilePixelRatio := tilePixelRatio b;
     symbolInstances := symbolInstances b; collisionArrays := collisionArrays b;
     placedSymbolArray := v; lineVertexArray := lineVertexArray b;
     glyphOffsetArray := glyphOffsetArray b; hasTextData := hasTextData b;
     hasIconData := hasIconData b; justReloaded := justReloaded b |}.

Definition set_justReloaded (v : bool) (b : Bucket) : Bucket :=
  {| layout := layout b; textSizeData := textSizeData b; sourceID := sourceID b;
     bucketInstanceId := bucketInstanceId b; tilePixelRatio := tilePixelRatio b;
     symbolInstances := symbolInstances b; collisionArrays := collisionArrays b;
     placedSymbolArray := placedSymbolArray b; lineVertexArray := lineVertexArray b;
     glyphOffsetArray := glyphOffsetArray b; hasTextData := hasTextData b;
     hasIconData := hasIconData b; justReloaded := v |}.

(** The state a placement pass works on: the [Placement] itself, the
    bucket at hand, the store of anchor arrays, and what [warnOnce] keeps. *)
Record Core := {
  this : Placement;
  bucket : Bucket;
  arrays : ArrayStore;
  warnOnceHistory : gset string;
  console : list string
}.

Definition set_this (v : Placement) (c : Core) : Core :=
  {| this := v; bucket := bucket c; arrays := arrays c;
     warnOnceHistory := warnOnceHistory c; console := console c |}.

Definition set_bucket (v : Bucket) (c : Core) : Core :=
  {| this := this c; bucket := v; arrays := arrays c;
     warnOnceHistory := warnOnceHistory c; console := console c |}.

Definition set_arrays (v : ArrayStore) (c : Core) : Core :=
  {| this := this c; bucket := bucket c; arrays := v;
     warnOnceHistory := warnOnceHistory c; console := console c |}.

(** The core together with the [seenCrossTileIDs] object that the caller
    shares between the buckets of one sweep. *)
Record World := {
  core : Core;
  seenCrossTileIDs : gmap N bool
}.

Definition liftCore {A} (m : M Core A) : M World A := λ w,
  let '(r, c) := m (core w) in
  (r, {| core := c; seenCrossTileIDs := seenCrossTileIDs w |}).

(** Modelled from the spec: [warnOnce] of util/util is not part of this
    file; the spec calls its effect a one-time warning, so a message is
    written to the console unless the history already holds it, and is
    remembered. *)
Definition warnOnce (message : string) : M Core unit :=
  modify (λ c,
    if bool_decide (message ∈ warnOnceHistory c) then c
    else {| this := this c; bucket := bucket c; arrays := arrays c;
            warnOnceHistory := {[message]} ∪ warnOnceHistory c;
            console := console c ++ [message] |}).

(** ** Arrays of anchors in the store *)

(** The elements of the array behind a reference. *)
Definition elements_of (r : ref) : M Core (list string) :=
  read (λ c, arrays c !!! r).

(** [array.filter(keep)]: a new array; the receiver is not touched. *)
Definition Array_filter (keep : string → bool) (r : ref) : M Core ref := λ c,
  let r' := fresh (dom (arrays c)) in
  (Return r', set_arrays (<[r' := List.filter keep (arrays c !!! r)]> (arrays c)) c).

(** [array.unshift(v)]: in place. *)
Definition Array_unshift (v : string) (r : ref) : M Core unit :=
  modify (λ c, set_arrays (<[r := v :: (arrays c !!! r)]> (arrays c)) c).

(** ** calculateDynamicLayoutOffset, getDynamicOffset, shiftDynamicCollisionBox *)

Definition getDynamicOffset (anchor : string) (radialOffset : Q) : Q * Q :=
  let hypotenuse := (radialOffset / Math_sqrt 2)%Q in
  let y :=
    if str_eq anchor "top-right" || str_eq anchor "top-left" then hypotenuse
    else if str_eq anchor "bottom-right" || str_eq anchor "bottom-left"
    then (- hypotenuse)%Q
    else if str_eq anchor "bottom" then (- radialOffset)%Q
    else if str_eq anchor "top" then radialOffset
    else 0%Q in
  let x :=
    if str_eq anchor "top-right" || str_eq anchor "bottom-right"
    then (- hypotenuse)%Q
    else if str_eq anchor "top-left" || str_eq anchor "bottom-left" then hypotenuse
    else if str_eq anchor "left" then radialOffset
    else if str_eq anchor "right" then (- radialOffset)%Q
    else 0%Q in
  (x, y).

Definition calculateDynamicLayoutOffset (anchor : string)
    (width height radialOffset textBoxScale : Q) : Point.t :=
  let align := getAnchorAlignment anchor in
  let shiftX := (- (horizontalAlign align - (1 # 2)) * width)%Q in
  let shiftY := (- (verticalAlign align - (1 # 2)) * height)%Q in
  let offset :=
    if negb (strict_eq radialOffset 0) then getDynamicOffset anchor radialOffset
    else (0%Q, 0%Q) in
  Point.mk (shiftX + offset.1 * textBoxScale)%Q (shiftY + offset.2 * textBoxScale)%Q.

Definition shiftDynamicCollisionBox (collisionBox : SingleCollisionBox)
    (shiftX shiftY : Q) (rotateWithMap pitchWithMap : bool) (angle : Q)
    : SingleCollisionBox :=
  let rotatedOffset :=
    if rotateWithMap
    then Point_rotate (Point.mk shiftX shiftY)
           (if pitchWithMap then angle else (- angle)%Q)
    else Point.mk shiftX shiftY in
  {| x1 := x1 collisionBox + Point.x rotatedOffset;
     y1 := y1 collisionBox + Point.y rotatedOffset;
     x2 := x2 collisionBox + Point.x rotatedOffset;
     y2 := y2 collisionBox + Point.y rotatedOffset;
     anchorPointX := anchorPointX collisionBox;
     anchorPointY := anchorPointY collisionBox |}.

(** ** class Placement: constructor *)

(** [constructor(transform, fadeDuration, crossSourceCollisions, prevPlacement)];
    the predecessor is kept with its own predecessor link cut. *)
Definition Placement_new (transform' : Transform) (fadeDuration' : Q)
    (crossSourceCollisions : bool) (prevPlacement' : option Placement) : Placement :=
  mkPlacement transform' (newCollisionIndex transform') ∅ ∅ ∅ 0 None false
    fadeDuration' (CollisionGroups.new crossSourceCollisions)
    (set_prevPlacement None <$> prevPlacement').

(** ** hideUnplacedJustifications *)

(** Modelled from the spec: the accessor [placedSymbolArray.get(index)] of
    the struct array is not part of this file; writing the [crossTileID]
    column of an entry changes that entry, and an index outside the array
    names no entry. *)
Definition writeCrossTileID (index : Z) (v : N) (a : list PlacedSymbol)
    : list PlacedSymbol :=
  if (0 <=? index)%Z then
    alter (λ entry, {| layoutData := layoutData entry;
                       placedCrossTileID := v;
                       hidden := hidden entry |}) (Z.to_nat index) a
  else a.

(** Modelled from the spec: reading [placedSymbolArray.get(index)], where
    [index] may be [undefined]. *)
Definition readPlacedSymbol (index : option Z) (a : list PlacedSymbol)
    : option PlacedSymbol :=
  index ≫= λ k, if (0 <=? k)%Z then a !! Z.to_nat k else None.

Definition instancesOf (symbolInstance : SymbolInstance.t) : Justifications :=
  {| left := SymbolInstance.leftJustifiedTextSymbolIndex symbolInstance;
     center := SymbolInstance.centerJustifiedTextSymbolIndex symbolInstance;
     right := SymbolInstance.rightJustifiedTextSymbolIndex symbolInstance |}.

Definition hideUnplacedJustifications (placedJustification : Justification)
    (symbolInstance : SymbolInstance.t) : M Core unit :=
  let instances := instancesOf symbolInstance in
  let placedIndex := justificationIndex instances placedJustification in
  modify (λ c, set_bucket (set_placedSymbolArray
    (writeCrossTileID placedIndex (SymbolInstance.crossTileID symbolInstance)
       (placedSymbolArray (bucket c))) (bucket c)) c) ;;
  forEach [JLeft; JCenter; JRight] (λ justification,
    let index := justificationIndex instances justification in
    if (0 <=? index)%Z && negb (index =? placedIndex)%Z then
      (* shift offscreen *)
      modify (λ c, set_bucket (set_placedSymbolArray
        (writeCrossTileID index 0 (placedSymbolArray (bucket c))) (bucket c)) c)
    else mret ()).

(** ** attemptAnchorPlacement *)

Definition autoWarning : string :=
  "Auto is not valid as any but the first element of the `dynamic-text-anchor` array.".

Definition attemptAnchorPlacement (anchor' : string) (dynamicAnchors : ref)
    (collisionArrays' : CollisionArrays) (textBox' : SingleCollisionBox)
    (dynamicTextOffset textBoxScale' : Q) (rotateWithMap pitchWithMap : bool)
    (textPixelRatio : Q) (posMatrix : mat4) (collisionGroup : CollisionGroup)
    (justifications : Justifications) (textAllowOverlap : bool)
    (symbolInstance : SymbolInstance.t) : M Core (option PlacedBox.t) :=
  first ← read (λ c, head (arrays c !!! dynamicAnchors));
  (* Skip center placement on auto mode if there is an icon for this feature *)
  if bool_decide (is_Some (iconBox collisionArrays'))
     && bool_decide (first = Some "auto") && str_eq anchor' "center"
  then mret None
  else if str_eq anchor' "auto" then
    warnOnce autoWarning ;;
    mret None
  else
    let justification := getAnchorJustification anchor' in
    let justifiedPlacedSymbol := justificationIndex justifications justification in
    if (justifiedPlacedSymbol <? 0)%Z then mret None
    else
      let width' := (x2 textBox' - x1 textBox')%Q in
      let height' := (y2 textBox' - y1 textBox')%Q in
      let shift :=
        calculateDynamicLayoutOffset anchor' width' height' dynamicTextOffset
          textBoxScale' in
      match textBox collisionArrays' with
      | Some box' =>
          placedGlyphBoxes ← read (λ c,
            placeCollisionBox (collisionIndex (this c))
              (shiftDynamicCollisionBox box' (Point.x shift) (Point.y shift)
                 rotateWithMap pitchWithMap (angle (transform (this c))))
              textAllowOverlap textPixelRatio posMatrix (predicate collisionGroup));
          if (0 <? length (PlacedBox.box placedGlyphBoxes))%nat then
            let crossTileID := SymbolInstance.crossTileID symbolInstance in
            (* If this label was placed in the previous placement, record the
               anchor position to allow us to animate the transition *)
            prevAnchor' ← read (λ c,
              prev ← prevPlacement (this c);
              offsets ← dynamicOffsets prev !! crossTileID;
              placement ← placements prev !! crossTileID;
              if JointPlacement.text placement then Some (anchor offsets) else None);
            assert (negb (crossTileID =? 0)%N) ;;
            modify (λ c, set_this (set_dynamicOffsets
              (<[crossTileID :=
                   {| radialOffset := dynamicTextOffset;
                      width := width';
                      height := height';
                      anchor := anchor';
                      textBoxScale := textBoxScale';
                      prevAnchor := prevAnchor' |}]>
                 (dynamicOffsets (this c))) (this c)) c) ;;
            hideUnplacedJustifications justification symbolInstance ;;
            mret (Some placedGlyphBoxes)
          else mret None
      | None => mret None
      end.

(** ** placeLayerBucket *)

(** Lines 413-421: the order in which the anchors are tried.  The candidates
    are the layout's own array, or [AUTO_DYNAMIC_PLACEMENT] when that array
    starts with "auto"; an anchor used by the previous placement goes first. *)
Definition anchorsToAttempt (dynamicAnchors : ref) (crossTileID : N) : M Core ref :=
  first ← read (λ c, head (arrays c !!! dynamicAnchors));
  let anchors := if bool_decide (first = Some "auto")
                 then AUTO_DYNAMIC_PLACEMENT else dynamicAnchors in
  recorded ← read (λ c, prev ← prevPlacement (this c); dynamicOffsets prev !! crossTileID);
  match recorded with
  | Some prevOffsets =>
      anchors0 ← read (λ c, head (arrays c !!! anchors));
      if negb (bool_decide (anchors0 = Some (anchor prevOffsets))) then
        (* Shift previously used anchor to front of list *)
        anchors' ← Array_filter (λ a, negb (str_eq a (anchor prevOffsets))) anchors;
        Array_unshift (anchor prevOffsets) anchors' ;;
        mret anchors'
      else mret anchors
  | None => mret anchors
  end.

(** Lines 423-432: [for (const anchor of anchors)] with its [break]; the
    answer is the boxes of the first attempt that placed, if any. *)
Fixpoint attemptAnchors (anchors : list string) (dynamicAnchors : ref)
    (collisionArrays' : CollisionArrays) (textBox' : SingleCollisionBox)
    (dynamicTextOffset textBoxScale' : Q) (rotateWithMap pitchWithMap : bool)
    (textPixelRatio : Q) (posMatrix : mat4) (collisionGroup : CollisionGroup)
    (justifications : Justifications) (textAllowOverlap : bool)
    (symbolInstance : SymbolInstance.t) : M Core (option PlacedBox.t) :=
  match anchors with
  | [] => mret None
  | anchor' :: rest =>
      placedGlyphBoxes ←
        attemptAnchorPlacement anchor' dynamicAnchors collisionArrays' textBox'
          dynamicTextOffset textBoxScale' rotateWithMap pitchWithMap textPixelRatio
          posMatrix collisionGroup justifications textAllowOverlap symbolInstance;
      match placedGlyphBoxes with
      | Some boxes => mret (Some boxes)
      | None =>
          attemptAnchors rest dynamicAnchors collisionArrays' textBox'
            dynamicTextOffset textBoxScale' rotateWithMap pitchWithMap textPixelRatio
            posMatrix collisionGroup justifications textAllowOverlap symbolInstance
      end
  end.

(** Lines 482-494: combine the scales for icons and text.  The pair is
    [(placeText, placeIcon)]. *)
Definition combineTextAndIcon (textOptional iconOptional : bool)
    (symbolInstance : SymbolInstance.t) (placeText placeIcon : bool) : bool * bool :=
  let iconWithoutText :=
    textOptional ||
    ((SymbolInstance.numHorizontalGlyphVertices symbolInstance =? 0)%N &&
     (SymbolInstance.numVerticalGlyphVertices symbolInstance =? 0)%N) in
  let textWithoutIcon :=
    iconOptional || (SymbolInstance.numIconVertices symbolInstance =? 0)%N in
  if negb iconWithoutText && negb textWithoutIcon then
    (placeIcon && placeText, placeIcon && placeText)
  else if negb textWithoutIcon then (placeIcon && placeText, placeIcon)
  else if negb iconWithoutText then (placeText, placeIcon && placeText)
  else (placeText, placeIcon).

(** The arguments of [placeLayerBucket] other than the bucket and the shared
    [seenCrossTileIDs], which are in the state. *)
Record Args := {
  posMatrix : mat4;
  textLabelPlaneMatrix : mat4;
  iconLabelPlaneMatrix : mat4;
  scale : Q;
  textPixelRatio : Q;
  showCollisionBoxes : bool;
  holdingForFade : bool;
  collisionBoxArray : option CollisionBoxArray
}.

(** The constants [placeLayerBucket] computes before its loop. *)
Record Locals := {
  partiallyEvaluatedTextSize : ZoomSize;
  textOptional : bool;
  iconOptional : bool;
  textAllowOverlap : bool;
  iconAllowOverlap : bool;
  alwaysShowText : bool;
  alwaysShowIcon : bool;
  collisionGroup : CollisionGroup;
  rotateWithMap : bool;
  pitchWithMap : bool
}.

(** Lines 433-442: a label that the search did not place keeps the offset of
    the previous placement, for the fade animation. *)
Definition keepPreviousOffset (symbolInstance : SymbolInstance.t) : M Core unit :=
  let crossTileID := SymbolInstance.crossTileID symbolInstance in
  own ← read (λ c, dynamicOffsets (this c) !! crossTileID);
  prev ← read (λ c, prevPlacement (this c));
  match own, prev with
  | None, Some prev' =>
      (* If we didn't get placed, we still need to copy our position from
         the last placement for fade animations *)
      match dynamicOffsets prev' !! crossTileID with
      | Some prevOffset =>
          modify (λ c, set_this (set_dynamicOffsets
            (<[crossTileID := prevOffset]> (dynamicOffsets (this c))) (this c)) c) ;;
          hideUnplacedJustifications
            (getAnchorJustification (anchor prevOffset)) symbolInstance
      | None => mret ()
      end
  | _, _ => mret ()
  end.

(** Lines 405-443: the text box, with a fixed anchor or with the anchor
    search.  The pair is [(placedGlyphBoxes, placeText)]. *)
Definition placeTextBox (a : Args) (l : Locals) (symbolInstance : SymbolInstance.t)
    (collisionArrays' : CollisionArrays) (justifications : Justifications)
    : M Core (option PlacedBox.t * bool) :=
  let crossTileID := SymbolInstance.crossTileID symbolInstance in
  layout' ← read (λ c, layout (bucket c));
  match textBox collisionArrays', dynamic_text_anchor layout' with
  | Some textBox', None =>
      placedGlyphBoxes ← read (λ c,
        placeCollisionBox (collisionIndex (this c)) textBox'
          (text_allow_overlap layout') (textPixelRatio a) (posMatrix a)
          (predicate (collisionGroup l)));
      mret (Some placedGlyphBoxes, (0 <? length (PlacedBox.box placedGlyphBoxes))%nat)
  | Some textBox', Some dynamicAnchors =>
      textBoxScale' ← read (λ c,
        getTextboxScale (tilePixelRatio (bucket c))
          (SymbolInstance.layoutTextSize symbolInstance));
      anchors ← anchorsToAttempt dynamicAnchors crossTileID;
      candidates ← elements_of anchors;
      placedGlyphBoxes ←
        attemptAnchors candidates dynamicAnchors collisionArrays' textBox'
          (SymbolInstance.dynamicTextOffset symbolInstance) textBoxScale'
          (rotateWithMap l) (pitchWithMap l) (textPixelRatio a) (posMatrix a)
          (collisionGroup l) justifications (textAllowOverlap l) symbolInstance;
      keepPreviousOffset symbolInstance ;;
      mret (placedGlyphBoxes, bool_decide (is_Some placedGlyphBoxes))
  | None, _ => mret (None, false)
  end.

(** Lines 375-511: the body of the loop for a symbol that is neither seen
    nor held for fade, up to and including the write of its [JointPlacement]. *)
Definition resolveSymbolInstance (a : Args) (l : Locals) (i : nat)
    (symbolInstance : SymbolInstance.t) : M Core unit :=
  let crossTileID := SymbolInstance.crossTileID symbolInstance in
  layout' ← read (λ c, layout (bucket c));
  entry ← read (λ c, arr ← collisionArrays (bucket c); arr !! i);
  collisionArrays' ← defined entry;
  let textFeatureIndex' :=
    if truthyN (textFeatureIndex collisionArrays')
    then default 0%N (textFeatureIndex collisionArrays') else 0%N in
  (* justify right = 1, left = 0, center = 0.5 *)
  let justifications := instancesOf symbolInstance in
  '(placedGlyphBoxes, placeText) ←
    placeTextBox a l symbolInstance collisionArrays' justifications;
  let alongLineJustification :=
    List.filter (λ k, (0 <=? k)%Z)
      [left justifications; center justifications; right justifications] in
  let offscreen := from_option PlacedBox.offscreen false placedGlyphBoxes in
  '(placedGlyphCircles, placeText, offscreen) ←
    match textCircles collisionArrays' with
    | Some textCircles' =>
        placed ← read (λ c,
          let placedSymbol :=
            readPlacedSymbol (head alongLineJustification)
              (placedSymbolArray (bucket c)) in
          let fontSize :=
            evaluateSizeForFeature (textSizeData (bucket c))
              (partiallyEvaluatedTextSize l) placedSymbol in
          placeCollisionCircles (collisionIndex (this c)) textCircles'
            (text_allow_overlap layout') (scale a) (textPixelRatio a) placedSymbol
            (lineVertexArray (bucket c)) (glyphOffsetArray (bucket c)) fontSize
            (posMatrix a) (textLabelPlaneMatrix a) (showCollisionBoxes a)
            (pitchWithMap l) (predicate (collisionGroup l)));
        (* If text-allow-overlap is set, force "placedCircles" to true *)
        mret (Some placed,
              text_allow_overlap layout'
              || (0 <? length (PlacedCircles.circles placed))%nat,
              offscreen && PlacedCircles.offscreen placed)
    | None => mret (None, placeText, offscreen)
    end;
  let iconFeatureIndex' :=
    if truthyN (iconFeatureIndex collisionArrays')
    then default 0%N (iconFeatureIndex collisionArrays') else 0%N in
  '(placedIconBoxes, placeIcon, offscreen) ←
    match iconBox collisionArrays' with
    | Some iconBox' =>
        placed ← read (λ c,
          placeCollisionBox (collisionIndex (this c)) iconBox'
            (icon_allow_overlap layout') (textPixelRatio a) (posMatrix a)
            (predicate (collisionGroup l)));
        mret (Some placed, (0 <? length (PlacedBox.box placed))%nat,
              offscreen && PlacedBox.offscreen placed)
    | None => mret (None, false, offscreen)
    end;
  let '(placeText, placeIcon) :=
    combineTextAndIcon (textOptional l) (iconOptional l) symbolInstance
      placeText placeIcon in
  bucketInstanceId' ← read (λ c, bucketInstanceId (bucket c));
  match placedGlyphBoxes with
  | Some boxes =>
      if placeText then
        modify (λ c, set_this (set_collisionIndex
          (insertCollisionBox (collisionIndex (this c)) (PlacedBox.box boxes)
             (text_ignore_placement layout') bucketInstanceId' textFeatureIndex'
             (ID (collisionGroup l))) (this c)) c)
      else mret ()
  | None => mret ()
  end ;;
  match placedIconBoxes with
  | Some boxes =>
      if placeIcon then
        modify (λ c, set_this (set_collisionIndex
          (insertCollisionBox (collisionIndex (this c)) (PlacedBox.box boxes)
             (icon_ignore_placement layout') bucketInstanceId' iconFeatureIndex'
             (ID (collisionGroup l))) (this c)) c)
      else mret ()
  | None => mret ()
  end ;;
  match placedGlyphCircles with
  | Some found =>
      if placeText then
        modify (λ c, set_this (set_collisionIndex
          (insertCollisionCircles (collisionIndex (this c))
             (PlacedCircles.circles found) (text_ignore_placement layout')
             bucketInstanceId' textFeatureIndex' (ID (collisionGroup l)))
          (this c)) c)
      else mret ()
  | None => mret ()
  end ;;
  assert (negb (crossTileID =? 0)%N) ;;
  assert (negb (bucketInstanceId' =? 0)%N) ;;
  modify (λ c, set_this (set_placements
    (<[crossTileID :=
         JointPlacement.mk (placeText || alwaysShowText l)
           (placeIcon || alwaysShowIcon l)
           (offscreen || justReloaded (bucket c))]>
       (placements (this c))) (this c)) c).

(** Lines 366-514: one turn of the loop over [bucket.symbolInstances]. *)
Definition placeSymbolInstance (a : Args) (l : Locals) (i : nat) : M World unit :=
  entry ← read (λ w, symbolInstances (bucket (core w)) !! i);
  symbolInstance ← defined entry;
  let crossTileID := SymbolInstance.crossTileID symbolInstance in
  seen ← read (λ w, seenCrossTileIDs w !! crossTileID);
  if negb (truthy seen) then
    if holdingForFade a then
      (* Mark all symbols from this tile as "not placed", but don't add to
         seenCrossTileIDs, because we don't know yet if we have a duplicate in
         a parent tile that _should_ be placed. *)
      liftCore (modify (λ c, set_this (set_placements
        (<[crossTileID := JointPlacement.mk false false false]>
           (placements (this c))) (this c)) c))
    else
      liftCore (resolveSymbolInstance a l i symbolInstance) ;;
      modify (λ w, {| core := core w;
                      seenCrossTileIDs := <[crossTileID := true]> (seenCrossTileIDs w) |})
  else mret ().

(** Lines 333-363: what [placeLayerBucket] does before its loop: the
    constants of the pass, the collision group of the bucket's source, and
    the deserialization of the collision boxes when they are still missing. *)
Definition placeLayerBucketLocals (a : Args) : M Core Locals :=
  b ← read bucket;
  zoom' ← read (λ c, zoom (transform (this c)));
  let layout' := layout b in
  let textOptional' := text_optional layout' in
  let iconOptional' := icon_optional layout' in
  let textAllowOverlap' := text_allow_overlap layout' in
  let iconAllowOverlap' := icon_allow_overlap layout' in
  collisionGroup' ← (λ c,
    let '(group, groups) :=
      CollisionGroups.get (sourceID b) (collisionGroups (this c)) in
    (Return group, set_this (set_collisionGroups groups (this c)) c));
  match collisionArrays b, collisionBoxArray a with
  | None, Some boxes =>
      modify (λ c, set_bucket (set_collisionArrays
        (Some (deserializeCollisionBoxes (bucket c) boxes)) (bucket c)) c)
  | _, _ => mret ()
  end ;;
  mret {| partiallyEvaluatedTextSize := evaluateSizeForZoom (textSizeData b) zoom';
          textOptional := textOptional';
          iconOptional := iconOptional';
          textAllowOverlap := textAllowOverlap';
          iconAllowOverlap := iconAllowOverlap';
          alwaysShowText :=
            textAllowOverlap'
            && (iconAllowOverlap' || negb (hasIconData b) || iconOptional');
          alwaysShowIcon :=
            iconAllowOverlap'
            && (textAllowOverlap' || negb (hasTextData b) || textOptional');
          collisionGroup := collisionGroup';
          rotateWithMap := str_eq (text_rotation_alignment layout') "map";
          pitchWithMap := str_eq (text_pitch_alignment layout') "map" |}.

Definition placeLayerBucket (a : Args) : M World unit :=
  l ← liftCore (placeLayerBucketLocals a);
  count ← read (λ w, length (symbolInstances (bucket (core w))));
  forRange 0 count (placeSymbolInstance a l) ;;
  liftCore (modify (λ c, set_bucket (set_justReloaded false (bucket c)) c)).

(** The caller moves on to the next tile: the same placement and the same
    [seenCrossTileIDs], another bucket. *)
Definition withBucket (b : Bucket) (w : World) : World :=
  {| core := set_bucket b (core w); seenCrossTileIDs := seenCrossTileIDs w |}.

(** ** commit *)

(** [for (const key in object)]: one turn per own key.  Every loop of
    [commit] reads and writes only the entry of the key at hand, so the
    order in which the keys come is immaterial; they are taken as
    [map_to_list] lists them. *)
Definition forIn {St V} (object : gmap N V) (body : N → V → M St unit) : M St unit :=
  forEach (map_to_list object) (λ entry, body entry.1 entry.2).

(** [commit] runs on the placement and on its local [placementChanged]. *)
Record CommitFrame := {
  self : Placement;
  placementChanged : bool
}.

Definition fadeIncrement (prevPlacement' : option Placement) (p : Placement) : Q :=
  match prevPlacement' with
  | Some prev =>
      if negb (strict_eq (fadeDuration p) 0)
      then ((commitTime p - commitTime prev) / fadeDuration p)%Q
      else 1%Q
  | None => 1%Q
  end.

(** Lines 549-561: add the opacities from the current placement, and copy
    their current values from the previous placement. *)
Definition commitPlaced (prevOpacities : gmap N JointOpacityState.t) (increment : Q)
    (crossTileID : N) (jointPlacement : JointPlacement.t) : M CommitFrame unit :=
  modify (λ f,
    match prevOpacities !! crossTileID with
    | Some prevOpacity =>
        {| self := set_opacities
             (<[crossTileID :=
                  JointOpacityState.new (Some prevOpacity) increment
                    (JointPlacement.text jointPlacement)
                    (JointPlacement.icon jointPlacement) None]>
                (opacities (self f))) (self f);
           placementChanged :=
             placementChanged f
             || xorb (JointPlacement.text jointPlacement)
                  (OpacityState.placed (JointOpacityState.text prevOpacity))
             || xorb (JointPlacement.icon jointPlacement)
                  (OpacityState.placed (JointOpacityState.icon prevOpacity)) |}
    | None =>
        {| self := set_opacities
             (<[crossTileID :=
                  JointOpacityState.new None increment
                    (JointPlacement.text jointPlacement)
                    (JointPlacement.icon jointPlacement)
                    (Some (JointPlacement.skipFade jointPlacement))]>
                (opacities (self f))) (self f);
           placementChanged :=
             placementChanged f || JointPlacement.text jointPlacement
             || JointPlacement.icon jointPlacement |}
    end).

(** Lines 564-573: copy and update values from the previous placement that
    aren't in the current placement but haven't finished fading. *)
Definition commitFading (increment : Q) (crossTileID : N)
    (prevOpacity : JointOpacityState.t) : M CommitFrame unit :=
  modify (λ f,
    match opacities (self f) !! crossTileID with
    | None =>
        let jointOpacity :=
          JointOpacityState.new (Some prevOpacity) increment false false None in
        if negb (JointOpacityState.isHidden jointOpacity) then
          {| self := set_opacities
               (<[crossTileID := jointOpacity]> (opacities (self f))) (self f);
             placementChanged :=
               placementChanged f
               || OpacityState.placed (JointOpacityState.text prevOpacity)
               || OpacityState.placed (JointOpacityState.icon prevOpacity) |}
        else f
    | Some _ => f
    end).

(** Lines 574-578: the dynamic offsets of labels that are still fading. *)
Definition commitOffsets (crossTileID : N) (prevOffset : DynamicOffset)
    : M CommitFrame unit :=
  modify (λ f,
    match dynamicOffsets (self f) !! crossTileID, opacities (self f) !! crossTileID with
    | None, Some opacity =>
        if negb (JointOpacityState.isHidden opacity) then
          {| self := set_dynamicOffsets
               (<[crossTileID := prevOffset]> (dynamicOffsets (self f))) (self f);
             placementChanged := placementChanged f |}
        else f
    | _, _ => f
    end).

Definition commitFrame (prevPlacement' : option Placement) (now : Q)
    : M CommitFrame unit :=
  modify (λ f, {| self := set_commitTime now (self f);
                  placementChanged := placementChanged f |}) ;;
  increment ← read (λ f, fadeIncrement prevPlacement' (self f));
  let prevOpacities := from_option opacities ∅ prevPlacement' in
  let prevOffsets := from_option dynamicOffsets ∅ prevPlacement' in
  placed ← read (λ f, placements (self f));
  forIn placed (commitPlaced prevOpacities increment) ;;
  forIn prevOpacities (commitFading increment) ;;
  forIn prevOffsets commitOffsets ;;
  (* this.lastPlacementChangeTime is the time of the last commit() that
     resulted in a placement change -- in other words, the start time of
     the last symbol fade animation *)
  assert (from_option (λ prev, bool_decide (is_Some (lastPlacementChangeTime prev)))
            true prevPlacement') ;;
  modify (λ f,
    if placementChanged f then
      {| self := set_lastPlacementChangeTime (Some now) (self f);
         placementChanged := placementChanged f |}
    else if negb (bool_decide (is_Some (lastPlacementChangeTime (self f)))) then
      {| self := set_lastPlacementChangeTime
           (match prevPlacement' with
            | Some prev => lastPlacementChangeTime prev
            | None => Some now
            end) (self f);
         placementChanged := placementChanged f |}
    else f).

(** [commit(prevPlacement, now)]; the previous placement is an object of its
    own, which [commit] only reads. *)
Definition commit (prevPlacement' : option Placement) (now : Q) : M Placement unit :=
  λ p,
    let '(r, f) := commitFrame prevPlacement' now {| self := p; placementChanged := false |} in
    (r, self f).

(** ** Vocabulary of the statements below *)

(** Placement never adds, drops or reorders the symbol instances of the
    bucket it is working on. *)
Definition sameSymbols (c c' : Core) : Prop :=
  symbolInstances (bucket c') = symbolInstances (bucket c).

(** The order in which a sweep moves through its states: the symbol
    instances of the bucket at hand stay, and a crossTileID once marked
    seen stays marked. *)
Definition sweepOrder (w w' : World) : Prop :=
  sameSymbols (core w) (core w')
  ∧ ∀ k, seenCrossTileIDs w !! k = Some true → seenCrossTileIDs w' !! k = Some true.


(** The anchor search on the list [first :: rest] starts with the attempt
    at [first]: it stops there when that attempt places the box or throws,
    and goes on to [rest] from the state the attempt left otherwise. *)
Definition attemptedFirst (first : string) (rest : list string)
    (dynamicAnchors : ref) (collisionArrays' : CollisionArrays)
    (textBox' : SingleCollisionBox) (dynamicTextOffset textBoxScale' : Q)
    (rotateWithMap' pitchWithMap' : bool) (textPixelRatio' : Q) (posMatrix' : mat4)
    (collisionGroup' : CollisionGroup) (justifications : Justifications)
    (textAllowOverlap' : bool) (symbolInstance : SymbolInstance.t) (c : Core) : Prop :=
  attemptAnchors (first :: rest) dynamicAnchors collisionArrays' textBox'
    dynamicTextOffset textBoxScale' rotateWithMap' pitchWithMap' textPixelRatio'
    posMatrix' collisionGroup' justifications textAllowOverlap' symbolInstance c
  = match attemptAnchorPlacement first dynamicAnchors collisionArrays' textBox'
            dynamicTextOffset textBoxScale' rotateWithMap' pitchWithMap'
            textPixelRatio' posMatrix' collisionGroup' justifications
            textAllowOverlap' symbolInstance c with
    | (Return (Some boxes), c1) => (Return (Some boxes), c1)
    | (Return None, c1) =>
        attemptAnchors rest dynamicAnchors collisionArrays' textBox'
          dynamicTextOffset textBoxScale' rotateWithMap' pitchWithMap'
          textPixelRatio' posMatrix' collisionGroup' justifications
          textAllowOverlap' symbolInstance c1
    | (Throw e, c1) => (Throw e, c1)
    end.

(** One turn of each loop of [commit], as a function on the frame. *)
Definition placedTurn (prevOpacities : gmap N JointOpacityState.t) (increment : Q)
    (k : N) (jp : JointPlacement.t) (f : CommitFrame) : CommitFrame :=
  (commitPlaced prevOpacities increment k jp f).2.

Definition fadingTurn (increment : Q) (k : N) (po : JointOpacityState.t)
    (f : CommitFrame) : CommitFrame :=
  (commitFading increment k po f).2.

Definition offsetsTurn (k : N) (po : DynamicOffset) (f : CommitFrame) : CommitFrame :=
  (commitOffsets k po f).2.

(** What the first loop of [commit] stores for a label placed in this pass. *)
Definition placedOpacity (prevOpacities : gmap N JointOpacityState.t) (increment : Q)
    (k : N) (jp : JointPlacement.t) : JointOpacityState.t :=
  match prevOpacities !! k with
  | Some prevOpacity =>
      JointOpacityState.new (Some prevOpacity) increment
        (JointPlacement.text jp) (JointPlacement.icon jp) None
  | None =>
      JointOpacityState.new None increment
        (JointPlacement.text jp) (JointPlacement.icon jp)
        (Some (JointPlacement.skipFade jp))
  end.

(** What the second loop of [commit] stores for a label of the previous
    pass: nothing once it is hidden. *)
Definition fadingOpacity (increment : Q) (po : JointOpacityState.t)
    : option JointOpacityState.t :=
  let jointOpacity := JointOpacityState.new (Some po) increment false false None in
  if JointOpacityState.isHidden jointOpacity then None else Some jointOpacity.

(** The frame after the three loops of [commit]. *)
Definition afterLoops (prevPlacement' : option Placement) (now : Q) (p : Placement)
    : CommitFrame :=
  let increment := fadeIncrement prevPlacement' (set_commitTime now p) in
  let prevOpacities := from_option opacities ∅ prevPlacement' in
  let prevOffsets := from_option dynamicOffsets ∅ prevPlacement' in
  foldl (λ f entry, offsetsTurn entry.1 entry.2 f)
    (foldl (λ f entry, fadingTurn increment entry.1 entry.2 f)
       (foldl (λ f entry, placedTurn prevOpacities increment entry.1 entry.2 f)
          {| self := set_commitTime now p; placementChanged := false |}
          (map_to_list (placements p)))
       (map_to_list prevOpacities))
    (map_to_list prevOffsets).

(** [commit] leaves the decisions of the pass and the fade duration alone. *)
Definition sameDecisions (f f' : CommitFrame) : Prop :=
  placements (self f') = placements (self f)
  ∧ fadeDuration (self f') = fadeDuration (self f).

End Placement.

(** ** More of the code, and the vocabulary of its properties *)

(** [wp m Q E s]: run from [s], the computation [m] returns a value and a
    state that satisfy [Q], or throws an exception and a state that satisfy
    [E]. *)
Definition wp {St A} (m : M St A) (Q : A → St → Prop) (E : exn → St → Prop)
    (s : St) : Prop :=
  match m s with
  | (Return a, s') => Q a s'
  | (Throw e, s') => E e s'
  end.

(** [a < b] on numbers. *)
Definition Qlt_bool (a b : Q) : bool := negb (Qle_bool b a).

(** What a registry built by [new false] and [get] satisfies besides
    [consistent]: the ids from 1 to [maxGroupID] are all taken, one per
    group. *)
Definition dense (cg : CollisionGroups.t) : Prop :=
  CollisionGroups.crossSourceCollisions cg = false
  ∧ (∀ sourceID, sourceID ∈ dom (CollisionGroups.collisionGroups cg) →
       sourceID ∉ Object_prototype)
  ∧ CollisionGroups.maxGroupID cg
    = N.of_nat (size (dom (CollisionGroups.collisionGroups cg)))
  ∧ ∀ n, (1 <= n <= CollisionGroups.maxGroupID cg)%N →
      ∃ sourceID group,
        CollisionGroups.collisionGroups cg !! sourceID = Some group
        ∧ ID group = Some n.

Section PlacementClock.

Context `{Collaborators}.

Definition set_stale (v : bool) (p : Placement) : Placement :=
  mkPlacement (transform p) (collisionIndex p) (placements p) (opacities p)
    (dynamicOffsets p) (commitTime p) (lastPlacementChangeTime p) v
    (fadeDuration p) (collisionGroups p) (prevPlacement p).

(** ** symbolFadeChange, hasTransitions, setStale *)

(** [symbolFadeChange(now)] *)
Definition symbolFadeChange (now : Q) (p : Placement) : Q :=
  if strict_eq (fadeDuration p) 0 then 1%Q
  else ((now - commitTime p) / fadeDuration p)%Q.

(** [hasTransitions(now)]; while [lastPlacementChangeTime] is [undefined]
    the difference is not a number and the comparison is false. *)
Definition hasTransitions (now : Q) (p : Placement) : bool :=
  stale p
  || match lastPlacementChangeTime p with
     | Some changed => Qlt_bool (now - changed) (fadeDuration p)
     | None => false
     end.

(** [setStale()] *)
Definition setStale (p : Placement) : Placement := set_stale true p.

(** ** Vocabulary of the statements about a pass *)

(** The entry [entry] of the placed-symbol array with its crossTileID column
    set to [v]. *)
Definition tagged (v : N) (entry : PlacedSymbol) : PlacedSymbol :=
  {| layoutData := layoutData entry; placedCrossTileID := v; hidden := hidden entry |}.

(** What the placement of the text box of the label [id] may change: the
    dynamic offset recorded for [id], and the crossTileID column of the
    placed-symbol array.  (The anchor arrays and what [warnOnce] keeps are
    not constrained.) *)
Definition textBoxFrame (id : N) (c c' : Core) : Prop :=
  (∃ offsets',
     this c' = set_dynamicOffsets offsets' (this c)
     ∧ ∀ k, k ≠ id → offsets' !! k = dynamicOffsets (this c) !! k)
  ∧ ∃ array',
      bucket c' = set_placedSymbolArray array' (bucket c)
      ∧ length array' = length (placedSymbolArray (bucket c)).

(** What the resolution of the label [id] may change: besides the above,
    the collision index and the placement recorded for [id]. *)
Definition labelFrame (id : N) (c c' : Core) : Prop :=
  (∃ placements' index' offsets',
     this c' = set_placements placements'
                 (set_collisionIndex index' (set_dynamicOffsets offsets' (this c)))
     ∧ ∀ k, k ≠ id →
         placements' !! k = placements (this c) !! k
         ∧ offsets' !! k = dynamicOffsets (this c) !! k)
  ∧ ∃ array',
      bucket c' = set_placedSymbolArray array' (bucket c)
      ∧ length array' = length (placedSymbolArray (bucket c)).

(** What the code leaves of the arrays it holds by reference: every array
    that was in the store is as it was; new arrays may have come. *)
Definition arraysKept (c c' : Core) : Prop :=
  ∀ r, is_Some (arrays c !! r) → arrays c' !! r = arrays c !! r.

(** What a pass over a bucket leaves alone: the fade state of the placement
    and the static data of the bucket. *)
Definition passFrame (c c' : Core) : Prop :=
  opacities (this c') = opacities (this c)
  ∧ commitTime (this c') = commitTime (this c)
  ∧ lastPlacementChangeTime (this c') = lastPlacementChangeTime (this c)
  ∧ fadeDuration (this c') = fadeDuration (this c)
  ∧ stale (this c') = stale (this c)
  ∧ transform (this c') = transform (this c)
  ∧ prevPlacement (this c') = prevPlacement (this c)
  ∧ layout (bucket c') = layout (bucket c)
  ∧ symbolInstances (bucket c') = symbolInstances (bucket c)
  ∧ bucketInstanceId (bucket c') = bucketInstanceId (bucket c)
  ∧ sourceID (bucket c') = sourceID (bucket c)
  ∧ hasTextData (bucket c') = hasTextData (bucket c)
  ∧ hasIconData (bucket c') = hasIconData (bucket c)
  ∧ length (placedSymbolArray (bucket c')) = length (placedSymbolArray (bucket c)).

Definition worldFrame (w w' : World) : Prop := passFrame (core w) (core w').

(** What a pass leaves of the entries of the crossTileID [k], unless [k]
    is the crossTileID of a symbol instance of the bucket and is not marked
    seen. *)
Definition untouched (k : N) (w w' : World) : Prop :=
  symbolInstances (bucket (core w')) = symbolInstances (bucket (core w))
  ∧ (¬ (k ∈ SymbolInstance.crossTileID <$> symbolInstances (bucket (core w))
        ∧ truthy (seenCrossTileIDs w !! k) = false) →
     placements (this (core w')) !! k = placements (this (core w)) !! k
     ∧ dynamicOffsets (this (core w')) !! k = dynamicOffsets (this (core w)) !! k
     ∧ seenCrossTileIDs w' !! k = seenCrossTileIDs w !! k).

(** The outcome [run] of [hideUnplacedJustifications] from the state [c]. *)
Definition justified (placedJustification : Justification)
    (symbolInstance : SymbolInstance.t) (c : Core) (run : outcome unit * Core) : Prop :=
  let instances := instancesOf symbolInstance in
  let placedIndex := justificationIndex instances placedJustification in
  ∃ array',
    run = (Return (), set_bucket (set_placedSymbolArray array' (bucket c)) c)
    ∧ length array' = length (placedSymbolArray (bucket c))
    ∧ ∀ n entry, placedSymbolArray (bucket c) !! n = Some entry →
        array' !! n =
          Some (if decide (Z.of_nat n = placedIndex)
                then tagged (SymbolInstance.crossTileID symbolInstance) entry
                else if decide (Z.of_nat n = left instances
                                ∨ Z.of_nat n = center instances
                                ∨ Z.of_nat n = right instances)
                then tagged 0 entry
                else entry).

(** The outcome [run] of an attempt at the anchor [anchor'] from the state
    [c]. *)
Definition attempted (anchor' : string) (dynamicAnchors : ref)
    (collisionArrays' : CollisionArrays) (textBox' : SingleCollisionBox)
    (dynamicTextOffset textBoxScale' : Q) (justifications : Justifications)
    (symbolInstance : SymbolInstance.t) (c : Core)
    (run : outcome (option PlacedBox.t) * Core) : Prop :=
  let id := SymbolInstance.crossTileID symbolInstance in
  match run with
  | (Return None, c') =>
      this c' = this c ∧ bucket c' = bucket c ∧ arrays c' = arrays c
  | (Return (Some boxes), c') =>
      PlacedBox.box boxes ≠ [] ∧ id ≠ 0%N ∧ anchor' ≠ "auto"
      ∧ ¬ (is_Some (iconBox collisionArrays')
           ∧ head (arrays c !!! dynamicAnchors) = Some "auto" ∧ anchor' = "center")
      ∧ (0 <= justificationIndex justifications (getAnchorJustification anchor'))%Z
      ∧ is_Some (textBox collisionArrays')
      ∧ (∃ offset,
           dynamicOffsets (this c') = <[id := offset]> (dynamicOffsets (this c))
           ∧ anchor offset = anchor'
           ∧ radialOffset offset = dynamicTextOffset
           ∧ textBoxScale offset = textBoxScale'
           ∧ width offset = (x2 textBox' - x1 textBox')%Q
           ∧ height offset = (y2 textBox' - y1 textBox')%Q)
      ∧ collisionIndex (this c') = collisionIndex (this c)
      ∧ placements (this c') = placements (this c)
      ∧ opacities (this c') = opacities (this c)
      ∧ symbolInstances (bucket c') = symbolInstances (bucket c)
      ∧ length (placedSymbolArray (bucket c')) = length (placedSymbolArray (bucket c))
      ∧ arrays c' = arrays c ∧ console c' = console c
  | (Throw e, c') => e = AssertionError ∧ id = 0%N ∧ c' = c
  end.

(** The outcome [run] of the search over the anchors [anchors] from the
    state [c]. *)
Definition searched (anchors : list string) (dynamicAnchors : ref)
    (collisionArrays' : CollisionArrays) (justifications : Justifications)
    (symbolInstance : SymbolInstance.t) (c : Core)
    (run : outcome (option PlacedBox.t) * Core) : Prop :=
  let id := SymbolInstance.crossTileID symbolInstance in
  match run with
  | (Return None, c') =>
      this c' = this c ∧ bucket c' = bucket c ∧ arrays c' = arrays c
  | (Return (Some boxes), c') =>
      PlacedBox.box boxes ≠ [] ∧ id ≠ 0%N
      ∧ (∃ offset,
           dynamicOffsets (this c') = <[id := offset]> (dynamicOffsets (this c))
           ∧ anchor offset ∈ anchors
           ∧ anchor offset ≠ "auto"
           ∧ ¬ (is_Some (iconBox collisionArrays')
                ∧ head (arrays c !!! dynamicAnchors) = Some "auto"
                ∧ anchor offset = "center")
           ∧ (0 <= justificationIndex justifications
                     (getAnchorJustification (anchor offset)))%Z)
      ∧ collisionIndex (this c') = collisionIndex (this c)
      ∧ placements (this c') = placements (this c)
      ∧ opacities (this c') = opacities (this c)
      ∧ arrays c' = arrays c
  | (Throw e, c') =>
      e = AssertionError ∧ id = 0%N
      ∧ this c' = this c ∧ bucket c' = bucket c ∧ arrays c' = arrays c
  end.

(** The outcome [run] of the resolution of the symbol instance at index [i]
    from the state [c]. *)
Definition resolved (l : Locals) (i : nat) (symbolInstance : SymbolInstance.t)
    (c : Core) (run : outcome unit * Core) : Prop :=
  let id := SymbolInstance.crossTileID symbolInstance in
  match run with
  | (Return _, c') =>
      id ≠ 0%N ∧ bucketInstanceId (bucket c) ≠ 0%N
      ∧ is_Some (arr ← collisionArrays (bucket c); arr !! i)
      ∧ ∃ jointPlacement,
          placements (this c') = <[id := jointPlacement]> (placements (this c))
          ∧ (alwaysShowText l = true → JointPlacement.text jointPlacement = true)
          ∧ (alwaysShowIcon l = true → JointPlacement.icon jointPlacement = true)
          ∧ (justReloaded (bucket c) = true →
             JointPlacement.skipFade jointPlacement = true)
          ∧ (textOptional l = false → iconOptional l = false →
             alwaysShowText l = false → alwaysShowIcon l = false →
             ¬ (SymbolInstance.numHorizontalGlyphVertices symbolInstance = 0%N
                ∧ SymbolInstance.numVerticalGlyphVertices symbolInstance = 0%N) →
             SymbolInstance.numIconVertices symbolInstance ≠ 0%N →
             JointPlacement.text jointPlacement = JointPlacement.icon jointPlacement)
  | (Throw AssertionError, c') =>
      (id = 0%N ∨ bucketInstanceId (bucket c) = 0%N)
      ∧ placements (this c') = placements (this c)
  | (Throw TypeError, c') =>
      (arr ← collisionArrays (bucket c); arr !! i) = None ∧ c' = c
  end.



(** Lines 496-507 as a function on the collision index: what the
    resolution of a symbol instance inserts, given what the collision index
    answered for its text box, its icon box and its text circles and what
    the combination step left of [placeText] and [placeIcon]. *)
Definition insertPlaced (l : Locals) (layout' : Layout) (bucketInstanceId' : N)
    (collisionArrays' : CollisionArrays)
    (placedGlyphBoxes placedIconBoxes : option PlacedBox.t)
    (placedGlyphCircles : option PlacedCircles.t) (placeText placeIcon : bool)
    (index : CollisionIndex) : CollisionIndex :=
  let textFeatureIndex' := default 0%N (textFeatureIndex collisionArrays') in
  let iconFeatureIndex' := default 0%N (iconFeatureIndex collisionArrays') in
  let withText :=
    match placedGlyphBoxes with
    | Some boxes =>
        if placeText then
          insertCollisionBox index (PlacedBox.box boxes) (text_ignore_placement layout')
            bucketInstanceId' textFeatureIndex' (ID (collisionGroup l))
        else index
    | None => index
    end in
  let withIcon :=
    match placedIconBoxes with
    | Some boxes =>
        if placeIcon then
          insertCollisionBox withText (PlacedBox.box boxes)
            (icon_ignore_placement layout') bucketInstanceId' iconFeatureIndex'
            (ID (collisionGroup l))
        else withText
    | None => withText
    end in
  match placedGlyphCircles with
  | Some found =>
      if placeText then
        insertCollisionCircles withIcon (PlacedCircles.circles found)
          (text_ignore_placement layout') bucketInstanceId' textFeatureIndex'
          (ID (collisionGroup l))
      else withIcon
  | None => withIcon
  end.

(** ** Vocabulary of the statements about commit *)

(** Whether a label placed in this pass changes the placement: its targets
    differ from those of the previous opacity state, or it is new and
    placed (lines 553-559). *)
Definition placedChange (prevOpacities : gmap N JointOpacityState.t) (k : N)
    (jp : JointPlacement.t) : bool :=
  match prevOpacities !! k with
  | Some prevOpacity =>
      xorb (JointPlacement.text jp)
        (OpacityState.placed (JointOpacityState.text prevOpacity))
      || xorb (JointPlacement.icon jp)
           (OpacityState.placed (JointOpacityState.icon prevOpacity))
  | None => JointPlacement.text jp || JointPlacement.icon jp
  end.

(** Whether a label of the previous placement that this pass did not decide
    changes the placement: it is still fading and was placed (lines
    565-572). *)
Definition fadingChange (increment : Q) (p : Placement) (k : N)
    (prevOpacity : JointOpacityState.t) : bool :=
  bool_decide (placements p !! k = None ∧ opacities p !! k = None)
  && negb (JointOpacityState.isHidden
             (JointOpacityState.new (Some prevOpacity) increment false false None))
  && (OpacityState.placed (JointOpacityState.text prevOpacity)
      || OpacityState.placed (JointOpacityState.icon prevOpacity)).

(** What [commit] never writes. *)
Definition commitKeeps (f f' : CommitFrame) : Prop :=
  transform (self f') = transform (self f)
  ∧ collisionIndex (self f') = collisionIndex (self f)
  ∧ placements (self f') = placements (self f)
  ∧ stale (self f') = stale (self f)
  ∧ fadeDuration (self f') = fadeDuration (self f)
  ∧ collisionGroups (self f') = collisionGroups (self f)
  ∧ prevPlacement (self f') = prevPlacement (self f).

End PlacementClock.

(** ** updateBucketOpacities, hidePlacedSymbols, updateCollisionVertices *)

(** One vertex of a collision vertex array, as
    [emplaceBack(placed, notUsed, shiftX, shiftY)] appends it. *)
Record CollisionVertex := {
  vertexPlaced : Z;
  vertexNotUsed : Z;
  vertexShiftX : Q;
  vertexShiftY : Q
}.

(** [function updateCollisionVertices(collisionVertexArray, placed, notUsed,
    shiftX, shiftY)]; the last two arguments may be left out. *)
Definition updateCollisionVertices (collisionVertexArray : list CollisionVertex)
    (placed notUsed : bool) (shiftX shiftY : option Q) : list CollisionVertex :=
  let orZero (v : option Q) : Q :=
    match v with
    | Some x => if negb (strict_eq x 0) then x else 0%Q
    | None => 0%Q
    end in
  let vertex :=
    {| vertexPlaced := if placed then 1%Z else 0%Z;
       vertexNotUsed := if notUsed then 1%Z else 0%Z;
       vertexShiftX := orZero shiftX;
       vertexShiftY := orZero shiftY |} in
  collisionVertexArray ++ [vertex; vertex; vertex; vertex].

Section OpacityWriteback.

Context `{Collaborators}.

(** Modelled from the spec: the bucket exposes per-part (text, icon,
    collisionBox, collisionCircle) vertex-array buffers with [clear] and
    [emplaceBack], which are not part of this file; an array is the list of
    what was appended since it was cleared.  [iconPlacedSymbolArray] is
    [bucket.icon.placedSymbolArray]. *)
Record OpacityBuffers := {
  textOpacityVertexArray : list Z;
  iconOpacityVertexArray : list Z;
  collisionBoxVertexArray : list CollisionVertex;
  collisionCircleVertexArray : list CollisionVertex;
  iconPlacedSymbolArray : list PlacedSymbol
}.

Definition set_textOpacityVertexArray (v : list Z) (b : OpacityBuffers) : OpacityBuffers :=
  {| textOpacityVertexArray := v;
     iconOpacityVertexArray := iconOpacityVertexArray b;
     collisionBoxVertexArray := collisionBoxVertexArray b;
     collisionCircleVertexArray := collisionCircleVertexArray b;
     iconPlacedSymbolArray := iconPlacedSymbolArray b |}.

Definition set_iconOpacityVertexArray (v : list Z) (b : OpacityBuffers) : OpacityBuffers :=
  {| textOpacityVertexArray := textOpacityVertexArray b;
     iconOpacityVertexArray := v;
     collisionBoxVertexArray := collisionBoxVertexArray b;
     collisionCircleVertexArray := collisionCircleVertexArray b;
     iconPlacedSymbolArray := iconPlacedSymbolArray b |}.

Definition set_collisionBoxVertexArray (v : list CollisionVertex) (b : OpacityBuffers)
    : OpacityBuffers :=
  {| textOpacityVertexArray := textOpacityVertexArray b;
     iconOpacityVertexArray := iconOpacityVertexArray b;
     collisionBoxVertexArray := v;
     collisionCircleVertexArray := collisionCircleVertexArray b;
     iconPlacedSymbolArray := iconPlacedSymbolArray b |}.

Definition set_collisionCircleVertexArray (v : list CollisionVertex) (b : OpacityBuffers)
    : OpacityBuffers :=
  {| textOpacityVertexArray := textOpacityVertexArray b;
     iconOpacityVertexArray := iconOpacityVertexArray b;
     collisionBoxVertexArray := collisionBoxVertexArray b;
     collisionCircleVertexArray := v;
     iconPlacedSymbolArray := iconPlacedSymbolArray b |}.

Definition set_iconPlacedSymbolArray (v : list PlacedSymbol) (b : OpacityBuffers)
    : OpacityBuffers :=
  {| textOpacityVertexArray := textOpacityVertexArray b;
     iconOpacityVertexArray := iconOpacityVertexArray b;
     collisionBoxVertexArray := collisionBoxVertexArray b;
     collisionCircleVertexArray := collisionCircleVertexArray b;
     iconPlacedSymbolArray := v |}.

(** The state [updateBucketOpacities] works on: the placement, the bucket
    and the shared [seenCrossTileIDs] as before, and the buffers. *)
Record Writeback := {
  world : World;
  buffers : OpacityBuffers
}.

Definition liftWorld {A} (m : M World A) : M Writeback A := λ p,
  let '(r, w) := m (world p) in
  (r, {| world := w; buffers := buffers p |}).

Definition modifyBuffers (f : OpacityBuffers → OpacityBuffers) : M Writeback unit :=
  modify (λ p, {| world := world p; buffers := f (buffers p) |}).

(** What [updateBucketOpacities] is given besides the bucket and
    [seenCrossTileIDs], and what it asks of the bucket that the pass did
    not: the answers of [hasCollisionBoxData()] and
    [hasCollisionCircleData()], and the column
    [verticalPlacedTextSymbolIndex] of [bucket.symbolInstances], by index
    of the symbol instance. *)
Record WritebackArgs := {
  serializedBoxes : option CollisionBoxArray;
  hasCollisionBoxData : bool;
  hasCollisionCircleData : bool;
  verticalPlacedTextSymbolIndex : nat → Z
}.

(** Modelled from the spec: writing the [hidden] column of the entry that
    [placedSymbolArray.get(index)] names; an index outside the array names
    no entry. *)
Definition writeHidden (index : Z) (v : N) (a : list PlacedSymbol) : list PlacedSymbol :=
  if (0 <=? index)%Z then
    alter (λ entry, {| layoutData := layoutData entry;
                       placedCrossTileID := placedCrossTileID entry;
                       hidden := v |}) (Z.to_nat index) a
  else a.

(** [hidePlacedSymbols(bucket, placedSymbolIndex, isHidden)] *)
Definition hidePlacedSymbols (placedSymbolIndex : Z) (isHidden : bool) : M Core unit :=
  if (-1 <? placedSymbolIndex)%Z then
    modify (λ c, set_bucket (set_placedSymbolArray
      (writeHidden placedSymbolIndex (if isHidden then 1%N else 0%N)
         (placedSymbolArray (bucket c))) (bucket c)) c)
  else mret ().

(** Line 615. *)
Definition duplicateOpacityState : JointOpacityState.t :=
  JointOpacityState.new None 0 false false (Some true).

(** Lines 621-628: if allow-overlap is true, symbols can be shown before
    placement runs on them. *)
Definition defaultOpacityState (b : Bucket) : JointOpacityState.t :=
  let layout' := layout b in
  let textAllowOverlap' := text_allow_overlap layout' in
  let iconAllowOverlap' := icon_allow_overlap layout' in
  JointOpacityState.new None 0
    (textAllowOverlap'
     && (iconAllowOverlap' || negb (hasIconData b) || icon_optional layout'))
    (iconAllowOverlap'
     && (textAllowOverlap' || negb (hasTextData b) || text_optional layout'))
    (Some true).

(** Lines 647-659: the opacity state of a symbol instance; the answer is
    the state with [isDuplicate]. *)
Definition selectOpacityState (defaultOpacityState' : JointOpacityState.t)
    (crossTileID : N) : M World (JointOpacityState.t * option bool) :=
  isDuplicate ← read (λ w, seenCrossTileIDs w !! crossTileID);
  stored ← read (λ w, opacities (this (core w)) !! crossTileID);
  opacityState ←
    (if truthy isDuplicate then mret duplicateOpacityState
     else match stored with
          | Some opacityState => mret opacityState
          | None =>
              (* store the state so that future placements use it as a
                 starting point *)
              liftCore (modify (λ c, set_this (set_opacities
                (<[crossTileID := defaultOpacityState']> (opacities (this c)))
                (this c)) c)) ;;
              mret defaultOpacityState'
          end);
  modify (λ w, {| core := core w;
                  seenCrossTileIDs := <[crossTileID := true]> (seenCrossTileIDs w) |}) ;;
  mret (opacityState, isDuplicate).

(** The number of turns of [for (let i = 0; i < vertices / 4; i++)]. *)
Definition quads (vertices : N) : nat := N.to_nat ((vertices + 3) / 4).

(** Lines 666-688: the opacity of the text of a symbol instance. *)
Definition writeTextOpacity (o : WritebackArgs) (s : nat)
    (symbolInstance : SymbolInstance.t) (opacityState : JointOpacityState.t)
    : M Writeback unit :=
  let packedOpacity := packOpacity (JointOpacityState.text opacityState) in
  (* Vertical text fades in/out on collision the same way as corresponding
     horizontal text. Switch between vertical/horizontal should be
     instantaneous *)
  let opacityEntryCount :=
    quads (SymbolInstance.numHorizontalGlyphVertices symbolInstance
           + SymbolInstance.numVerticalGlyphVertices symbolInstance) in
  forRange 0 opacityEntryCount (λ _,
    modifyBuffers (λ b, set_textOpacityVertexArray
      (textOpacityVertexArray b ++ [packedOpacity]) b)) ;;
  (* If this label is completely faded, mark it so that we don't have to
     calculate its position at render time. *)
  let hide := OpacityState.isHidden (JointOpacityState.text opacityState) in
  liftWorld (liftCore (hidePlacedSymbols (verticalPlacedTextSymbolIndex o s) hide)) ;;
  liftWorld (liftCore (hidePlacedSymbols
    (SymbolInstance.centerJustifiedTextSymbolIndex symbolInstance) hide)) ;;
  liftWorld (liftCore (hidePlacedSymbols
    (SymbolInstance.leftJustifiedTextSymbolIndex symbolInstance) hide)) ;;
  liftWorld (liftCore (hidePlacedSymbols
    (SymbolInstance.rightJustifiedTextSymbolIndex symbolInstance) hide)) ;;
  prevOffset ← read (λ p,
    dynamicOffsets (this (core (world p))) !! SymbolInstance.crossTileID symbolInstance);
  match prevOffset with
  | Some prevOffset' =>
      liftWorld (liftCore (hideUnplacedJustifications
        (getAnchorJustification (anchor prevOffset')) symbolInstance))
  | None => mret ()
  end.

(** Lines 690-697: the opacity of the icon of a symbol instance. *)
Definition writeIconOpacity (s : nat) (symbolInstance : SymbolInstance.t)
    (opacityState : JointOpacityState.t) : M Writeback unit :=
  let packedOpacity := packOpacity (JointOpacityState.icon opacityState) in
  forRange 0 (quads (SymbolInstance.numIconVertices symbolInstance)) (λ _,
    modifyBuffers (λ b, set_iconOpacityVertexArray
      (iconOpacityVertexArray b ++ [packedOpacity]) b)) ;;
  modifyBuffers (λ b, set_iconPlacedSymbolArray
    (writeHidden (Z.of_nat s)
       (if OpacityState.isHidden (JointOpacityState.icon opacityState)
        then 1%N else 0%N)
       (iconPlacedSymbolArray b)) b).

(** The indices [0, 5, 10, ...] below [length]: the turns of
    [for (let k = 0; k < length; k += 5)]. *)
Definition everyFifth (length' : nat) : list nat :=
  (λ j, 5 * j)%nat <$> seq 0 ((length' + 4) / 5).

(** Lines 700-733: the collision debug vertices of a symbol instance. *)
Definition writeCollisionVertices (o : WritebackArgs) (s : nat)
    (symbolInstance : SymbolInstance.t) (opacityState : JointOpacityState.t)
    (isDuplicate : option bool) : M Writeback unit :=
  let crossTileID := SymbolInstance.crossTileID symbolInstance in
  arrays' ← read (λ p, collisionArrays (bucket (core (world p))));
  arrays'' ← defined arrays';
  match arrays'' !! s with
  | Some collisionArrays' =>
      match textBox collisionArrays' with
      | Some _ =>
          layout' ← read (λ p, layout (bucket (core (world p))));
          shift ←
            (if bool_decide (is_Some (dynamic_text_anchor layout'))
                && OpacityState.placed (JointOpacityState.text opacityState)
             then
               recorded ← read (λ p, dynamicOffsets (this (core (world p))) !! crossTileID);
               dynamicOffset ← defined recorded;
               angle' ← read (λ p, angle (transform (this (core (world p)))));
               let shift :=
                 calculateDynamicLayoutOffset (anchor dynamicOffset)
                   (width dynamicOffset) (height dynamicOffset)
                   (radialOffset dynamicOffset) (textBoxScale dynamicOffset) in
               mret (if str_eq (text_rotation_alignment layout') "map"
                     then Point_rotate shift
                            (if str_eq (text_pitch_alignment layout') "map"
                             then angle' else (- angle')%Q)
                     else shift)
             else mret (Point.mk 0 0));
          modifyBuffers (λ b, set_collisionBoxVertexArray
            (updateCollisionVertices (collisionBoxVertexArray b)
               (OpacityState.placed (JointOpacityState.text opacityState)) false
               (Some (Point.x shift)) (Some (Point.y shift))) b)
      | None => mret ()
      end ;;
      match iconBox collisionArrays' with
      | Some _ =>
          modifyBuffers (λ b, set_collisionBoxVertexArray
            (updateCollisionVertices (collisionBoxVertexArray b)
               (OpacityState.placed (JointOpacityState.icon opacityState)) false
               None None) b)
      | None => mret ()
      end ;;
      match textCircles collisionArrays' with
      | Some textCircles' =>
          if hasCollisionCircleData o then
            forEach (everyFifth (length textCircles')) (λ k,
              let notUsed :=
                truthy isDuplicate
                || from_option (λ radius, strict_eq radius 0) false
                     (textCircles' !! (k + 4)%nat) in
              modifyBuffers (λ b, set_collisionCircleVertexArray
                (updateCollisionVertices (collisionCircleVertexArray b)
                   (OpacityState.placed (JointOpacityState.text opacityState))
                   notUsed None None) b))
          else mret ()
      | None => mret ()
      end
  | None => mret ()
  end.

(** Lines 636-735: one turn of the loop over [bucket.symbolInstances]. *)
Definition updateSymbolOpacity (o : WritebackArgs)
    (defaultOpacityState' : JointOpacityState.t) (s : nat) : M Writeback unit :=
  entry ← read (λ p, symbolInstances (bucket (core (world p))) !! s);
  symbolInstance ← defined entry;
  '(opacityState, isDuplicate) ←
    liftWorld (selectOpacityState defaultOpacityState'
                 (SymbolInstance.crossTileID symbolInstance));
  let hasText :=
    (0 <? SymbolInstance.numHorizontalGlyphVertices symbolInstance)%N
    || (0 <? SymbolInstance.numVerticalGlyphVertices symbolInstance)%N in
  let hasIcon := (0 <? SymbolInstance.numIconVertices symbolInstance)%N in
  (if hasText then writeTextOpacity o s symbolInstance opacityState else mret ()) ;;
  (if hasIcon then writeIconOpacity s symbolInstance opacityState else mret ()) ;;
  if hasCollisionBoxData o || hasCollisionCircleData o
  then writeCollisionVertices o s symbolInstance opacityState isDuplicate
  else mret ().

(** Lines 608-736 of [updateBucketOpacities(bucket, seenCrossTileIDs,
    collisionBoxArray)]: everything up to the end of the loop.  What
    follows the loop ([sortFeatures], the uploads of the vertex arrays and
    two assertions on their lengths) works on data of the bucket that is
    not part of this file. *)
Definition updateBucketOpacities (o : WritebackArgs) : M Writeback unit :=
  b ← read (λ p, bucket (core (world p)));
  (if hasTextData b
   then modifyBuffers (set_textOpacityVertexArray []) else mret ()) ;;
  (if hasIconData b
   then modifyBuffers (set_iconOpacityVertexArray []) else mret ()) ;;
  (if hasCollisionBoxData o
   then modifyBuffers (set_collisionBoxVertexArray []) else mret ()) ;;
  (if hasCollisionCircleData o
   then modifyBuffers (set_collisionCircleVertexArray []) else mret ()) ;;
  let defaultOpacityState' := defaultOpacityState b in
  match collisionArrays b, serializedBoxes o with
  | None, Some boxes =>
      if hasCollisionBoxData o || hasCollisionCircleData o then
        liftWorld (liftCore (modify (λ c, set_bucket (set_collisionArrays
          (Some (deserializeCollisionBoxes (bucket c) boxes)) (bucket c)) c)))
      else mret ()
  | _, _ => mret ()
  end ;;
  count ← read (λ p, length (symbolInstances (bucket (core (world p)))));
  forRange 0 count (updateSymbolOpacity o defaultOpacityState').

(** ** Vocabulary of the statements about the opacity writeback *)

(** The order in which the writeback moves through its states: of the
    placement only the opacities change, the symbol instances stay, a
    crossTileID once marked seen stays marked, an opacity state once stored
    stays as it is, and a state that is added is the default state [d], for
    a crossTileID of the bucket that was not marked seen. *)
Definition addsDefaults (d : JointOpacityState.t) (w w' : World) : Prop :=
  (∃ opacities', this (core w') = set_opacities opacities' (this (core w)))
  ∧ symbolInstances (bucket (core w')) = symbolInstances (bucket (core w))
  ∧ (∀ k, truthy (seenCrossTileIDs w !! k) = true →
          truthy (seenCrossTileIDs w' !! k) = true)
  ∧ (∀ k state, opacities (this (core w)) !! k = Some state →
                opacities (this (core w')) !! k = Some state)
  ∧ (∀ k state, opacities (this (core w')) !! k = Some state →
       opacities (this (core w)) !! k = Some state
       ∨ (state = d
          ∧ k ∈ SymbolInstance.crossTileID <$> symbolInstances (bucket (core w))
          ∧ truthy (seenCrossTileIDs w !! k) = false)).

(** What the writes of the [hidden] and [crossTileID] columns leave
    alone. *)
Definition coreDecided (c c' : Core) : Prop :=
  this c' = this c
  ∧ symbolInstances (bucket c') = symbolInstances (bucket c).

Definition sameDecided (w w' : World) : Prop :=
  coreDecided (core w) (core w')
  ∧ seenCrossTileIDs w' = seenCrossTileIDs w.

(** A relation on the placement and the bucket, as a relation on the
    states of the writeback. *)
Definition onWorld (R : relation World) : relation Writeback :=
  λ p p', R (world p) (world p').

(** What the writes of the [hidden] columns and of the collision vertex
    arrays leave alone: the opacity vertex arrays. *)
Definition sameOpacityArrays (p p' : Writeback) : Prop :=
  textOpacityVertexArray (buffers p') = textOpacityVertexArray (buffers p)
  ∧ iconOpacityVertexArray (buffers p') = iconOpacityVertexArray (buffers p).

(** What the writes of the opacities leave alone: the collision arrays of
    the bucket. *)
Definition sameCollisionArrays (p p' : Writeback) : Prop :=
  collisionArrays (bucket (core (world p')))
  = collisionArrays (bucket (core (world p))).

(** The vertex arrays of the collision boxes and circles hold whole
    quads. *)
Definition wholeQuads (b : OpacityBuffers) : Prop :=
  (4 | length (collisionBoxVertexArray b))%nat
  ∧ (4 | length (collisionCircleVertexArray b))%nat.

(** The number of entries that the writeback appends to the opacity
    vertex array of the text, and of the icons, for a symbol instance. *)
Definition textOpacityEntries (symbolInstance : SymbolInstance.t) : nat :=
  if (0 <? SymbolInstance.numHorizontalGlyphVertices symbolInstance)%N
     || (0 <? SymbolInstance.numVerticalGlyphVertices symbolInstance)%N
  then quads (SymbolInstance.numHorizontalGlyphVertices symbolInstance
              + SymbolInstance.numVerticalGlyphVertices symbolInstance)
  else 0%nat.

Definition iconOpacityEntries (symbolInstance : SymbolInstance.t) : nat :=
  if (0 <? SymbolInstance.numIconVertices symbolInstance)%N
  then quads (SymbolInstance.numIconVertices symbolInstance)
  else 0%nat.

(** The opacity state that the writeback reads for the symbol instance at
    index [i], told from the state [w] it begins with: the state of a
    duplicate if the crossTileID was marked seen or belongs to an earlier
    symbol instance of the bucket, else the stored state, else the default
    state. *)
Definition writtenOpacityState (w : World) (i : nat)
    (symbolInstance : SymbolInstance.t) : JointOpacityState.t :=
  let id := SymbolInstance.crossTileID symbolInstance in
  if truthy (seenCrossTileIDs w !! id)
     || bool_decide (id ∈ SymbolInstance.crossTileID
                            <$> take i (symbolInstances (bucket (core w))))
  then duplicateOpacityState
  else default (defaultOpacityState (bucket (core w)))
         (opacities (this (core w)) !! id).

Definition keepsQuads (p p' : Writeback) : Prop :=
  wholeQuads (buffers p) → wholeQuads (buffers p').

End OpacityWriteback.

(** ** A reference set of collaborators

    A small spatial index (the boxes inserted so far, a box is placed when it
    overlaps none of them) and the anchor tables of the layout module, so that
    the code above can be run on examples. *)

Module Reference.

#[export] Instance data : OpaqueData := {|
  CollisionIndex := list (list Q);
  SizeData := unit;
  ZoomSize := unit;
  CollisionBoxArray := list CollisionArrays;
  LineVertexArray := unit;
  GlyphOffsetArray := unit;
  PlacedSymbolData := unit
|}.

Definition corners (b : SingleCollisionBox) : list Q := [x1 b; y1 b; x2 b; y2 b].

Definition overlaps (p q : list Q) : bool :=
  match p, q with
  | [px1; py1; px2; py2], [qx1; qy1; qx2; qy2] =>
      negb (Qle_bool px2 qx1 || Qle_bool qx2 px1
            || Qle_bool py2 qy1 || Qle_bool qy2 py1)
  | _, _ => false
  end.

Definition isRight (a : string) : bool :=
  str_eq a "right" || str_eq a "top-right" || str_eq a "bottom-right".
Definition isLeft (a : string) : bool :=
  str_eq a "left" || str_eq a "top-left" || str_eq a "bottom-left".
Definition isBottom (a : string) : bool :=
  str_eq a "bottom" || str_eq a "bottom-right" || str_eq a "bottom-left".
Definition isTop (a : string) : bool :=
  str_eq a "top" || str_eq a "top-right" || str_eq a "top-left".

#[export] Instance collaborators : Collaborators := {|
  newCollisionIndex := λ _, [];
  placeCollisionBox := λ index b allowOverlap _ _ _,
    {| PlacedBox.box :=
         if allowOverlap || forallb (λ other, negb (overlaps other (corners b))) index
         then corners b else [];
       PlacedBox.offscreen := false |};
  placeCollisionCircles := λ _ _ _ _ _ _ _ _ _ _ _ _ _ _,
    {| PlacedCircles.circles := []; PlacedCircles.offscreen := false |};
  insertCollisionBox := λ index b _ _ _ _, b :: index;
  insertCollisionCircles := λ index _ _ _ _ _, index;
  evaluateSizeForZoom := λ _ _, ();
  evaluateSizeForFeature := λ _ _ _, 16%Q;
  getTextboxScale := λ _ _, 1%Q;
  getAnchorJustification := λ a,
    if isRight a then JRight else if isLeft a then JLeft else JCenter;
  getAnchorAlignment := λ a,
    {| horizontalAlign := if isRight a then 1 else if isLeft a then 0 else 1 # 2;
       verticalAlign := if isBottom a then 1 else if isTop a then 0 else 1 # 2 |};
  deserializeCollisionBoxes := λ _ boxes, boxes;
  Point_rotate := λ p _, p;
  Math_sqrt := λ _, 7 # 5
|}.

Definition layoutWith (anchors : option ref) : Layout := {|
  text_optional := false; icon_optional := false;
  text_allow_overlap := false; icon_allow_overlap := false;
  text_ignore_placement := false; icon_ignore_placement := false;
  text_rotation_alignment := "viewport"; text_pitch_alignment := "viewport";
  dynamic_text_anchor := anchors |}.

Definition squareAt (x y : Q) : SingleCollisionBox :=
  {| x1 := x; y1 := y; x2 := x + 10; y2 := y + 10;
     anchorPointX := x; anchorPointY := y |}.

(** A label with an icon and no glyphs, and a label with glyphs and no icon. *)
Definition iconOnly (id : N) : SymbolInstance.t :=
  SymbolInstance.mk id (-1) (-1) (-1) 16 0 0 0 4.
Definition textOnly (id : N) : SymbolInstance.t :=
  SymbolInstance.mk id 2 1 0 16 0 8 0 0.

Definition iconArrays : CollisionArrays :=
  {| textBox := None; iconBox := Some (squareAt 0 0); textCircles := None;
     textFeatureIndex := None; iconFeatureIndex := Some 3%N |}.
Definition textArrays : CollisionArrays :=
  {| textBox := Some (squareAt 0 0); iconBox := None; textCircles := None;
     textFeatureIndex := Some 5%N; iconFeatureIndex := None |}.

Definition bucketOf (lay : Layout) (instanceId : N) (symbols : list SymbolInstance.t)
    (boxes : list CollisionArrays) : Bucket :=
  {| layout := lay; textSizeData := (); sourceID := "composite";
     bucketInstanceId := instanceId; tilePixelRatio := 1;
     symbolInstances := symbols; collisionArrays := Some boxes;
     placedSymbolArray :=
       replicate 3 {| layoutData := (); placedCrossTileID := 0; hidden := 0 |};
     lineVertexArray := (); glyphOffsetArray := ();
     hasTextData := true; hasIconData := true; justReloaded := false |}.

Definition args (hold : bool) : Args := {|
  posMatrix := []; textLabelPlaneMatrix := []; iconLabelPlaneMatrix := [];
  scale := 1; textPixelRatio := 1; showCollisionBoxes := false;
  holdingForFade := hold; collisionBoxArray := None |}.

Definition view : Transform := {| zoom := 10; angle := 0 |}.

(** The store as the module leaves it when it is loaded. *)
Definition moduleStore : ArrayStore :=
  {[ AUTO_DYNAMIC_PLACEMENT := AUTO_DYNAMIC_PLACEMENT_elements ]}.

Definition start (prev : option Placement) (b : Bucket) (store : ArrayStore) : World :=
  {| core := {| this := Placement_new view 300 true prev;
                bucket := b;
                arrays := store;
                warnOnceHistory := ∅;
                console := [] |};
     seenCrossTileIDs := ∅ |}.

(** Two tiles that both carry the label 7. *)
Definition firstTile : World :=
  start None (bucketOf (layoutWith None) 1 [iconOnly 7] [iconArrays]) moduleStore.
Definition secondBucket : Bucket :=
  bucketOf (layoutWith None) 2 [textOnly 8; iconOnly 7] [textArrays; iconArrays].
Definition afterFirstTile : World := (placeLayerBucket (args false) firstTile).2.
Definition passLocals : Locals := {|
  partiallyEvaluatedTextSize := ();
  textOptional := false; iconOptional := false;
  textAllowOverlap := false; iconAllowOverlap := false;
  alwaysShowText := false; alwaysShowIcon := false;
  collisionGroup := {| ID := Some 0%N; predicate := None |};
  rotateWithMap := false; pitchWithMap := false |}.
Definition secondTile : World :=
  (liftCore (placeLayerBucketLocals (args false))
     (withBucket secondBucket afterFirstTile)).2.
Definition secondTileAtDuplicate : World :=
  (forRange 0 1 (placeSymbolInstance (args false) passLocals) secondTile).2.

(** A committed placement in which the text of label 5 is half faded in,
    and its successor, in which label 5 was not placed and label 6 was. *)
Definition halfFaded : JointOpacityState.t :=
  {| JointOpacityState.text := OpacityState.mk (1 # 2) true;
     JointOpacityState.icon := OpacityState.mk 0 false |}.
Definition committed : Placement :=
  mkPlacement view [] ∅ {[ 5%N := halfFaded ]} ∅ 0 (Some 0%Q) false 300
    (CollisionGroups.new true) None.
Definition successor : Placement :=
  set_placements {[ 6%N := JointPlacement.mk true false false ]}
    (Placement_new view 300 true (Some committed)).

(** A placement whose predecessor put the text of label 8 at the anchor
    "left", with a layout that lists the anchor and one that does not. *)
Definition placedLeft : Placement :=
  mkPlacement view [] {[ 8%N := JointPlacement.mk true false false ]} ∅
    {[ 8%N := {| radialOffset := 0; width := 10; height := 10; anchor := "left";
                 textBoxScale := 1; prevAnchor := None |} ]}
    0 (Some 0%Q) false 300 (CollisionGroups.new true) None.
Definition listingLeft : Core :=
  core (start (Some placedLeft)
          (bucketOf (layoutWith (Some 2%positive)) 1 [textOnly 8] [textArrays])
          (<[2%positive := ["top"; "left"; "right"]]> moduleStore)).

(** A tile whose layout lets text and icons overlap. *)
Definition overlapping : Layout := {|
  text_optional := false; icon_optional := false;
  text_allow_overlap := true; icon_allow_overlap := true;
  text_ignore_placement := false; icon_ignore_placement := false;
  text_rotation_alignment := "viewport"; text_pitch_alignment := "viewport";
  dynamic_text_anchor := None |}.
Definition overlapTile : World :=
  start None (bucketOf overlapping 1 [iconOnly 7] [iconArrays]) moduleStore.

(** A committed placement in which label 5 is fading out, and the placement
    that follows it without deciding label 5; a successor of [committed]
    that places the text of label 5 again. *)
Definition fadingOut : JointOpacityState.t :=
  {| JointOpacityState.text := OpacityState.mk (1 # 2) false;
     JointOpacityState.icon := OpacityState.mk 0 false |}.
Definition committedFading : Placement :=
  mkPlacement view [] ∅ {[ 5%N := fadingOut ]} ∅ 0 (Some 0%Q) false 300
    (CollisionGroups.new true) None.
Definition afterFading : Placement :=
  Placement_new view 300 true (Some committedFading).
Definition successorKeeping : Placement :=
  set_placements {[ 5%N := JointPlacement.mk true false false ]}
    (Placement_new view 300 true (Some committed)).

(** The first tile once more, with a bucket that was just reloaded. *)
Definition reloadedTile : World :=
  {| core := set_bucket (set_justReloaded true (bucket (core firstTile)))
               (core firstTile);
     seenCrossTileIDs := seenCrossTileIDs firstTile |}.

(** The second tile after the pass over the first, before its opacities
    are written back: label 7 is marked seen, label 8 is not. *)
Definition noBuffers : OpacityBuffers := {|
  textOpacityVertexArray := []; iconOpacityVertexArray := [];
  collisionBoxVertexArray := []; collisionCircleVertexArray := [];
  iconPlacedSymbolArray :=
    replicate 2 {| layoutData := (); placedCrossTileID := 0; hidden := 0 |} |}.
Definition plainWriteback : WritebackArgs := {|
  serializedBoxes := None;
  hasCollisionBoxData := false; hasCollisionCircleData := false;
  verticalPlacedTextSymbolIndex := λ _, (-1)%Z |}.
Definition secondTileWriteback : Writeback :=
  {| world := withBucket secondBucket afterFirstTile; buffers := noBuffers |}.

(** The same writeback asked for collision box data, on a bucket whose
    collision arrays were never deserialized. *)
Definition debugWriteback : WritebackArgs := {|
  serializedBoxes := None;
  hasCollisionBoxData := true; hasCollisionCircleData := false;
  verticalPlacedTextSymbolIndex := λ _, (-1)%Z |}.
Definition withoutArrays : Writeback :=
  {| world := withBucket (set_collisionArrays None secondBucket) afterFirstTile;
     buffers := noBuffers |}.

(** A tile on which the icon of label 7 lands on the icon of label 9, which
    is placed before it; the state of the pass when the loop reaches
    label 7, and the pass over the second tile, which carries label 7 as
    well, after the pass over this one. *)
Definition iconArraysAt (x y : Q) : CollisionArrays :=
  {| textBox := None; iconBox := Some (squareAt x y); textCircles := None;
     textFeatureIndex := None; iconFeatureIndex := Some 3%N |}.
Definition crowdedTile : World :=
  start None
    (bucketOf (layoutWith None) 1 [iconOnly 9; iconOnly 7]
       [iconArrays; iconArraysAt 5 5])
    moduleStore.
Definition crowdedAtDuplicate : World :=
  (forRange 0 1 (placeSymbolInstance (args false) passLocals)
     (liftCore (placeLayerBucketLocals (args false)) crowdedTile).2).2.
Definition afterCrowdedTile : World := (placeLayerBucket (args false) crowdedTile).2.
Definition secondTileAfterCrowded : World :=
  (liftCore (placeLayerBucketLocals (args false))
     (withBucket secondBucket afterCrowdedTile)).2.
Definition secondTileAfterCrowdedAtDuplicate : World :=
  (forRange 0 1 (placeSymbolInstance (args false) passLocals) secondTileAfterCrowded).2.

(** The placement that follows [committedFading], committed once. *)
Definition onceCommitted : Placement := (commit (Some committedFading) 75 afterFading).2.


(** The second tile with collision vertices left from an earlier writeback:
    three of boxes, four of circles. *)
Definition staleVertex : CollisionVertex :=
  {| vertexPlaced := 1; vertexNotUsed := 0; vertexShiftX := 0; vertexShiftY := 0 |}.
Definition staleBuffers : OpacityBuffers := {|
  textOpacityVertexArray := []; iconOpacityVertexArray := [];
  collisionBoxVertexArray := replicate 3 staleVertex;
  collisionCircleVertexArray := replicate 4 staleVertex;
  iconPlacedSymbolArray :=
    replicate 2 {| layoutData := (); placedCrossTileID := 0; hidden := 0 |} |}.
Definition staleWriteback : Writeback :=
  {| world := withBucket secondBucket afterFirstTile; buffers := staleBuffers |}.

End Reference.

(** * Properties *)

(** ** OpacityState *)

Lemma Math_min_le a b : (Math_min a b <= a)%Q.
Proof.
  unfold Math_min. destruct (Qle_bool a b) eqn:E.
  - apply Qle_refl.
  - destruct (Qlt_le_dec b a) as [Hlt|Hle].
    + by apply Qlt_le_weak.
    + apply Qle_bool_iff in Hle. congruence.
Qed.

Lemma clamp_bounds v : (0 <= Math_max 0 (Math_min 1 v) <= 1)%Q.
Proof.
  unfold Math_max. destruct (Qle_bool 0 (Math_min 1 v)) eqn:E.
  - split; [by apply Qle_bool_iff | apply Math_min_le].
  - split; [apply Qle_refl | discriminate].
Qed.

(** C1. Whatever the previous state (or none), the increment, the placed flag
    and skipFade, the opacity of a newly constructed OpacityState lies in
    [0,1]; and isHidden() is true exactly when the opacity is 0 and placed is
    false. *)
Theorem opacity_stays_in_unit_interval :
  (∀ prevState increment placed skipFade,
     (0 <= OpacityState.opacity (OpacityState.new prevState increment placed skipFade)
      <= 1)%Q)
  ∧ (∀ s, OpacityState.isHidden s = true
           ↔ (OpacityState.opacity s == 0)%Q ∧ OpacityState.placed s = false).
Proof.
  split.
  - intros [prev|] increment placed skipFade; simpl.
    + apply clamp_bounds.
    + destruct (truthy skipFade && placed); split; discriminate.
  - intros [o p]; unfold OpacityState.isHidden, strict_eq; simpl.
    rewrite andb_true_iff, negb_true_iff, Qeq_bool_iff. tauto.
Qed.

(** ** packOpacity *)

Lemma opacityBits_range o : (0 <= o <= 1)%Q → (0 <= Math_floor (o * 127) <= 127)%Z.
Proof.
  intros [Hlo Hhi]. unfold Math_floor. split.
  - change 0%Z with (Qfloor 0). apply Qfloor_resp_le.
    apply Qmult_le_0_compat; [done | discriminate].
  - change 127%Z with (Qfloor 127). apply Qfloor_resp_le.
    change (127 : Q) with (1 * 127)%Q.
    apply Qmult_le_compat_r; [done | discriminate].
Qed.

(** Away from the two shortcuts and on them alike, the packed word is the
    lane byte [2 * opacityBits + targetBit] laid out four times. *)
Lemma packOpacity_replicates s :
  (0 <= OpacityState.opacity s <= 1)%Q →
  packOpacity s =
    ((2 * Math_floor (OpacityState.opacity s * 127)
      + (if OpacityState.placed s then 1 else 0)) * 16843009)%Z.
Proof.
  intros Hrange. destruct s as [o p]. cbn [OpacityState.opacity OpacityState.placed] in *.
  unfold packOpacity, strict_eq.
  cbn [OpacityState.opacity OpacityState.placed].
  set (bits := Math_floor (o * 127)).
  assert ((o == 0)%Q → bits = 0%Z) as Hzero.
  { intros E. unfold bits, Math_floor. rewrite E. reflexivity. }
  assert ((o == 1)%Q → bits = 127%Z) as Hone.
  { intros E. unfold bits, Math_floor. rewrite E. reflexivity. }
  destruct (Qeq_bool o 0) eqn:E0; destruct (Qeq_bool o 1) eqn:E1;
    try (apply Qeq_bool_iff in E0; specialize (Hzero E0));
    try (apply Qeq_bool_iff in E1; specialize (Hone E1));
    destruct p; cbn [andb negb];
    unfold shift25, shift24, shift17, shift16, shift9, shift8, shift1; lia.
Qed.

Lemma lane_of_replicated v k :
  (0 <= v <= 255)%Z → (0 <= k <= 3)%Z → lane (v * 16843009) k = v.
Proof.
  intros Hv Hk. unfold lane. change 255%Z with (Z.ones 8).
  rewrite Z.land_ones, Z.shiftr_div_pow2 by lia.
  assert (k = 0 ∨ k = 1 ∨ k = 2 ∨ k = 3)%Z as [->|[->|[->| ->]]] by lia;
    simpl; Z.to_euclidean_division_equations; lia.
Qed.

(** C8. packOpacity gives 0 for opacity 0 and not placed, and 4294967295 for
    opacity 1 and placed; and for every state with opacity in [0,1] the
    result is a 32-bit value whose four 8-bit lanes all hold the same pair:
    floor(opacity * 127) in the upper seven bits (bits 25..31, 17..23, 9..15,
    1..7) and the placed flag in the lowest bit (bits 24, 16, 8, 0). *)
Theorem packOpacity_lanes :
  packOpacity (OpacityState.mk 0 false) = 0%Z
  ∧ packOpacity (OpacityState.mk 1 true) = 4294967295%Z
  ∧ ∀ s, (0 <= OpacityState.opacity s <= 1)%Q →
      let packed := packOpacity s in
      let opacityBits := Math_floor (OpacityState.opacity s * 127) in
      (0 <= opacityBits <= 127)%Z
      ∧ (0 <= packed < 2 ^ 32)%Z
      ∧ ∀ k, (0 <= k <= 3)%Z →
          laneOpacityBits packed k = opacityBits
          ∧ lanePlacedBit packed k = OpacityState.placed s
          ∧ Z.testbit packed (8 * k) = OpacityState.placed s
          ∧ ∀ j, (0 <= j < 7)%Z →
              Z.testbit packed (8 * k + 1 + j) = Z.testbit opacityBits j.
Proof.
  split; [reflexivity|]. split; [reflexivity|].
  intros s Hrange packed opacityBits.
  pose proof (opacityBits_range _ Hrange) as Hbits. fold opacityBits in Hbits.
  pose proof (packOpacity_replicates s Hrange) as Hpacked.
  fold packed opacityBits in Hpacked.
  set (targetBit := (if OpacityState.placed s then 1 else 0)%Z) in Hpacked.
  assert (0 <= targetBit <= 1)%Z as HtargetBit
    by (unfold targetBit; destruct (OpacityState.placed s); lia).
  assert (Z.testbit (2 * opacityBits + targetBit) 0 = OpacityState.placed s) as Hbit0.
  { unfold targetBit. destruct (OpacityState.placed s).
    - apply Z.testbit_odd_0.
    - rewrite Z.add_0_r. apply Z.testbit_even_0. }
  assert (∀ j, (0 <= j)%Z →
            Z.testbit (2 * opacityBits + targetBit) (j + 1) = Z.testbit opacityBits j)
    as Hbits_up.
  { intros j Hj. replace (j + 1)%Z with (Z.succ j) by lia.
    unfold targetBit. destruct (OpacityState.placed s).
    - by apply Z.testbit_odd_succ.
    - rewrite Z.add_0_r. by apply Z.testbit_even_succ. }
  split; [done|]. split; [lia|].
  intros k Hk.
  assert (lane packed k = 2 * opacityBits + targetBit)%Z as Hlane
    by (rewrite Hpacked; apply lane_of_replicated; lia).
  assert (∀ i, (0 <= i < 8)%Z → Z.testbit packed (8 * k + i) = Z.testbit (lane packed k) i)
    as Hlane_bits.
  { intros i Hi. unfold lane. change 255%Z with (Z.ones 8).
    rewrite Z.land_spec, Z.shiftr_spec, Z.ones_spec_low by lia.
    rewrite andb_true_r. f_equal. lia. }
  repeat split.
  - unfold laneOpacityBits. rewrite Hlane, Z.shiftr_div_pow2 by lia.
    change (2 ^ 1)%Z with 2%Z. Z.to_euclidean_division_equations; lia.
  - unfold lanePlacedBit. by rewrite Hlane.
  - replace (8 * k)%Z with (8 * k + 0)%Z by lia. rewrite Hlane_bits, Hlane by lia. done.
  - intros j Hj. replace (8 * k + 1 + j)%Z with (8 * k + (j + 1))%Z by lia.
    rewrite Hlane_bits, Hlane by lia. apply Hbits_up. lia.
Qed.

Lemma packOpacity_lanes_half_placed :
  (0 <= OpacityState.opacity (OpacityState.mk (1 # 2) true) <= 1)%Q
  ∧ laneOpacityBits (packOpacity (OpacityState.mk (1 # 2) true)) 2 = 63%Z
  ∧ lanePlacedBit (packOpacity (OpacityState.mk (1 # 2) true)) 2 = true.
Proof.
  assert (0 <= OpacityState.opacity (OpacityState.mk (1 # 2) true) <= 1)%Q as Hrange
    by (split; discriminate).
  split; [exact Hrange|].
  destruct packOpacity_lanes as (_ & _ & Hlanes).
  destruct (Hlanes _ Hrange) as (_ & _ & Hlane).
  destruct (Hlane 2%Z) as (Hbits & Hplaced & _); [lia|].
  split; [exact Hbits | exact Hplaced].
Defined.

(** ** CollisionGroups *)

Module CollisionGroupsFacts.
Import CollisionGroups.

Lemma consistent_new : consistent (new false).
Proof. split; [done | | | |]; intros *; cbn; by rewrite lookup_empty. Qed.

Lemma property_own cg s g :
  collisionGroups cg !! s = Some g → property s cg = Some g.
Proof. intros Hs. unfold property. by rewrite Hs. Qed.

Lemma property_inherited cg s :
  consistent cg → s ∈ Object_prototype → property s cg = Some inheritedMember.
Proof.
  intros Hcg Hs. unfold property.
  destruct (collisionGroups cg !! s) as [g|] eqn:Hg.
  - by destruct (consistent_own _ Hcg _ _ Hg).
  - by rewrite bool_decide_eq_true_2.
Qed.

Lemma property_fresh cg s :
  s ∉ Object_prototype → collisionGroups cg !! s = None → property s cg = None.
Proof. intros Hs Hg. unfold property. by rewrite Hg, bool_decide_eq_false_2. Qed.

Lemma get_known cg s g :
  crossSourceCollisions cg = false → collisionGroups cg !! s = Some g →
  get s cg = (g, cg).
Proof. intros Hflag Hs. unfold get. by rewrite Hflag, (property_own _ _ _ Hs). Qed.

(** A name of [Object.prototype] is answered with the inherited member,
    and the registry stays as it is. *)
Lemma get_inherited cg s :
  consistent cg → s ∈ Object_prototype → get s cg = (inheritedMember, cg).
Proof.
  intros Hcg Hs. unfold get.
  by rewrite (consistent_flag _ Hcg), (property_inherited _ _ Hcg Hs).
Qed.

Lemma get_stores cg s :
  crossSourceCollisions cg = false → s ∉ Object_prototype →
  collisionGroups (get s cg).2 !! s = Some (get s cg).1.
Proof.
  intros Hflag Hs. unfold get. rewrite Hflag; cbn.
  destruct (collisionGroups cg !! s) as [g|] eqn:Hg.
  - by rewrite (property_own _ _ _ Hg).
  - rewrite (property_fresh _ _ Hs Hg). cbn. by rewrite lookup_insert_eq.
Qed.

Lemma consistent_get cg s : consistent cg → consistent (get s cg).2.
Proof.
  intros Hcg. destruct (decide (s ∈ Object_prototype)) as [Hs|Hs].
  { by rewrite (get_inherited _ _ Hcg Hs). }
  destruct Hcg as [Hflag Hown Hrange Hpred Hdistinct]. unfold get. rewrite Hflag; cbn.
  destruct (collisionGroups cg !! s) as [g|] eqn:Hg.
  { rewrite (property_own _ _ _ Hg). by split. }
  rewrite (property_fresh _ _ Hs Hg).
  split; cbn; [done| | | |].
  - intros s' g. rewrite lookup_insert. case_decide as Heq.
    + by intros _; subst s'.
    + apply Hown.
  - intros s' g. rewrite lookup_insert. case_decide as Heq.
    + intros [= <-]; cbn. eexists. split; [done|]. lia.
    + intros Hg'. destruct (Hrange _ _ Hg') as (n & Hn & Hle).
      exists n. split; [done|]. lia.
  - intros s' g. rewrite lookup_insert. case_decide as Heq.
    + intros [= <-]. by eexists.
    + apply Hpred.
  - intros s1 s2 g1 g2. rewrite !lookup_insert.
    repeat case_decide; subst; try done.
    + intros [= <-] Hg2; cbn. destruct (Hrange _ _ Hg2) as (n & -> & Hle).
      intros [= Hn]. lia.
    + intros Hg1 [= <-]; cbn. destruct (Hrange _ _ Hg1) as (n & -> & Hle).
      intros [= Hn]. lia.
    + apply Hdistinct.
Qed.

Lemma consistent_gets history cg : consistent cg → consistent (gets history cg).
Proof.
  revert cg. induction history as [|s history IH]; intros cg Hcg; [done|].
  apply IH. by apply consistent_get.
Qed.

Lemma get_keeps cg s s' g :
  collisionGroups cg !! s = Some g → consistent cg →
  collisionGroups (get s' cg).2 !! s = Some g.
Proof.
  intros Hs Hcg. destruct (decide (s' ∈ Object_prototype)) as [Hs'|Hs'].
  { by rewrite (get_inherited _ _ Hcg Hs'). }
  unfold get. rewrite (consistent_flag _ Hcg); cbn.
  destruct (collisionGroups cg !! s') as [g'|] eqn:Hg'.
  - by rewrite (property_own _ _ _ Hg').
  - rewrite (property_fresh _ _ Hs' Hg'). cbn.
    rewrite lookup_insert_ne; [done | congruence].
Qed.

Lemma gets_keeps later cg s g :
  consistent cg → collisionGroups cg !! s = Some g →
  collisionGroups (gets later cg) !! s = Some g.
Proof.
  revert cg. induction later as [|s' later IH]; intros cg Hcg Hs; [done|].
  apply IH; [by apply consistent_get|]. by apply get_keeps.
Qed.

(** In a consistent registry every answer of [get] that has an [ID] at all
    has the [ID] of the group stored for the sourceID. *)
Lemma get_ID cg s n :
  consistent cg → ID (get s cg).1 = Some n →
  (s ∉ Object_prototype) ∧ collisionGroups (get s cg).2 !! s = Some (get s cg).1.
Proof.
  intros Hcg Hn. destruct (decide (s ∈ Object_prototype)) as [Hs|Hs].
  - by rewrite (get_inherited _ _ Hcg Hs) in Hn.
  - split; [done|]. apply get_stores; [apply Hcg | done].
Qed.

End CollisionGroupsFacts.

(** C7.  With crossSourceCollisions set, get answers group id 0 without a
    predicate for every sourceID (and changes nothing).  Without it, in a
    registry reached from the constructor by any sequence of get calls:
    for a sourceID that is not the name of a member of Object.prototype,
    get answers a nonzero id and a predicate that accepts exactly the keys
    whose collisionGroupID is that id; whatever get calls follow, the same
    sourceID is answered with the same group, and no other sourceID with
    the same id.  For a sourceID that is the name of a member of
    Object.prototype, as "constructor" is, the test
    [!this.collisionGroups[sourceID]] finds the inherited member: no id is
    assigned, the registry is left as it is, and what get answers has
    neither an ID nor a predicate. *)
Theorem collision_group_ids :
  (∀ cg sourceID, CollisionGroups.crossSourceCollisions cg = true →
     CollisionGroups.get sourceID cg = ({| ID := Some 0%N; predicate := None |}, cg))
  ∧ (∀ history sourceID,
       sourceID ∉ Object_prototype →
       let cg := CollisionGroups.gets history (CollisionGroups.new false) in
       let group := (CollisionGroups.get sourceID cg).1 in
       (∃ n accepts,
          ID group = Some n ∧ n ≠ 0%N
          ∧ predicate group = Some accepts
          ∧ ∀ key, accepts key = true ↔ collisionGroupID key = n)
       ∧ ∀ later,
           let cg' := CollisionGroups.gets later (CollisionGroups.get sourceID cg).2 in
           (CollisionGroups.get sourceID cg').1 = group
           ∧ ∀ other, other ≠ sourceID →
               ID (CollisionGroups.get other cg').1 ≠ ID group)
  ∧ (∀ history sourceID,
       sourceID ∈ Object_prototype →
       let cg := CollisionGroups.gets history (CollisionGroups.new false) in
       CollisionGroups.get sourceID cg = ({| ID := None; predicate := None |}, cg))
  ∧ CollisionGroups.get "constructor" (CollisionGroups.new false)
    = ({| ID := None; predicate := None |}, CollisionGroups.new false).
Proof.
  split; [|split; [|split]].
  - intros cg sourceID Hflag. unfold CollisionGroups.get. by rewrite Hflag.
  - intros history sourceID Hname cg group.
    assert (CollisionGroups.consistent cg) as Hcg
      by apply CollisionGroupsFacts.consistent_gets, CollisionGroupsFacts.consistent_new.
    pose proof (CollisionGroupsFacts.consistent_get cg sourceID Hcg) as Hcg1.
    pose proof (CollisionGroupsFacts.get_stores cg sourceID
                  (CollisionGroups.consistent_flag _ Hcg) Hname) as Hstored.
    fold group in Hstored.
    destruct (CollisionGroups.consistent_range _ Hcg1 _ _ Hstored) as (n & Hn & Hrange).
    destruct (CollisionGroups.consistent_predicate _ Hcg1 _ _ Hstored)
      as (n' & Hn' & Hpredicate).
    assert (n' = n) as -> by congruence.
    split.
    + exists n. eexists. split; [done|]. split; [lia|]. split; [exact Hpredicate|].
      intros key; cbn. apply N.eqb_eq.
    + intros later cg'.
      assert (CollisionGroups.consistent cg') as Hcg'
        by (by apply CollisionGroupsFacts.consistent_gets).
      pose proof (CollisionGroupsFacts.gets_keeps later _ _ _ Hcg1 Hstored) as Hkept.
      fold cg' in Hkept.
      split.
      * by rewrite (CollisionGroupsFacts.get_known cg' sourceID group
                      (CollisionGroups.consistent_flag _ Hcg') Hkept).
      * intros other Hother Heq. rewrite Hn in Heq.
        destruct (CollisionGroupsFacts.get_ID cg' other n Hcg' Heq) as [_ Hother_stored].
        pose proof (CollisionGroupsFacts.consistent_get cg' other Hcg') as Hcg''.
        pose proof (CollisionGroupsFacts.get_keeps cg' sourceID other group Hkept Hcg')
          as Hkept'.
        apply Hother.
        refine (CollisionGroups.consistent_distinct _ Hcg'' _ _ _ _
                  Hother_stored Hkept' _).
        by rewrite Heq, Hn.
  - intros history sourceID Hname cg.
    apply CollisionGroupsFacts.get_inherited; [|done].
    apply CollisionGroupsFacts.consistent_gets, CollisionGroupsFacts.consistent_new.
  - reflexivity.
Qed.

Lemma collision_group_ids_example :
  CollisionGroups.crossSourceCollisions (CollisionGroups.new true) = true
  ∧ CollisionGroups.get "composite" (CollisionGroups.new true)
    = ({| ID := Some 0%N; predicate := None |}, CollisionGroups.new true)
  ∧ ("terrain" ∉ Object_prototype)
  ∧ ID (CollisionGroups.get "terrain"
          (CollisionGroups.gets ["streets"] (CollisionGroups.new false))).1 = Some 2%N
  ∧ (CollisionGroups.get "terrain"
       (CollisionGroups.gets ["constructor"; "streets"]
          (CollisionGroups.get "terrain"
             (CollisionGroups.gets ["streets"] (CollisionGroups.new false))).2)).1
    = (CollisionGroups.get "terrain"
         (CollisionGroups.gets ["streets"] (CollisionGroups.new false))).1
  ∧ "constructor" ∈ Object_prototype
  ∧ CollisionGroups.get "constructor"
      (CollisionGroups.gets ["streets"] (CollisionGroups.new false))
    = ({| ID := None; predicate := None |},
       CollisionGroups.gets ["streets"] (CollisionGroups.new false)).
Proof.
  destruct collision_group_ids as (Hshared & Hown & Hinherited & _).
  assert ("terrain" ∉ Object_prototype) as Hterrain
    by (apply (bool_decide_eq_false_1 ("terrain" ∈ Object_prototype));
        vm_compute; reflexivity).
  assert ("constructor" ∈ Object_prototype) as Hconstructor
    by (apply (bool_decide_eq_true_1 ("constructor" ∈ Object_prototype));
        vm_compute; reflexivity).
  split; [reflexivity|]. split; [by apply Hshared|]. split; [exact Hterrain|].
  split; [reflexivity|].
  split; [exact (proj1 (proj2 (Hown ["streets"] "terrain" Hterrain)
                          ["constructor"; "streets"]))|].
  split; [exact Hconstructor|].
  exact (Hinherited ["streets"] "constructor" Hconstructor).
Defined.

(** ** Reasoning about computations in [M] *)

Lemma bind_returns {St A B} (m : M St A) (f : A → M St B) s b s' :
  (m ≫= f) s = (Return b, s') →
  ∃ a s1, m s = (Return a, s1) ∧ f a s1 = (Return b, s').
Proof.
  unfold mbind, M_bind. destruct (m s) as [[a|e] s1]; [eauto | discriminate].
Qed.

Lemma forEach_modify {St A} (l : list A) (f : A → St → St) (s : St) :
  forEach l (λ a, modify (f a)) s = (Return (), foldl (λ s a, f a s) s l).
Proof.
  revert s. induction l as [|a l IH]; intros s; [done|].
  cbn [forEach foldl]. unfold mbind, M_bind, modify at 1. apply IH.
Qed.

Section preserves.
Context {St : Type} (R : relation St) `{!PreOrder R}.

Lemma preserves_ret {A} (a : A) : preserves R (mret a).
Proof. intros s. reflexivity. Qed.

Lemma preserves_throw {A} e : preserves R (throw e : M St A).
Proof. intros s. reflexivity. Qed.

Lemma preserves_read {A} (f : St → A) : preserves R (read f).
Proof. intros s. reflexivity. Qed.

Lemma preserves_assert b : preserves R (assert b).
Proof. destruct b; [apply preserves_ret | apply preserves_throw]. Qed.

Lemma preserves_defined {A} (v : option A) : preserves R (defined v).
Proof. destruct v; [apply preserves_ret | apply preserves_throw]. Qed.

Lemma preserves_modify (f : St → St) : (∀ s, R s (f s)) → preserves R (modify f).
Proof. intros Hf s. apply Hf. Qed.

Lemma preserves_bind {A B} (m : M St A) (f : A → M St B) :
  preserves R m → (∀ a, preserves R (f a)) → preserves R (m ≫= f).
Proof.
  intros Hm Hf s. unfold mbind, M_bind. specialize (Hm s).
  destruct (m s) as [[a|e] s1]; [|done].
  etransitivity; [exact Hm | apply Hf].
Qed.

Lemma preserves_forEach {A} (l : list A) (body : A → M St unit) :
  (∀ a, preserves R (body a)) → preserves R (forEach l body).
Proof.
  intros Hbody. induction l as [|a l IH]; [apply preserves_ret|].
  apply preserves_bind; [apply Hbody | intros _; apply IH].
Qed.

Lemma preserves_forRange from count (body : nat → M St unit) :
  (∀ i, preserves R (body i)) → preserves R (forRange from count body).
Proof.
  intros Hbody. revert from. induction count as [|count IH]; intros from;
    [apply preserves_ret|].
  apply preserves_bind; [apply Hbody | intros _; apply IH].
Qed.

End preserves.

Lemma ensures_bind {St A B} (m : M St A) (f : A → M St B) Q :
  (∀ a, ensures (f a) Q) → ensures (m ≫= f) Q.
Proof.
  intros Hf s b s' Hrun. apply bind_returns in Hrun as (a & s1 & _ & Hrun).
  by eapply Hf.
Qed.

Lemma ensures_modify {St} (f : St → St) (Q : St → Prop) :
  (∀ s, Q (f s)) → ensures (modify f) Q.
Proof. intros Hf s a s' [= _ <-]. apply Hf. Qed.

(** One step of a proof that a computation preserves a relation, chosen by
    the shape of the computation. *)
Ltac preserving_step :=
  lazymatch goal with
  | |- preserves _ (mret _) => apply preserves_ret; typeclasses eauto
  | |- preserves _ (throw _) => apply preserves_throw; typeclasses eauto
  | |- preserves _ (read _) => apply preserves_read; typeclasses eauto
  | |- preserves _ (assert _) => apply preserves_assert; typeclasses eauto
  | |- preserves _ (defined _) => apply preserves_defined; typeclasses eauto
  | |- preserves _ (modify _) => apply preserves_modify; intros ?
  | |- preserves _ (mbind _ _) =>
      apply preserves_bind; [typeclasses eauto | | intros ?]
  | |- preserves _ (forEach _ _) =>
      apply preserves_forEach; [typeclasses eauto | intros ?]
  | |- preserves _ (if ?b then _ else _) => destruct b
  | |- preserves _ (match ?x with _ => _ end) => destruct x
  end.

Ltac preserving := repeat preserving_step.

(** The same for [ensures]: only the last step of a sequence counts. *)
Ltac ensuring :=
  repeat lazymatch goal with
    | |- ensures (modify _) _ => apply ensures_modify; intros ?
    | |- ensures (mbind _ _) _ => apply ensures_bind; intros ?
    | |- ensures (if ?b then _ else _) _ => destruct b
    | |- ensures (match ?x with _ => _ end) _ => destruct x
    end.

(** ** Placement *)

Section PlacementFacts.

Context `{Collaborators}.

(** *** The bucket keeps its symbol instances *)

#[local] Instance sameSymbols_preorder : PreOrder sameSymbols.
Proof. split; [done | intros c1 c2 c3; unfold sameSymbols; congruence]. Qed.

Lemma warnOnce_sameSymbols message : preserves sameSymbols (warnOnce message).
Proof. intros c. unfold warnOnce, modify; cbn. by case_bool_decide. Qed.

Lemma hideUnplacedJustifications_sameSymbols j si :
  preserves sameSymbols (hideUnplacedJustifications j si).
Proof. unfold hideUnplacedJustifications. preserving; done. Qed.

Lemma attemptAnchorPlacement_sameSymbols anchor' da ca tb dto tbs rot pit tpr pm cg js tao si :
  preserves sameSymbols
    (attemptAnchorPlacement anchor' da ca tb dto tbs rot pit tpr pm cg js tao si).
Proof.
  unfold attemptAnchorPlacement.
  preserving; try done;
    first [apply warnOnce_sameSymbols | apply hideUnplacedJustifications_sameSymbols].
Qed.

Lemma attemptAnchors_sameSymbols anchors da ca tb dto tbs rot pit tpr pm cg js tao si :
  preserves sameSymbols
    (attemptAnchors anchors da ca tb dto tbs rot pit tpr pm cg js tao si).
Proof.
  induction anchors as [|anchor' rest IH]; cbn [attemptAnchors]; [preserving|].
  apply preserves_bind; [typeclasses eauto | apply attemptAnchorPlacement_sameSymbols |].
  intros [boxes|]; [preserving | apply IH].
Qed.

Lemma anchorsToAttempt_sameSymbols da id : preserves sameSymbols (anchorsToAttempt da id).
Proof. unfold anchorsToAttempt. preserving; done. Qed.

Lemma keepPreviousOffset_sameSymbols si : preserves sameSymbols (keepPreviousOffset si).
Proof.
  unfold keepPreviousOffset. preserving; try done.
  all: apply hideUnplacedJustifications_sameSymbols.
Qed.

Lemma placeTextBox_sameSymbols a l si ca js :
  preserves sameSymbols (placeTextBox a l si ca js).
Proof.
  unfold placeTextBox, elements_of. preserving; try done;
    first [ apply anchorsToAttempt_sameSymbols
          | apply attemptAnchors_sameSymbols
          | apply keepPreviousOffset_sameSymbols ].
Qed.

Lemma resolveSymbolInstance_sameSymbols a l i si :
  preserves sameSymbols (resolveSymbolInstance a l i si).
Proof.
  unfold resolveSymbolInstance. preserving; try done.
  all: apply placeTextBox_sameSymbols.
Qed.

Lemma placeLayerBucketLocals_sameSymbols a :
  preserves sameSymbols (placeLayerBucketLocals a).
Proof.
  unfold placeLayerBucketLocals. preserving; try done.
  intros c. by destruct (CollisionGroups.get _ _).
Qed.

(** When the resolution of a symbol instance returns, its crossTileID has a
    placement. *)
Lemma resolveSymbolInstance_places a l i si :
  ensures (resolveSymbolInstance a l i si)
    (λ c, is_Some (placements (this c) !! SymbolInstance.crossTileID si)).
Proof.
  unfold resolveSymbolInstance. ensuring.
  all: cbn; rewrite lookup_insert_eq; eauto.
Qed.

(** *** The sweep: what is marked seen stays marked *)

#[local] Instance sweepOrder_preorder : PreOrder sweepOrder.
Proof.
  split.
  - intros w. split; [reflexivity | done].
  - intros w1 w2 w3 [Hs12 Hk12] [Hs23 Hk23]. split; [by etransitivity | auto].
Qed.

Lemma liftCore_sweepOrder {A} (m : M Core A) :
  preserves sameSymbols m → preserves sweepOrder (liftCore m).
Proof.
  intros Hm w. unfold liftCore. specialize (Hm (core w)).
  destruct (m (core w)) as [r c]. split; [exact Hm | done].
Qed.

Lemma placeSymbolInstance_sweepOrder a l i :
  preserves sweepOrder (placeSymbolInstance a l i).
Proof.
  unfold placeSymbolInstance. preserving.
  - apply liftCore_sweepOrder. preserving. done.
  - apply liftCore_sweepOrder, resolveSymbolInstance_sameSymbols.
  - split; [done|]. intros k Hk; cbn.
    rewrite lookup_insert. case_decide; [done | exact Hk].
Qed.

Lemma forRange_sweepOrder a l from count :
  preserves sweepOrder (forRange from count (placeSymbolInstance a l)).
Proof.
  apply preserves_forRange; [typeclasses eauto|]. apply placeSymbolInstance_sweepOrder.
Qed.

Lemma truthy_Some_true (o : option bool) : truthy o = true ↔ o = Some true.
Proof. destruct o as [[]|]; cbn; split; congruence. Qed.

(** A turn of the loop for a crossTileID that is marked does nothing. *)
Lemma placeSymbolInstance_seen a l i w symbolInstance :
  symbolInstances (bucket (core w)) !! i = Some symbolInstance →
  seenCrossTileIDs w !! SymbolInstance.crossTileID symbolInstance = Some true →
  placeSymbolInstance a l i w = (Return (), w).
Proof.
  intros Hi Hseen. unfold placeSymbolInstance, mbind, M_bind, read; cbn.
  rewrite Hi; cbn. by rewrite Hseen.
Qed.

(** A turn of the loop for a crossTileID that is not marked, in a tile that
    is not held for fade, is the resolution followed by the marking. *)
Lemma placeSymbolInstance_unseen a l i w symbolInstance :
  symbolInstances (bucket (core w)) !! i = Some symbolInstance →
  holdingForFade a = false →
  seenCrossTileIDs w !! SymbolInstance.crossTileID symbolInstance ≠ Some true →
  placeSymbolInstance a l i w =
    match resolveSymbolInstance a l i symbolInstance (core w) with
    | (Return _, c) =>
        (Return (),
         {| core := c;
            seenCrossTileIDs :=
              <[SymbolInstance.crossTileID symbolInstance := true]> (seenCrossTileIDs w) |})
    | (Throw e, c) => (Throw e, {| core := c; seenCrossTileIDs := seenCrossTileIDs w |})
    end.
Proof.
  intros Hi Hhold Hseen. unfold placeSymbolInstance, mbind, M_bind, read; cbn.
  rewrite Hi; cbn. rewrite <- truthy_Some_true in Hseen.
  apply not_true_is_false in Hseen. rewrite Hseen, Hhold; cbn.
  unfold liftCore. by destruct (resolveSymbolInstance _ _ _ _ _) as [[[]|e] c].
Qed.

Lemma placeSymbolInstance_marks a l i w w' symbolInstance :
  symbolInstances (bucket (core w)) !! i = Some symbolInstance →
  holdingForFade a = false →
  placeSymbolInstance a l i w = (Return (), w') →
  seenCrossTileIDs w' !! SymbolInstance.crossTileID symbolInstance = Some true.
Proof.
  intros Hi Hhold Hrun.
  destruct (decide (seenCrossTileIDs w !! SymbolInstance.crossTileID symbolInstance
                    = Some true)) as [Hseen|Hseen].
  - rewrite (placeSymbolInstance_seen _ _ _ _ _ Hi Hseen) in Hrun. by injection Hrun as <-.
  - rewrite (placeSymbolInstance_unseen _ _ _ _ _ Hi Hhold Hseen) in Hrun.
    destruct (resolveSymbolInstance _ _ _ _ _) as [[[]|e] c]; [|done].
    injection Hrun as <-; cbn. apply lookup_insert_eq.
Qed.

Lemma forRange_marks a l count : ∀ from w w',
  holdingForFade a = false →
  forRange from count (placeSymbolInstance a l) w = (Return (), w') →
  ∀ i symbolInstance, from ≤ i < from + count →
    symbolInstances (bucket (core w)) !! i = Some symbolInstance →
    seenCrossTileIDs w' !! SymbolInstance.crossTileID symbolInstance = Some true.
Proof.
  induction count as [|count IH]; intros from w w' Hhold Hrun i si Hi Hsi; [lia|].
  cbn [forRange] in Hrun. apply bind_returns in Hrun as ([] & w1 & Hturn & Hrest).
  pose proof (placeSymbolInstance_sweepOrder a l from w) as [Hsame Hkeep].
  rewrite Hturn in Hsame, Hkeep; cbn in Hsame, Hkeep.
  pose proof (forRange_sweepOrder a l (S from) count w1) as [_ Hkeep'].
  rewrite Hrest in Hkeep'; cbn in Hkeep'.
  destruct (decide (i = from)) as [->|Hne].
  - apply Hkeep'. by eapply placeSymbolInstance_marks.
  - eapply (IH _ _ _ Hhold Hrest i); [lia|]. unfold sameSymbols in Hsame. by rewrite Hsame.
Qed.

(** When [placeLayerBucket] returns for a tile that is not held for fade,
    the crossTileID of every symbol instance of the bucket is marked. *)
Lemma placeLayerBucket_marks a w w' i symbolInstance :
  holdingForFade a = false →
  placeLayerBucket a w = (Return (), w') →
  symbolInstances (bucket (core w)) !! i = Some symbolInstance →
  seenCrossTileIDs w' !! SymbolInstance.crossTileID symbolInstance = Some true.
Proof.
  intros Hhold Hrun Hi. unfold placeLayerBucket in Hrun.
  apply bind_returns in Hrun as (l & w1 & Hlocals & Hrun).
  apply bind_returns in Hrun as (count & w1' & [= <- <-] & Hrun).
  apply bind_returns in Hrun as ([] & w2 & Hloop & Hrun).
  pose proof (liftCore_sweepOrder _ (placeLayerBucketLocals_sameSymbols a) w) as [Hsame _].
  rewrite Hlocals in Hsame; cbn in Hsame. unfold sameSymbols in Hsame.
  pose proof (liftCore_sweepOrder
    (modify (λ c, set_bucket (set_justReloaded false (bucket c)) c))
    ltac:(preserving; done) w2) as [_ Hkeep].
  rewrite Hrun in Hkeep; cbn in Hkeep.
  apply Hkeep. eapply (forRange_marks _ _ _ _ _ _ Hhold Hloop i).
  - apply lookup_lt_Some in Hi. rewrite Hsame. lia.
  - by rewrite Hsame.
Qed.

(** *** The anchor search *)




Section attempts.

Variables (dynamicAnchors : ref) (collisionArrays' : CollisionArrays)
  (textBox' : SingleCollisionBox) (dynamicTextOffset textBoxScale' : Q)
  (rotateWithMap' pitchWithMap' : bool) (textPixelRatio' : Q) (posMatrix' : mat4)
  (collisionGroup' : CollisionGroup) (justifications : Justifications)
  (textAllowOverlap' : bool) (symbolInstance : SymbolInstance.t).

Abbreviation attempt anchor' :=
  (attemptAnchorPlacement anchor' dynamicAnchors collisionArrays' textBox'
     dynamicTextOffset textBoxScale' rotateWithMap' pitchWithMap' textPixelRatio'
     posMatrix' collisionGroup' justifications textAllowOverlap' symbolInstance).

Abbreviation attemptAll anchors :=
  (attemptAnchors anchors dynamicAnchors collisionArrays' textBox'
     dynamicTextOffset textBoxScale' rotateWithMap' pitchWithMap' textPixelRatio'
     posMatrix' collisionGroup' justifications textAllowOverlap' symbolInstance).

Abbreviation headFirst first rest c :=
  (attemptedFirst first rest dynamicAnchors collisionArrays' textBox'
     dynamicTextOffset textBoxScale' rotateWithMap' pitchWithMap' textPixelRatio'
     posMatrix' collisionGroup' justifications textAllowOverlap' symbolInstance c).

Lemma attemptAnchors_head first rest c : headFirst first rest c.
Proof.
  unfold attemptedFirst. cbn [attemptAnchors]. unfold mbind at 1, M_bind.
  by destruct (attempt first c) as [[[boxes|]|e] c1].
Qed.

(** C9. An attempt at the anchor "auto" returns no boxes; the state it
    leaves is the state it found with the warning passed to warnOnce:
    the placement (collision index, placements, dynamic offsets), the
    bucket and the anchor arrays are untouched, and the console gains
    the message unless the message was warned about before; a second
    such attempt changes nothing.  The outcome is the same whatever
    collision index and other collaborators are plugged in: none of them
    is consulted.  The loop over the anchors then goes on with the
    remaining candidates. *)
Theorem auto_anchor_is_skipped (c : Core) (rest : list string) :
  let c' := (warnOnce autoWarning c).2 in
  attempt "auto" c = (Return None, c')
  ∧ (∀ others : Collaborators,
       @attemptAnchorPlacement _ others "auto" dynamicAnchors collisionArrays' textBox'
         dynamicTextOffset textBoxScale' rotateWithMap' pitchWithMap' textPixelRatio'
         posMatrix' collisionGroup' justifications textAllowOverlap' symbolInstance c
       = (Return None, c'))
  ∧ this c' = this c ∧ bucket c' = bucket c ∧ arrays c' = arrays c
  ∧ console c' =
      (if bool_decide (autoWarning ∈ warnOnceHistory c) then console c
       else console c ++ [autoWarning])
  ∧ autoWarning ∈ warnOnceHistory c'
  ∧ (attempt "auto" c').2 = c'
  ∧ attemptAll ("auto" :: rest) c = attemptAll rest c'.
Proof.
  intros c'.
  assert (∀ others : Collaborators,
            @attemptAnchorPlacement _ others "auto" dynamicAnchors collisionArrays'
              textBox' dynamicTextOffset textBoxScale' rotateWithMap' pitchWithMap'
              textPixelRatio' posMatrix' collisionGroup' justifications
              textAllowOverlap' symbolInstance c
            = (Return None, c')) as Hattempt.
  { intros others. unfold attemptAnchorPlacement, mbind at 1, M_bind, read.
    change (str_eq "auto" "center") with false.
    change (str_eq "auto" "auto") with true.
    rewrite andb_false_r. reflexivity. }
  assert (autoWarning ∈ warnOnceHistory c') as Hhistory.
  { unfold c', warnOnce, modify; cbn. case_bool_decide; [done|]. cbn. set_solver. }
  split; [apply Hattempt|]. split; [exact Hattempt|].
  repeat split.
  - unfold c', warnOnce, modify; cbn. by case_bool_decide.
  - unfold c', warnOnce, modify; cbn. by case_bool_decide.
  - unfold c', warnOnce, modify; cbn. by case_bool_decide.
  - unfold c', warnOnce, modify; cbn. by case_bool_decide.
  - exact Hhistory.
  - unfold attemptAnchorPlacement, mbind at 1, M_bind, read.
    change (str_eq "auto" "center") with false.
    change (str_eq "auto" "auto") with true.
    rewrite andb_false_r. cbn. unfold warnOnce, mbind, M_bind, modify. cbn.
    by rewrite bool_decide_eq_true_2.
  - cbn [attemptAnchors]. unfold mbind at 1, M_bind. by rewrite Hattempt.
Qed.

End attempts.


(** *** Text and icon together *)

(** C4, as the code has it.  For a symbol instance without glyph vertices
    and with icon vertices, text-optional being false, the combination
    leaves the icon's boolean as the icon placement set it, so the icon's
    success alone decides it; the text's boolean is the conjunction of the
    two when icon-optional is false and is left as it was when icon-optional
    is true. *)
Theorem icon_only_label_combination iconOptional' symbolInstance placeText placeIcon :
  SymbolInstance.numHorizontalGlyphVertices symbolInstance = 0%N →
  SymbolInstance.numVerticalGlyphVertices symbolInstance = 0%N →
  (0 < SymbolInstance.numIconVertices symbolInstance)%N →
  combineTextAndIcon false iconOptional' symbolInstance placeText placeIcon
  = (if iconOptional' then placeText else placeIcon && placeText, placeIcon).
Proof.
  intros Hhorizontal Hvertical Hicon. unfold combineTextAndIcon.
  rewrite Hhorizontal, Hvertical.
  assert ((SymbolInstance.numIconVertices symbolInstance =? 0)%N = false) as ->
    by (apply N.eqb_neq; lia).
  by destruct iconOptional'.
Qed.

(** *** commit *)

(** A loop over the entries of an object whose turn for key [k] rewrites
    entry [k] of [opacities] by [g k v] and leaves the other entries. *)
Lemma opacities_foldl {V} (turn : N → V → CommitFrame → CommitFrame)
    (g : N → V → option JointOpacityState.t → option JointOpacityState.t)
    (l : list (N * V)) :
  (∀ k v f k', opacities (self (turn k v f)) !! k' =
     if decide (k = k') then g k v (opacities (self f) !! k)
     else opacities (self f) !! k') →
  NoDup l.*1 →
  ∀ f k,
    opacities (self (foldl (λ f entry, turn entry.1 entry.2 f) f l)) !! k =
      match (list_to_map l : gmap N V) !! k with
      | Some v => g k v (opacities (self f) !! k)
      | None => opacities (self f) !! k
      end.
Proof.
  intros Hturn. induction l as [|[k0 v0] l IH]; intros Hnodup f k; [done|].
  apply NoDup_cons in Hnodup as [Hfresh Hnodup]. cbn [foldl fst snd].
  rewrite (IH Hnodup), list_to_map_cons, lookup_insert, Hturn.
  destruct (decide (k0 = k)) as [->|Hne].
  - rewrite (not_elem_of_list_to_map_1 _ _ Hfresh). done.
  - done.
Qed.

Lemma placedTurn_opacities prevOpacities increment k jp f k' :
  opacities (self (placedTurn prevOpacities increment k jp f)) !! k' =
    if decide (k = k') then Some (placedOpacity prevOpacities increment k jp)
    else opacities (self f) !! k'.
Proof.
  unfold placedTurn, commitPlaced, modify, placedOpacity; cbn.
  destruct (prevOpacities !! k); cbn; rewrite lookup_insert; by case_decide.
Qed.

Lemma fadingTurn_opacities increment k po f k' :
  opacities (self (fadingTurn increment k po f)) !! k' =
    if decide (k = k') then
      match opacities (self f) !! k with
      | Some o => Some o
      | None => fadingOpacity increment po
      end
    else opacities (self f) !! k'.
Proof.
  unfold fadingTurn, commitFading, modify, fadingOpacity; cbn.
  destruct (opacities (self f) !! k) eqn:Hk; cbn.
  - case_decide; congruence.
  - destruct (JointOpacityState.isHidden _); cbn.
    + case_decide; congruence.
    + rewrite lookup_insert. by case_decide.
Qed.

Lemma offsetsTurn_opacities k po f :
  opacities (self (offsetsTurn k po f)) = opacities (self f).
Proof.
  unfold offsetsTurn, commitOffsets, modify; cbn.
  destruct (dynamicOffsets (self f) !! k), (opacities (self f) !! k); try done.
  by destruct (negb _).
Qed.

Lemma offsets_foldl_opacities (l : list (N * DynamicOffset)) f :
  opacities (self (foldl (λ f entry, offsetsTurn entry.1 entry.2 f) f l))
  = opacities (self f).
Proof.
  revert f. induction l as [|[k v] l IH]; intros f; [done|].
  cbn [foldl]. rewrite IH. apply offsetsTurn_opacities.
Qed.

Lemma forEach_commitPlaced prevOpacities increment (l : list (N * JointPlacement.t)) f :
  forEach l (λ entry, commitPlaced prevOpacities increment entry.1 entry.2) f
  = (Return (),
     foldl (λ f entry, placedTurn prevOpacities increment entry.1 entry.2 f) f l).
Proof. apply (forEach_modify l). Qed.

Lemma forEach_commitFading increment (l : list (N * JointOpacityState.t)) f :
  forEach l (λ entry, commitFading increment entry.1 entry.2) f
  = (Return (), foldl (λ f entry, fadingTurn increment entry.1 entry.2 f) f l).
Proof. apply (forEach_modify l). Qed.

Lemma forEach_commitOffsets (l : list (N * DynamicOffset)) f :
  forEach l (λ entry, commitOffsets entry.1 entry.2) f
  = (Return (), foldl (λ f entry, offsetsTurn entry.1 entry.2 f) f l).
Proof. apply (forEach_modify l). Qed.

(** Whether the assertion of [commit] holds or throws, the opacities are
    those the loops left. *)
Lemma commit_opacities_afterLoops prevPlacement' now p :
  opacities (commit prevPlacement' now p).2
  = opacities (self (afterLoops prevPlacement' now p)).
Proof.
  unfold commit, commitFrame, forIn.
  unfold mbind at 1 2 3 4 5 6 7, M_bind, read, modify at 1. cbn [self placementChanged].
  rewrite forEach_commitPlaced, forEach_commitFading, forEach_commitOffsets.
  fold (afterLoops prevPlacement' now p).
  destruct (assert _ _) as [[[]|e] f] eqn:Hassert.
  - unfold assert in Hassert. destruct (from_option _ _ _); [|done].
    injection Hassert as <-. unfold modify; cbn.
    destruct (placementChanged _); [done|]. by destruct (negb _).
  - unfold assert in Hassert. destruct (from_option _ _ _); [done|].
    by injection Hassert as _ <-.
Qed.

(** The [opacities] that [commit] leaves, entry by entry. *)
Lemma commit_opacities prevPlacement' now p k :
  let increment := fadeIncrement prevPlacement' (set_commitTime now p) in
  opacities (commit prevPlacement' now p).2 !! k =
    match placements p !! k with
    | Some jp =>
        Some (placedOpacity (from_option opacities ∅ prevPlacement') increment k jp)
    | None =>
        match opacities p !! k with
        | Some o => Some o
        | None => from_option opacities ∅ prevPlacement' !! k ≫= fadingOpacity increment
        end
    end.
Proof.
  intros increment. rewrite commit_opacities_afterLoops. unfold afterLoops.
  rewrite offsets_foldl_opacities.
  rewrite (opacities_foldl (fadingTurn _) (λ _ po o,
             match o with Some o' => Some o' | None => fadingOpacity increment po end));
    [|apply fadingTurn_opacities | apply NoDup_fst_map_to_list].
  rewrite list_to_map_to_list.
  rewrite !(opacities_foldl (placedTurn _ _) (λ k jp _,
             Some (placedOpacity (from_option opacities ∅ prevPlacement') increment k jp)));
    [|apply placedTurn_opacities | apply NoDup_fst_map_to_list].
  rewrite list_to_map_to_list. cbn [self].
  destruct (placements p !! k) as [jp|] eqn:Hjp.
  - by destruct (from_option opacities ∅ prevPlacement' !! k).
  - change (opacities (set_commitTime now p)) with (opacities p).
    destruct (from_option opacities ∅ prevPlacement' !! k) as [po|] eqn:Hpo;
      by destruct (opacities p !! k).
Qed.

#[local] Instance sameDecisions_preorder : PreOrder sameDecisions.
Proof.
  split; [done|]. intros f1 f2 f3 [Hp12 Hd12] [Hp23 Hd23].
  split; congruence.
Qed.

Lemma commitFrame_sameDecisions prevPlacement' now :
  preserves sameDecisions (commitFrame prevPlacement' now).
Proof.
  unfold commitFrame, forIn, commitPlaced, commitFading, commitOffsets.
  preserving; try done.
  all: repeat case_match; done.
Qed.

Lemma commit_sameDecisions prevPlacement' now p :
  placements (commit prevPlacement' now p).2 = placements p
  ∧ fadeDuration (commit prevPlacement' now p).2 = fadeDuration p.
Proof.
  unfold commit.
  pose proof (commitFrame_sameDecisions prevPlacement' now
                {| self := p; placementChanged := false |}) as Hsame.
  by destruct (commitFrame _ _ _) as [r f].
Qed.

Lemma fadeIncrement_explicit prevPlacement' now p :
  fadeIncrement prevPlacement' (set_commitTime now p) =
    match prevPlacement' with
    | Some prev =>
        if negb (strict_eq (fadeDuration p) 0)
        then ((now - commitTime prev) / fadeDuration p)%Q else 1%Q
    | None => 1%Q
    end.
Proof. reflexivity. Qed.

(** C3. For every placement, every previous placement (or none) and every
    time now: after commit(prevPlacement, now), a second
    commit(prevPlacement, now) leaves the opacities exactly as the first
    left them. *)
Theorem commit_twice_same_opacities prevPlacement' now p :
  opacities (commit prevPlacement' now (commit prevPlacement' now p).2).2
  = opacities (commit prevPlacement' now p).2.
Proof.
  destruct (commit_sameDecisions prevPlacement' now p) as [Hplacements Hduration].
  apply map_eq. intros k.
  rewrite (commit_opacities prevPlacement' now (commit prevPlacement' now p).2).
  rewrite !fadeIncrement_explicit, Hplacements, Hduration.
  rewrite <- fadeIncrement_explicit.
  rewrite (commit_opacities prevPlacement' now p k).
  destruct (placements p !! k); [done|].
  destruct (opacities p !! k); [done|].
  destruct (from_option opacities ∅ prevPlacement' !! k ≫= _) eqn:Hfading; done.
Qed.

(** C5. A crossTileID has opacities in the previous placement and no
    placement in the current one, which has not been committed yet and so
    holds no opacity for it.  commit computes the JointOpacityState that
    follows the previous one with both targets false, with the increment
    it uses for the labels it placed, and the new opacities hold that
    state if it is not hidden and hold nothing for the crossTileID if it
    is. *)
Theorem absent_label_fades_until_hidden prev now p k prevOpacity :
  opacities prev !! k = Some prevOpacity →
  placements p !! k = None →
  opacities p !! k = None →
  let increment :=
    if negb (strict_eq (fadeDuration p) 0)
    then ((now - commitTime prev) / fadeDuration p)%Q else 1%Q in
  let jointOpacity :=
    JointOpacityState.new (Some prevOpacity) increment false false None in
  let after := opacities (commit (Some prev) now p).2 in
  after !! k = (if JointOpacityState.isHidden jointOpacity then None else Some jointOpacity)
  ∧ (is_Some (after !! k) ↔ JointOpacityState.isHidden jointOpacity = false)
  ∧ ∀ k' jointPlacement, placements p !! k' = Some jointPlacement →
      after !! k' =
        Some (JointOpacityState.new (opacities prev !! k') increment
                (JointPlacement.text jointPlacement) (JointPlacement.icon jointPlacement)
                (match opacities prev !! k' with
                 | Some _ => None
                 | None => Some (JointPlacement.skipFade jointPlacement)
                 end)).
Proof.
  intros Hprev Hplaced Hfresh increment jointOpacity after.
  assert (after !! k =
          if JointOpacityState.isHidden jointOpacity then None else Some jointOpacity)
    as Hk.
  { unfold after. rewrite commit_opacities, Hplaced, Hfresh. cbn. by rewrite Hprev. }
  split; [exact Hk|]. split.
  - rewrite Hk. destruct (JointOpacityState.isHidden jointOpacity).
    + split; [by intros [? ?] | done].
    + split; [done | eauto].
  - intros k' jp Hjp. unfold after. rewrite commit_opacities, Hjp. cbn.
    unfold placedOpacity. by destruct (opacities prev !! k').
Qed.

End PlacementFacts.

(** * More properties *)

(** ** Reasoning with [wp] *)

Lemma wp_ret {St A} (a : A) Q E (s : St) : Q a s → wp (mret a) Q E s.
Proof. done. Qed.

Lemma wp_throw {St A} e (Q : A → St → Prop) E s : E e s → wp (throw e) Q E s.
Proof. done. Qed.

Lemma wp_read {St A} (f : St → A) Q E s : Q (f s) s → wp (read f) Q E s.
Proof. done. Qed.

Lemma wp_modify {St} (f : St → St) Q E s : Q () (f s) → wp (modify f) Q E s.
Proof. done. Qed.

Lemma wp_assert {St} b Q E (s : St) :
  (b = true → Q () s) → (b = false → E AssertionError s) → wp (assert b) Q E s.
Proof. destruct b; unfold wp; cbn; auto. Qed.

Lemma wp_defined {St A} (v : option A) Q E (s : St) :
  (∀ a, v = Some a → Q a s) → (v = None → E TypeError s) → wp (defined v) Q E s.
Proof. destruct v; unfold wp; cbn; auto. Qed.

Lemma wp_bind {St A B} (m : M St A) (f : A → M St B) Q E s :
  wp m (λ a s', wp (f a) Q E s') E s → wp (m ≫= f) Q E s.
Proof. unfold wp, mbind, M_bind. by destruct (m s) as [[a|e] s']. Qed.

Lemma wp_mono {St A} (m : M St A) (Q Q' : A → St → Prop) (E E' : exn → St → Prop) s :
  wp m Q' E' s → (∀ a s', Q' a s' → Q a s') → (∀ e s', E' e s' → E e s') →
  wp m Q E s.
Proof. unfold wp. destruct (m s) as [[a|e] s']; auto. Qed.

Lemma wp_and {St A} (m : M St A) (Q1 Q2 : A → St → Prop) (E1 E2 : exn → St → Prop) s :
  wp m Q1 E1 s → wp m Q2 E2 s →
  wp m (λ a s', Q1 a s' ∧ Q2 a s') (λ e s', E1 e s' ∧ E2 e s') s.
Proof. unfold wp. by destruct (m s) as [[a|e] s']. Qed.

(** From [wp] to a statement about the outcome, and back. *)
Lemma wp_outcome {St A} (m : M St A) (P : outcome A * St → Prop) s :
  wp m (λ a s', P (Return a, s')) (λ e s', P (Throw e, s')) s → P (m s).
Proof. unfold wp. by destruct (m s) as [[a|e] s']. Qed.

Lemma wp_returns {St A} (m : M St A) (Q : A → St → Prop) s :
  wp m Q (λ _ _, False) s → ∃ a s', m s = (Return a, s') ∧ Q a s'.
Proof. unfold wp. destruct (m s) as [[a|e] s']; [eauto | done]. Qed.

Lemma wp_returned {St A} (m : M St A) (Q : A → St → Prop) E s a s' :
  wp m Q E s → m s = (Return a, s') → Q a s'.
Proof. unfold wp. intros Hm Hrun. by rewrite Hrun in Hm. Qed.

Lemma preserves_wp {St A} (R : relation St) (m : M St A) s :
  preserves R m → wp m (λ _ s', R s s') (λ _ s', R s s') s.
Proof. intros Hm. specialize (Hm s). unfold wp. by destruct (m s) as [[a|e] s']. Qed.

Lemma wp_preserves {St A} (R : relation St) (m : M St A) :
  (∀ s, wp m (λ _ s', R s s') (λ _ s', R s s') s) → preserves R m.
Proof. intros Hm s. specialize (Hm s). unfold wp in Hm. by destruct (m s) as [[a|e] s']. Qed.

(** A counting loop keeps an invariant that each turn carries from its
    index to the next, and throws with what a turn throws with. *)
Lemma wp_forRange {St} (count : nat) (body : nat → M St unit) (I : nat → St → Prop) E :
  ∀ from s,
  I from s →
  (∀ i s, from ≤ i < from + count → I i s → wp (body i) (λ _, I (S i)) E s) →
  wp (forRange from count body) (λ _, I (from + count)) E s.
Proof.
  induction count as [|count IH]; intros from s Hs Hbody.
  - rewrite Nat.add_0_r. done.
  - cbn [forRange]. apply wp_bind.
    eapply wp_mono; [apply Hbody; [lia | exact Hs] | | done].
    intros [] s' Hs'. replace (from + S count) with (S from + count) by lia.
    apply IH; [done|]. intros i s'' Hi. apply Hbody. lia.
Qed.

(** One step of a proof by [wp], chosen by the shape of the computation. *)
Ltac wp_step :=
  lazymatch goal with
  | |- wp (mret _) _ _ _ => apply wp_ret
  | |- wp (throw _) _ _ _ => apply wp_throw
  | |- wp (read _) _ _ _ => apply wp_read
  | |- wp (modify _) _ _ _ => apply wp_modify
  | |- wp (assert _) _ _ _ => apply wp_assert; intros ?
  | |- wp (defined _) _ _ _ => apply wp_defined; [intros ? ?|intros ?]
  | |- wp (mbind _ _) _ _ _ => apply wp_bind
  | |- wp (if ?b then _ else _) _ _ _ => destruct b eqn:?
  | |- wp (match ?x with _ => _ end) _ _ _ => destruct x eqn:?
  end; lazy beta.

Ltac wp_steps := repeat wp_step.

(** ** Numbers *)

Lemma Qlt_bool_iff a b : Qlt_bool a b = true ↔ (a < b)%Q.
Proof.
  unfold Qlt_bool. rewrite negb_true_iff. split.
  - intros Hle. apply Qnot_le_lt. intros Hle'%Qle_bool_iff. congruence.
  - intros Hlt. destruct (Qle_bool b a) eqn:Hle; [|done].
    apply Qle_bool_iff in Hle. by apply Qlt_not_le in Hlt.
Qed.

Lemma Qfloor_bounds (q : Q) : (inject_Z (Qfloor q) <= q)%Q ∧ (q < inject_Z (Qfloor q + 1))%Q.
Proof. split; [apply Qfloor_le | apply Qlt_floor]. Qed.

Lemma positive_duration_not_zero (d : Q) : (0 < d)%Q → strict_eq d 0 = false.
Proof.
  intros Hd. unfold strict_eq. destruct (Qeq_bool d 0) eqn:Heq; [|done].
  apply Qeq_bool_eq in Heq. rewrite Heq in Hd. by apply Qlt_irrefl in Hd.
Qed.

(** ** OpacityState: the direction of a fade step *)

(** X1. For every previous state with opacity in [0,1] and every increment
    of at least 0, whatever the new target and skipFade: a fade step moves
    the opacity toward the target of the previous state.  If the previous
    state was placed the opacity does not fall, and it is 1 when the
    increment covers what was missing; if it was not placed the opacity
    does not rise, and it is 0 when the increment covers what was left. *)
Theorem OpacityState_fades_toward_previous_target prevState increment placed' skipFade :
  (0 <= increment)%Q →
  (0 <= OpacityState.opacity prevState <= 1)%Q →
  let next := OpacityState.new (Some prevState) increment placed' skipFade in
  if OpacityState.placed prevState then
    (OpacityState.opacity prevState <= OpacityState.opacity next)%Q
    ∧ ((1 <= OpacityState.opacity prevState + increment)%Q →
       (OpacityState.opacity next == 1)%Q)
  else
    (OpacityState.opacity next <= OpacityState.opacity prevState)%Q
    ∧ ((OpacityState.opacity prevState <= increment)%Q →
       (OpacityState.opacity next == 0)%Q).
Proof.
  intros Hincrement [Hlow Hhigh]. cbn.
  destruct (OpacityState.placed prevState); unfold Math_max, Math_min.
  - destruct (Qle_bool 1 _) eqn:Hone.
    + change (Qle_bool 0 1) with true. cbn. split; [done|]. intros _. reflexivity.
    + assert (¬ (1 <= OpacityState.opacity prevState + increment)%Q) as Hless
        by (rewrite <- Qle_bool_iff; congruence).
      destruct (Qle_bool 0 _) eqn:Hzero.
      * split; [lra | by intros Hge].
      * assert (¬ (0 <= OpacityState.opacity prevState + increment)%Q) as Hneg
          by (rewrite <- Qle_bool_iff; congruence).
        exfalso. apply Hneg. lra.
  - destruct (Qle_bool 1 _) eqn:Hone.
    + apply Qle_bool_iff in Hone. change (Qle_bool 0 1) with true. cbn.
      split; [lra|]. intros Hle. exfalso. lra.
    + destruct (Qle_bool 0 _) eqn:Hzero.
      * apply Qle_bool_iff in Hzero. split; [lra|]. intros Hle. lra.
      * split; [done | reflexivity].
Qed.

(** ** CollisionGroups: the ids are dense *)

(** The sourceIDs of a history that can get a group: those that are not
    names of members of [Object.prototype]. *)
Lemma dense_property cg s :
  dense cg → s ∈ Object_prototype →
  CollisionGroups.property s cg = Some inheritedMember.
Proof.
  intros (_ & Hown & _) Hs. unfold CollisionGroups.property.
  destruct (CollisionGroups.collisionGroups cg !! s) as [g|] eqn:Hg.
  - apply elem_of_dom_2 in Hg. by destruct (Hown _ Hg).
  - by rewrite bool_decide_eq_true_2.
Qed.

Lemma dense_get cg s :
  dense cg →
  dense (CollisionGroups.get s cg).2
  ∧ dom (CollisionGroups.collisionGroups (CollisionGroups.get s cg).2)
    = (if bool_decide (s ∈ Object_prototype) then ∅ else {[s]})
      ∪ dom (CollisionGroups.collisionGroups cg).
Proof.
  intros Hcg. pose proof Hcg as (Hflag & Hown & Hcount & Hdense).
  unfold CollisionGroups.get. rewrite Hflag. cbn [negb].
  case_bool_decide as Hname.
  { rewrite (dense_property _ _ Hcg Hname). cbn [snd].
    split; [done|]. by rewrite (left_id_L ∅ (∪)). }
  unfold CollisionGroups.property. rewrite bool_decide_eq_false_2 by done.
  destruct (CollisionGroups.collisionGroups cg !! s) as [g|] eqn:Hs; cbn [snd].
  - split; [done|]. apply elem_of_dom_2 in Hs.
    apply set_eq. intros s'. rewrite elem_of_union, elem_of_singleton.
    split; [by right | by intros [->|?]].
  - apply not_elem_of_dom in Hs. split; [|cbn; by rewrite dom_insert_L].
    split; [done|]. cbn. split; [|split].
    + intros s'. rewrite dom_insert_L, elem_of_union, elem_of_singleton.
      intros [->|Hs']; [done | by apply Hown].
    + rewrite dom_insert_L, size_union, size_singleton, Hcount; [lia|].
      intros s'. rewrite elem_of_singleton. by intros -> ?.
    + intros n Hn.
      destruct (decide (n = CollisionGroups.maxGroupID cg + 1)%N) as [->|Hne].
      * exists s. eexists. by rewrite lookup_insert_eq.
      * destruct (Hdense n) as (s' & g' & Hs' & Hid); [lia|].
        exists s', g'. split; [|done].
        rewrite lookup_insert_ne; [done|]. intros ->.
        apply Hs. by apply elem_of_dom_2 in Hs'.
Qed.

Lemma dense_gets history : ∀ cg,
  dense cg →
  dense (CollisionGroups.gets history cg)
  ∧ dom (CollisionGroups.collisionGroups (CollisionGroups.gets history cg))
    = list_to_set (List.filter (λ s, negb (bool_decide (s ∈ Object_prototype))) history)
      ∪ dom (CollisionGroups.collisionGroups cg).
Proof.
  induction history as [|s history IH]; intros cg Hcg.
  - cbn. split; [done|]. by rewrite (left_id_L ∅ (∪)).
  - destruct (dense_get cg s Hcg) as [Hcg' Hdom'].
    destruct (IH _ Hcg') as [Hdense Hdom].
    change (CollisionGroups.gets (s :: history) cg)
      with (CollisionGroups.gets history (CollisionGroups.get s cg).2).
    split; [done|]. rewrite Hdom, Hdom'. cbn [List.filter].
    case_bool_decide; cbn [negb list_to_set].
    + by rewrite (left_id_L ∅ (∪)).
    + apply set_eq. intros s'. rewrite !elem_of_union. tauto.
Qed.

(** X2. Ids are handed out in order and without gaps.  After any sequence
    of get calls on a registry made with crossSourceCollisions false, the
    registry holds a group for exactly the sourceIDs asked for that are not
    names of members of Object.prototype (a get for such a name leaves the
    registry as it is), maxGroupID is the number of the groups, and every
    id from 1 to maxGroupID is the ID of one of the groups. *)
Theorem collision_group_ids_are_dense history :
  let cg := CollisionGroups.gets history (CollisionGroups.new false) in
  dom (CollisionGroups.collisionGroups cg)
  = list_to_set (List.filter (λ s, negb (bool_decide (s ∈ Object_prototype))) history)
  ∧ CollisionGroups.maxGroupID cg
    = N.of_nat (size (dom (CollisionGroups.collisionGroups cg)))
  ∧ ∀ n, (1 <= n <= CollisionGroups.maxGroupID cg)%N →
      ∃ sourceID group,
        CollisionGroups.collisionGroups cg !! sourceID = Some group
        ∧ ID group = Some n.
Proof.
  intros cg.
  destruct (dense_gets history (CollisionGroups.new false))
    as [(_ & _ & Hcount & Hdense) Hdom].
  - split; [done|]. cbn. split; [|split].
    + intros s. by rewrite dom_empty_L, elem_of_empty.
    + by rewrite dom_empty_L, size_empty.
    + intros n Hn. lia.
  - split; [|done]. fold cg in Hdom. rewrite Hdom. cbn.
    by rewrite dom_empty_L, (right_id_L ∅ (∪)).
Qed.

(** ** packOpacity: what packing loses and keeps *)

(** X3. For every state with opacity in [0,1] and each of the four lanes:
    the opacity read back from the lane of the packed word, as a fraction
    of 127, differs from the opacity that was packed by less than 1/127,
    in either direction.  (The bound is two-sided so that it holds however
    the product opacity * 127 is rounded before the floor is taken: a
    rounding that keeps the order and the whole numbers moves the floor to
    a neighbouring whole number at most.) *)
Theorem packOpacity_round_trip_error s k :
  (0 <= OpacityState.opacity s <= 1)%Q →
  (0 <= k <= 3)%Z →
  let decoded := (inject_Z (laneOpacityBits (packOpacity s) k) / 127)%Q in
  (decoded - 1 / 127 < OpacityState.opacity s)%Q
  ∧ (OpacityState.opacity s < decoded + 1 / 127)%Q.
Proof.
  intros Hrange Hk decoded.
  assert (laneOpacityBits (packOpacity s) k = Math_floor (OpacityState.opacity s * 127))
    as Hbits.
  { pose proof (opacityBits_range _ Hrange) as Hfloor.
    unfold laneOpacityBits. rewrite (packOpacity_replicates s Hrange).
    rewrite lane_of_replicated; [|destruct (OpacityState.placed s); lia | done].
    rewrite Z.shiftr_div_pow2 by lia. change (2 ^ 1)%Z with 2%Z.
    destruct (OpacityState.placed s); Z.to_euclidean_division_equations; lia. }
  unfold decoded. rewrite Hbits. unfold Math_floor.
  destruct (Qfloor_bounds (OpacityState.opacity s * 127)) as [Hlow Hhigh].
  rewrite inject_Z_plus in Hhigh.
  set (bits := inject_Z (Qfloor (OpacityState.opacity s * 127))) in *.
  change (inject_Z 1) with 1%Q in Hhigh.
  split.
  - assert (bits / 127 - 1 / 127 == (bits - 1) / 127)%Q as -> by field.
    apply Qlt_shift_div_r; [reflexivity | lra].
  - assert (bits / 127 + 1 / 127 == (bits + 1) / 127)%Q as -> by field.
    apply Qlt_shift_div_l; [reflexivity | done].
Qed.

(** X4. For opacities in [0,1], packing keeps the order and its extreme
    values mean what the two shortcuts say: a state that is at least as
    opaque as another with the same target never packs to a smaller word;
    a hidden state (opacity 0, not placed) packs to 0, and a state that
    packs to 0 is not placed and has an opacity below 1/127; and the word
    is 4294967295 exactly for a placed state of opacity 1. *)
Theorem packOpacity_order s1 s2 :
  (0 <= OpacityState.opacity s1 <= 1)%Q →
  (0 <= OpacityState.opacity s2 <= 1)%Q →
  ((OpacityState.opacity s1 <= OpacityState.opacity s2)%Q →
   OpacityState.placed s1 = OpacityState.placed s2 →
   (packOpacity s1 <= packOpacity s2)%Z)
  ∧ (OpacityState.isHidden s1 = true → packOpacity s1 = 0%Z)
  ∧ (packOpacity s1 = 0%Z →
     OpacityState.placed s1 = false ∧ (OpacityState.opacity s1 < 1 / 127)%Q)
  ∧ (packOpacity s1 = 4294967295%Z
     ↔ OpacityState.placed s1 = true ∧ (OpacityState.opacity s1 == 1)%Q).
Proof.
  intros Hrange1 Hrange2.
  pose proof (opacityBits_range _ Hrange1) as Hbits1.
  pose proof (opacityBits_range _ Hrange2) as Hbits2.
  split; [|split; [|split]].
  - rewrite (packOpacity_replicates s1 Hrange1), (packOpacity_replicates s2 Hrange2).
    unfold Math_floor in *. intros Hle ->.
    assert (Qfloor (OpacityState.opacity s1 * 127)
            <= Qfloor (OpacityState.opacity s2 * 127))%Z.
    { apply Qfloor_resp_le. apply Qmult_le_compat_r; [done | discriminate]. }
    destruct (OpacityState.placed s2); lia.
  - unfold OpacityState.isHidden, packOpacity. by intros ->.
  - rewrite (packOpacity_replicates s1 Hrange1).
    destruct (Qfloor_bounds (OpacityState.opacity s1 * 127)) as [Hlow Hhigh].
    rewrite inject_Z_plus in Hhigh. change (inject_Z 1) with 1%Q in Hhigh.
    unfold Math_floor in *.
    intros Hzero.
    assert (OpacityState.placed s1 = false
            ∧ Qfloor (OpacityState.opacity s1 * 127) = 0%Z) as [Hplaced Hfloor]
      by (destruct (OpacityState.placed s1); split; try done; lia).
    split; [done|]. rewrite Hfloor in Hhigh.
    apply Qlt_shift_div_l; [reflexivity|]. by rewrite Qplus_0_l in Hhigh.
  - rewrite (packOpacity_replicates s1 Hrange1).
    destruct (Qfloor_bounds (OpacityState.opacity s1 * 127)) as [Hlow Hhigh].
    unfold Math_floor in *.
    split.
    + intros Hfull.
      assert (OpacityState.placed s1 = true
              ∧ Qfloor (OpacityState.opacity s1 * 127) = 127%Z) as [Hplaced Hfloor]
        by (destruct (OpacityState.placed s1); split; try done; lia).
      split; [done|]. rewrite Hfloor in Hlow. apply Qle_antisym; [apply Hrange1|].
      change (inject_Z 127) with 127%Q in Hlow. lra.
    + intros [-> Hone]. rewrite Hone. reflexivity.
Qed.

(** ** A pass over a bucket *)

Section PassFacts.

Context `{Collaborators}.

Lemma wp_liftCore {A} (m : M Core A) (Q : A → World → Prop) E w :
  wp m (λ a c', Q a {| core := c'; seenCrossTileIDs := seenCrossTileIDs w |})
       (λ e c', E e {| core := c'; seenCrossTileIDs := seenCrossTileIDs w |}) (core w) →
  wp (liftCore m) Q E w.
Proof. unfold wp, liftCore. by destruct (m (core w)) as [[a|e] c']. Qed.

(** *** hideUnplacedJustifications *)

Lemma writeCrossTileID_lookup index v (a : list PlacedSymbol) n :
  writeCrossTileID index v a !! n
  = (λ entry, if decide (Z.of_nat n = index) then tagged v entry else entry) <$> a !! n.
Proof.
  unfold writeCrossTileID.
  destruct (decide (Z.of_nat n = index)) as [Heq|Hne];
    destruct (0 <=? index)%Z eqn:Hindex.
  - assert (Z.to_nat index = n) as -> by lia. by rewrite list_lookup_alter_eq.
  - apply Z.leb_gt in Hindex. lia.
  - apply Z.leb_le in Hindex. rewrite list_lookup_alter_ne by lia. by destruct (a !! n).
  - by destruct (a !! n).
Qed.

Lemma writeCrossTileID_length index v (a : list PlacedSymbol) :
  length (writeCrossTileID index v a) = length a.
Proof. unfold writeCrossTileID. destruct (0 <=? index)%Z; [apply length_alter|done]. Qed.

Lemma hideUnplacedJustifications_justified placedJustification symbolInstance c :
  justified placedJustification symbolInstance c
    (hideUnplacedJustifications placedJustification symbolInstance c).
Proof.
  unfold justified.
  set (instances := instancesOf symbolInstance).
  set (placedIndex := justificationIndex instances placedJustification).
  unfold hideUnplacedJustifications. fold instances. fold placedIndex.
  cbn [forEach]. unfold mbind, M_bind, modify, mret, M_ret. cbn [justificationIndex].
  set (a0 := placedSymbolArray (bucket c)).
  set (a1 := writeCrossTileID placedIndex (SymbolInstance.crossTileID symbolInstance) a0).
  set (zero index a := if (0 <=? index)%Z && negb (index =? placedIndex)%Z
                       then writeCrossTileID index 0 a else a).
  exists (zero (right instances) (zero (center instances) (zero (left instances) a1))).
  assert (∀ index a n, zero index a !! n
            = (λ entry, if decide (Z.of_nat n = index ∧ index ≠ placedIndex)
                        then tagged 0 entry else entry) <$> a !! n) as Hzero.
  { intros index a n. unfold zero.
    destruct ((0 <=? index)%Z && negb (index =? placedIndex)%Z) eqn:Hcond.
    - apply andb_true_iff in Hcond as [_ Hne%negb_true_iff%Z.eqb_neq].
      rewrite writeCrossTileID_lookup. destruct (a !! n); [cbn|done].
      f_equal. repeat case_decide; try done; tauto.
    - destruct (a !! n); [cbn|done]. f_equal. case_decide as Hn; [|done].
      destruct Hn as [Heq Hne]. apply andb_false_iff in Hcond as [Hneg|Heq'].
      + apply Z.leb_gt in Hneg. lia.
      + apply negb_false_iff, Z.eqb_eq in Heq'. done.
  }
  assert (∀ index a, length (zero index a) = length a) as Hlength.
  { intros index a. unfold zero. destruct (_ && _); [apply writeCrossTileID_length|done]. }
  split; [|split].
  - unfold zero, a1, a0.
    destruct ((0 <=? left instances)%Z && _), ((0 <=? center instances)%Z && _),
      ((0 <=? right instances)%Z && _); reflexivity.
  - rewrite !Hlength. apply writeCrossTileID_length.
  - intros n entry Hentry. rewrite !Hzero. unfold a1.
    rewrite writeCrossTileID_lookup. fold a0. rewrite Hentry. cbn.
    f_equal. unfold tagged.
    repeat case_decide; cbn; try done; try (exfalso; tauto).
    all: exfalso; intuition congruence.
Qed.

(** X6. For every justification, symbol instance and state:
    hideUnplacedJustifications returns, and of the state it changes only
    the crossTileID column of the placed-symbol array, whose length stays.
    The entry of the placed justification then carries the crossTileID of
    the symbol instance, the entries of the other justifications of the
    instance carry 0, and every other entry is as it was. *)
Theorem hideUnplacedJustifications_tags_one placedJustification symbolInstance c :
  let instances := instancesOf symbolInstance in
  let placedIndex := justificationIndex instances placedJustification in
  ∃ array',
    hideUnplacedJustifications placedJustification symbolInstance c
    = (Return (), set_bucket (set_placedSymbolArray array' (bucket c)) c)
    ∧ length array' = length (placedSymbolArray (bucket c))
    ∧ ∀ n entry, placedSymbolArray (bucket c) !! n = Some entry →
        array' !! n =
          Some (if decide (Z.of_nat n = placedIndex)
                then tagged (SymbolInstance.crossTileID symbolInstance) entry
                else if decide (Z.of_nat n = left instances
                                ∨ Z.of_nat n = center instances
                                ∨ Z.of_nat n = right instances)
                then tagged 0 entry
                else entry).
Proof. exact (hideUnplacedJustifications_justified placedJustification symbolInstance c). Qed.

Lemma wp_hideUnplacedJustifications j si (Q : () → Core → Prop) E c :
  (∀ array', length array' = length (placedSymbolArray (bucket c)) →
     Q () (set_bucket (set_placedSymbolArray array' (bucket c)) c)) →
  wp (hideUnplacedJustifications j si) Q E c.
Proof.
  intros HQ. destruct (hideUnplacedJustifications_justified j si c)
    as (array' & Hrun & Hlength & _).
  unfold wp. rewrite Hrun. by apply HQ.
Qed.

(** *** The frames of the text box placement and of the resolution *)

Lemma Placement_eta (p : Placement) :
  p = set_placements (placements p)
        (set_collisionIndex (collisionIndex p) (set_dynamicOffsets (dynamicOffsets p) p)).
Proof. by destruct p. Qed.

Lemma Bucket_eta (b : Bucket) : b = set_placedSymbolArray (placedSymbolArray b) b.
Proof. by destruct b. Qed.

#[local] Instance textBoxFrame_preorder id : PreOrder (textBoxFrame id).
Proof.
  split.
  - intros c. split.
    + exists (dynamicOffsets (this c)). split; [by destruct (this c) | done].
    + exists (placedSymbolArray (bucket c)). split; [apply Bucket_eta | done].
  - intros c1 c2 c3 [(o1 & Ht1 & Ho1) (a1 & Hb1 & Hl1)] [(o2 & Ht2 & Ho2) (a2 & Hb2 & Hl2)].
    split.
    + exists o2. split; [by rewrite Ht2, Ht1|].
      intros k Hk. rewrite Ho2, Ht1 by done. by apply Ho1.
    + exists a2. split; [by rewrite Hb2, Hb1|]. by rewrite Hl2, Hb1.
Qed.

#[local] Instance labelFrame_preorder id : PreOrder (labelFrame id).
Proof.
  split.
  - intros c. split.
    + exists (placements (this c)), (collisionIndex (this c)), (dynamicOffsets (this c)).
      split; [apply Placement_eta | done].
    + exists (placedSymbolArray (bucket c)). split; [apply Bucket_eta | done].
  - intros c1 c2 c3 [(p1 & i1 & o1 & Ht1 & Hk1) (a1 & Hb1 & Hl1)]
      [(p2 & i2 & o2 & Ht2 & Hk2) (a2 & Hb2 & Hl2)].
    split.
    + exists p2, i2, o2. split; [by rewrite Ht2, Ht1|].
      intros k Hk. destruct (Hk2 k Hk) as [-> ->]. rewrite Ht1. by apply Hk1.
    + exists a2. split; [by rewrite Hb2, Hb1|]. by rewrite Hl2, Hb1.
Qed.

Lemma textBoxFrame_labelFrame id c c' : textBoxFrame id c c' → labelFrame id c c'.
Proof.
  intros [(offsets' & Hthis & Hoffsets) Hbucket]. split; [|done].
  exists (placements (this c)), (collisionIndex (this c)), offsets'.
  split; [rewrite Hthis; by destruct (this c) | auto].
Qed.

Lemma textBoxFrame_offsets id c offsets' :
  (∀ k, k ≠ id → offsets' !! k = dynamicOffsets (this c) !! k) →
  textBoxFrame id c (set_this (set_dynamicOffsets offsets' (this c)) c).
Proof.
  intros Hk. split.
  - exists offsets'. split; [reflexivity | exact Hk].
  - exists (placedSymbolArray (bucket c)). split; [apply Bucket_eta | done].
Qed.

Lemma textBoxFrame_same id c c' :
  this c' = this c → bucket c' = bucket c → textBoxFrame id c c'.
Proof.
  intros Hthis Hbucket.
  pose proof (reflexivity (R := textBoxFrame id) c) as Hc.
  unfold textBoxFrame. by rewrite Hthis, Hbucket.
Qed.

(** What the text box placement leaves of the state that the rest of the
    turn reads. *)
Lemma textBoxFrame_kept id c c' :
  textBoxFrame id c c' →
  placements (this c') = placements (this c)
  ∧ collisionIndex (this c') = collisionIndex (this c)
  ∧ bucketInstanceId (bucket c') = bucketInstanceId (bucket c)
  ∧ justReloaded (bucket c') = justReloaded (bucket c)
  ∧ collisionArrays (bucket c') = collisionArrays (bucket c).
Proof. intros [(offsets' & -> & _) (array' & -> & _)]. done. Qed.

Lemma labelFrame_elsewhere id c c' k :
  labelFrame id c c' → k ≠ id →
  placements (this c') !! k = placements (this c) !! k
  ∧ dynamicOffsets (this c') !! k = dynamicOffsets (this c) !! k.
Proof.
  intros [(placements' & index' & offsets' & -> & Hk) _] Hne. by apply Hk.
Qed.

(** The static data of the bucket that a resolution keeps. *)
Lemma labelFrame_bucket id c c' :
  labelFrame id c c' →
  symbolInstances (bucket c') = symbolInstances (bucket c)
  ∧ bucketInstanceId (bucket c') = bucketInstanceId (bucket c)
  ∧ collisionArrays (bucket c') = collisionArrays (bucket c)
  ∧ justReloaded (bucket c') = justReloaded (bucket c)
  ∧ layout (bucket c') = layout (bucket c).
Proof. intros [_ (array' & -> & _)]. done. Qed.

Lemma labelFrame_passFrame id c c' : labelFrame id c c' → passFrame c c'.
Proof.
  intros [(placements' & index' & offsets' & Hthis & _) (array' & Hbucket & Hlength)].
  unfold passFrame. rewrite Hthis, Hbucket. by repeat split.
Qed.

Lemma labelFrame_index id c index' :
  labelFrame id c (set_this (set_collisionIndex index' (this c)) c).
Proof.
  split.
  - exists (placements (this c)), index', (dynamicOffsets (this c)).
    split; [cbn; by destruct (this c) | done].
  - exists (placedSymbolArray (bucket c)). split; [apply Bucket_eta | done].
Qed.

Lemma labelFrame_placements id c placements' :
  (∀ k, k ≠ id → placements' !! k = placements (this c) !! k) →
  labelFrame id c (set_this (set_placements placements' (this c)) c).
Proof.
  intros Hk. split.
  - exists placements', (collisionIndex (this c)), (dynamicOffsets (this c)).
    split; [cbn; by destruct (this c) | auto].
  - exists (placedSymbolArray (bucket c)). split; [apply Bucket_eta | done].
Qed.

Lemma hideUnplacedJustifications_textBoxFrame id j si :
  preserves (textBoxFrame id) (hideUnplacedJustifications j si).
Proof.
  intros c. destruct (hideUnplacedJustifications_justified j si c)
    as (array' & -> & Hlength & _). cbn. split.
  - exists (dynamicOffsets (this c)). split; [cbn; by destruct (this c) | done].
  - by exists array'.
Qed.

Lemma warnOnce_textBoxFrame id message : preserves (textBoxFrame id) (warnOnce message).
Proof.
  intros c. unfold warnOnce, modify; cbn. case_bool_decide; [reflexivity|].
  by apply textBoxFrame_same.
Qed.

Lemma attemptAnchorPlacement_textBoxFrame anchor' da ca tb dto tbs rot pit tpr pm cg js
    tao si :
  preserves (textBoxFrame (SymbolInstance.crossTileID si))
    (attemptAnchorPlacement anchor' da ca tb dto tbs rot pit tpr pm cg js tao si).
Proof.
  unfold attemptAnchorPlacement.
  preserving; try done.
  - apply warnOnce_textBoxFrame.
  - apply textBoxFrame_offsets. intros k Hk. by rewrite lookup_insert_ne.
  - apply hideUnplacedJustifications_textBoxFrame.
Qed.

Lemma attemptAnchors_textBoxFrame anchors da ca tb dto tbs rot pit tpr pm cg js tao si :
  preserves (textBoxFrame (SymbolInstance.crossTileID si))
    (attemptAnchors anchors da ca tb dto tbs rot pit tpr pm cg js tao si).
Proof.
  induction anchors as [|anchor' rest IH]; cbn [attemptAnchors]; [preserving|].
  apply preserves_bind; [typeclasses eauto | apply attemptAnchorPlacement_textBoxFrame |].
  intros [boxes|]; [preserving | apply IH].
Qed.

Lemma anchorsToAttempt_textBoxFrame id da id' :
  preserves (textBoxFrame id) (anchorsToAttempt da id').
Proof.
  unfold anchorsToAttempt, Array_unshift. preserving; try done.
  all: try intros c; by apply textBoxFrame_same.
Qed.

Lemma keepPreviousOffset_textBoxFrame si :
  preserves (textBoxFrame (SymbolInstance.crossTileID si)) (keepPreviousOffset si).
Proof.
  unfold keepPreviousOffset. preserving; try done.
  - apply textBoxFrame_offsets. intros k Hk. by rewrite lookup_insert_ne.
  - apply hideUnplacedJustifications_textBoxFrame.
Qed.

Lemma placeTextBox_textBoxFrame a l si ca js :
  preserves (textBoxFrame (SymbolInstance.crossTileID si)) (placeTextBox a l si ca js).
Proof.
  unfold placeTextBox, elements_of. preserving; try done;
    first [ apply anchorsToAttempt_textBoxFrame
          | apply attemptAnchors_textBoxFrame
          | apply keepPreviousOffset_textBoxFrame ].
Qed.

Lemma resolveSymbolInstance_labelFrame a l i si :
  preserves (labelFrame (SymbolInstance.crossTileID si)) (resolveSymbolInstance a l i si).
Proof.
  unfold resolveSymbolInstance. preserving; try done.
  all: try (intros c; apply textBoxFrame_labelFrame, placeTextBox_textBoxFrame).
  all: try apply labelFrame_index.
  all: apply labelFrame_placements; intros k Hk; by rewrite lookup_insert_ne.
Qed.

(** *** attemptAnchorPlacement and the search *)

Lemma attemptAnchorPlacement_attempted anchor' dynamicAnchors collisionArrays' textBox'
    dynamicTextOffset textBoxScale' rotateWithMap' pitchWithMap' textPixelRatio'
    posMatrix' collisionGroup' justifications textAllowOverlap' symbolInstance c :
  attempted anchor' dynamicAnchors collisionArrays' textBox' dynamicTextOffset
    textBoxScale' justifications symbolInstance c
    (attemptAnchorPlacement anchor' dynamicAnchors collisionArrays' textBox'
       dynamicTextOffset textBoxScale' rotateWithMap' pitchWithMap' textPixelRatio'
       posMatrix' collisionGroup' justifications textAllowOverlap' symbolInstance c).
Proof.
  unfold attempted.
  match goal with |- match ?run with _ => _ end => pattern run end.
  apply wp_outcome. unfold attemptAnchorPlacement.
  wp_steps; try done.
  - unfold warnOnce. wp_steps. cbn.
    by destruct (bool_decide (autoWarning ∈ warnOnceHistory c)).
  - apply wp_hideUnplacedJustifications. intros array' Hlength. wp_steps.
    match goal with Hid : negb (_ =? 0)%N = true |- _ =>
      apply negb_true_iff, N.eqb_neq in Hid end.
    match goal with Hneg : (_ <? 0)%Z = false |- _ => apply Z.ltb_ge in Hneg end.
    match goal with Hauto : str_eq anchor' "auto" = false |- _ =>
      apply bool_decide_eq_false in Hauto end.
    split.
    { match goal with Hbox : (0 <? length ?l)%nat = true |- _ =>
        apply Nat.ltb_lt in Hbox; destruct l; [cbn in Hbox; lia | done] end. }
    split; [done|]. split; [done|]. split.
    { intros (Hicon & Hfirst & Hcenter).
      match goal with Hskip : _ && _ && _ = false |- _ =>
        rewrite !bool_decide_eq_true_2 in Hskip by done;
        unfold str_eq in Hskip; rewrite bool_decide_eq_true_2 in Hskip by done;
        discriminate Hskip end. }
    cbn in *. repeat split; try done; try eauto.
    eexists. split; [reflexivity|]. done.
  - match goal with Hid : negb (_ =? 0)%N = false |- _ =>
      apply negb_false_iff, N.eqb_eq in Hid end. done.
Qed.

(** X7. For every attempt at one anchor (attemptAnchorPlacement), from
    every state.  If it answers no boxes, the placement, the bucket and the
    anchor arrays are as they were.  If it answers boxes, they are not
    empty, the crossTileID is not 0, the anchor is not "auto" and is not
    "center" for a label with an icon in auto mode, the label has a text
    box and a placed symbol for the justification of the anchor, and the
    dynamic offsets hold for the crossTileID a record with this anchor, the
    radial offset and scale given and the width and height of the text box;
    the collision index, the placements, the opacities, the symbol
    instances, the length of the placed-symbol array, the anchor arrays
    and the console are as they were.  It throws only an AssertionError,
    only for crossTileID 0, and then leaves the state as it found it. *)
Theorem attemptAnchorPlacement_outcomes anchor' dynamicAnchors collisionArrays' textBox'
    dynamicTextOffset textBoxScale' rotateWithMap' pitchWithMap' textPixelRatio'
    posMatrix' collisionGroup' justifications textAllowOverlap' symbolInstance c :
  let id := SymbolInstance.crossTileID symbolInstance in
  match attemptAnchorPlacement anchor' dynamicAnchors collisionArrays' textBox'
          dynamicTextOffset textBoxScale' rotateWithMap' pitchWithMap' textPixelRatio'
          posMatrix' collisionGroup' justifications textAllowOverlap' symbolInstance c with
  | (Return None, c') =>
      this c' = this c ∧ bucket c' = bucket c ∧ arrays c' = arrays c
  | (Return (Some boxes), c') =>
      PlacedBox.box boxes ≠ [] ∧ id ≠ 0%N ∧ anchor' ≠ "auto"
      ∧ ¬ (is_Some (iconBox collisionArrays')
           ∧ head (arrays c !!! dynamicAnchors) = Some "auto" ∧ anchor' = "center")
      ∧ (0 <= justificationIndex justifications (getAnchorJustification anchor'))%Z
      ∧ is_Some (textBox collisionArrays')
      ∧ (∃ offset,
           dynamicOffsets (this c') = <[id := offset]> (dynamicOffsets (this c))
           ∧ anchor offset = anchor'
           ∧ radialOffset offset = dynamicTextOffset
           ∧ textBoxScale offset = textBoxScale'
           ∧ width offset = (x2 textBox' - x1 textBox')%Q
           ∧ height offset = (y2 textBox' - y1 textBox')%Q)
      ∧ collisionIndex (this c') = collisionIndex (this c)
      ∧ placements (this c') = placements (this c)
      ∧ opacities (this c') = opacities (this c)
      ∧ symbolInstances (bucket c') = symbolInstances (bucket c)
      ∧ length (placedSymbolArray (bucket c')) = length (placedSymbolArray (bucket c))
      ∧ arrays c' = arrays c ∧ console c' = console c
  | (Throw e, c') => e = AssertionError ∧ id = 0%N ∧ c' = c
  end.
Proof.
  exact (attemptAnchorPlacement_attempted anchor' dynamicAnchors collisionArrays' textBox'
           dynamicTextOffset textBoxScale' rotateWithMap' pitchWithMap' textPixelRatio'
           posMatrix' collisionGroup' justifications textAllowOverlap' symbolInstance c).
Qed.

Lemma attemptAnchors_searched anchors dynamicAnchors collisionArrays' textBox'
    dynamicTextOffset textBoxScale' rotateWithMap' pitchWithMap' textPixelRatio'
    posMatrix' collisionGroup' justifications textAllowOverlap' symbolInstance c :
  searched anchors dynamicAnchors collisionArrays' justifications symbolInstance c
    (attemptAnchors anchors dynamicAnchors collisionArrays' textBox'
       dynamicTextOffset textBoxScale' rotateWithMap' pitchWithMap' textPixelRatio'
       posMatrix' collisionGroup' justifications textAllowOverlap' symbolInstance c).
Proof.
  unfold searched.
  revert c. induction anchors as [|anchor' rest IH]; intros c; [done|].
  rewrite attemptAnchors_head.
  pose proof (attemptAnchorPlacement_attempted anchor' dynamicAnchors collisionArrays'
                textBox' dynamicTextOffset textBoxScale' rotateWithMap' pitchWithMap'
                textPixelRatio' posMatrix' collisionGroup' justifications
                textAllowOverlap' symbolInstance c) as Hattempt.
  unfold attempted in Hattempt.
  destruct (attemptAnchorPlacement _ _ _ _ _ _ _ _ _ _ _ _ _ _ c) as [[[boxes|]|e] c1].
  - destruct Hattempt as (Hbox & Hid & Hauto & Hcenter & Hjust & _ & Hoffset & Hrest).
    destruct Hoffset as (offset & Hoffsets & Hanchor & _).
    destruct Hrest as (Hindex & Hplacements & Hopacities & _ & _ & Harrays & _).
    split; [done|]. split; [done|]. split; [|done].
    exists offset. rewrite Hanchor. repeat split; try done. by left.
  - destruct Hattempt as (Hthis & Hbucket & Harrays).
    specialize (IH c1).
    destruct (attemptAnchors rest _ _ _ _ _ _ _ _ _ _ _ _ _ c1) as [[[boxes|]|e] c2].
    + rewrite Hthis, Harrays in IH.
      destruct IH as (Hbox & Hid & (offset & Hoffsets & Hmember & Hrest) & Htail).
      split; [done|]. split; [done|]. split; [|done].
      exists offset. split; [done|]. split; [by right | done].
    + destruct IH as (Hthis' & Hbucket' & Harrays'). split; [|split]; congruence.
    + destruct IH as (He & Hid & Hthis' & Hbucket' & Harrays').
      repeat split; congruence.
  - destruct Hattempt as (He & Hid & ->). done.
Qed.

(** X8. For every search over a list of anchors (the loop of lines 423-432),
    from every state.  If it answers no boxes, the placement, the bucket
    and the anchor arrays are as they were.  If it answers boxes, they are
    not empty, the crossTileID is not 0, and the dynamic offsets hold for
    the crossTileID a record whose anchor is one of the list, is not
    "auto", is not "center" for a label with an icon in auto mode, and has
    a placed symbol for its justification; the collision index, the
    placements, the opacities and the anchor arrays are as they were.  It
    throws only an AssertionError, only for crossTileID 0, and then the
    placement, the bucket and the anchor arrays are as they were. *)
Theorem attemptAnchors_outcomes anchors dynamicAnchors collisionArrays' textBox'
    dynamicTextOffset textBoxScale' rotateWithMap' pitchWithMap' textPixelRatio'
    posMatrix' collisionGroup' justifications textAllowOverlap' symbolInstance c :
  let id := SymbolInstance.crossTileID symbolInstance in
  match attemptAnchors anchors dynamicAnchors collisionArrays' textBox'
          dynamicTextOffset textBoxScale' rotateWithMap' pitchWithMap' textPixelRatio'
          posMatrix' collisionGroup' justifications textAllowOverlap' symbolInstance c with
  | (Return None, c') =>
      this c' = this c ∧ bucket c' = bucket c ∧ arrays c' = arrays c
  | (Return (Some boxes), c') =>
      PlacedBox.box boxes ≠ [] ∧ id ≠ 0%N
      ∧ (∃ offset,
           dynamicOffsets (this c') = <[id := offset]> (dynamicOffsets (this c))
           ∧ anchor offset ∈ anchors
           ∧ anchor offset ≠ "auto"
           ∧ ¬ (is_Some (iconBox collisionArrays')
                ∧ head (arrays c !!! dynamicAnchors) = Some "auto"
                ∧ anchor offset = "center")
           ∧ (0 <= justificationIndex justifications
                     (getAnchorJustification (anchor offset)))%Z)
      ∧ collisionIndex (this c') = collisionIndex (this c)
      ∧ placements (this c') = placements (this c)
      ∧ opacities (this c') = opacities (this c)
      ∧ arrays c' = arrays c
  | (Throw e, c') =>
      e = AssertionError ∧ id = 0%N
      ∧ this c' = this c ∧ bucket c' = bucket c ∧ arrays c' = arrays c
  end.
Proof.
  exact (attemptAnchors_searched anchors dynamicAnchors collisionArrays' textBox'
           dynamicTextOffset textBoxScale' rotateWithMap' pitchWithMap' textPixelRatio'
           posMatrix' collisionGroup' justifications textAllowOverlap' symbolInstance c).
Qed.

(** *** The resolution of one symbol instance *)

Lemma anchorsToAttempt_returns da id (c : Core) :
  wp (anchorsToAttempt da id) (λ _ _, True) (λ _ _, False) c.
Proof.
  unfold anchorsToAttempt, Array_unshift. wp_steps; done.
Qed.

Lemma keepPreviousOffset_returns si (c : Core) :
  wp (keepPreviousOffset si) (λ _ _, True) (λ _ _, False) c.
Proof.
  unfold keepPreviousOffset. wp_steps; try done.
  by apply wp_hideUnplacedJustifications.
Qed.

Lemma attemptAnchors_throws anchors da ca tb dto tbs rot pit tpr pm cg js tao si c :
  wp (attemptAnchors anchors da ca tb dto tbs rot pit tpr pm cg js tao si)
    (λ _ _, True)
    (λ e _, e = AssertionError ∧ SymbolInstance.crossTileID si = 0%N) c.
Proof.
  pose proof (attemptAnchors_searched anchors da ca tb dto tbs rot pit tpr pm cg js tao
                si c) as Hrun.
  unfold searched in Hrun. unfold wp.
  destruct (attemptAnchors _ _ _ _ _ _ _ _ _ _ _ _ _ _ c) as [[[boxes|]|e] c']; try done.
  by destruct Hrun as (? & ? & _).
Qed.

(** The text box placement throws only where [attemptAnchorPlacement]
    asserts that the crossTileID is not 0. *)
Lemma placeTextBox_throws a l si ca js c :
  wp (placeTextBox a l si ca js) (λ _ _, True)
    (λ e _, e = AssertionError ∧ SymbolInstance.crossTileID si = 0%N) c.
Proof.
  unfold placeTextBox, elements_of. wp_steps; try done.
  eapply wp_mono; [apply anchorsToAttempt_returns | | done].
  intros anchors c1 _. lazy beta. wp_steps.
  eapply wp_mono; [apply attemptAnchors_throws | | done].
  intros placed c2 _. lazy beta. wp_steps.
  eapply wp_mono; [apply keepPreviousOffset_returns | | done].
  intros [] c3 _. lazy beta. by wp_steps.
Qed.

Lemma combineTextAndIcon_both_required symbolInstance placeText placeIcon text' icon' :
  combineTextAndIcon false false symbolInstance placeText placeIcon = (text', icon') →
  ¬ (SymbolInstance.numHorizontalGlyphVertices symbolInstance = 0%N
     ∧ SymbolInstance.numVerticalGlyphVertices symbolInstance = 0%N) →
  SymbolInstance.numIconVertices symbolInstance ≠ 0%N →
  text' = icon'.
Proof.
  intros Hcombine Hglyphs Hicon. unfold combineTextAndIcon in Hcombine.
  apply N.eqb_neq in Hicon. rewrite Hicon in Hcombine.
  assert ((SymbolInstance.numHorizontalGlyphVertices symbolInstance =? 0)%N
          && (SymbolInstance.numVerticalGlyphVertices symbolInstance =? 0)%N = false)
    as Hnone.
  { apply andb_false_iff.
    destruct (N.eqb_spec (SymbolInstance.numHorizontalGlyphVertices symbolInstance) 0);
      destruct (N.eqb_spec (SymbolInstance.numVerticalGlyphVertices symbolInstance) 0);
      tauto. }
  rewrite Hnone in Hcombine. cbn in Hcombine. congruence.
Qed.

Lemma resolveSymbolInstance_resolved a l i symbolInstance c :
  resolved l i symbolInstance c (resolveSymbolInstance a l i symbolInstance c).
Proof.
  unfold resolved.
  match goal with |- match ?run with _ => _ end => pattern run end.
  apply wp_outcome. unfold resolveSymbolInstance.
  wp_step. wp_step. wp_step. wp_step. wp_step. wp_step; [|done].
  wp_step.
  eapply wp_mono;
    [exact (wp_and _ _ _ _ _ _
              (preserves_wp (textBoxFrame _) _ c (placeTextBox_textBoxFrame _ _ _ _ _))
              (placeTextBox_throws a l symbolInstance _ (instancesOf symbolInstance) c))
    | | ].
  2: { intros e c1 (Hframe%textBoxFrame_kept & -> & Hid).
       destruct Hframe as (Hplacements & _). by split; [left|]. }
  intros [placedGlyphBoxes placeText] c1 (Hframe%textBoxFrame_kept & _).
  destruct Hframe as (Hplacements & Hindex & HinstanceId & HjustReloaded & Harrays).
  lazy beta iota. wp_steps.
  all: cbn [this bucket placements set_this set_placements set_collisionIndex
            justReloaded bucketInstanceId].
  all: rewrite ?HinstanceId, ?HjustReloaded, ?Hplacements in *.
  all: repeat match goal with
       | Hne : negb (_ =? 0)%N = true |- _ => apply negb_true_iff, N.eqb_neq in Hne
       | Heq : negb (_ =? 0)%N = false |- _ => apply negb_false_iff, N.eqb_eq in Heq
       end.
  all: try (split; [auto|done]).
  all: split; [done|]; split; [done|]; split; [by eexists|].
  all: eexists; split; [reflexivity|]; cbn [JointPlacement.text JointPlacement.icon
                                             JointPlacement.skipFade].
  all: split; [intros ->; apply orb_true_r|].
  all: split; [intros ->; apply orb_true_r|].
  all: split; [intros ->; apply orb_true_r|].
  all: intros HtextOptional HiconOptional -> ->; intros Hglyphs Hicon.
  all: rewrite !orb_false_r.
  all: match goal with Hcombine : combineTextAndIcon _ _ _ _ _ = _ |- _ =>
         rewrite HtextOptional, HiconOptional in Hcombine;
         pose proof (combineTextAndIcon_both_required _ _ _ _ _ Hcombine Hglyphs Hicon)
       end.
  all: congruence.
Qed.

(** X9. For every resolution of a symbol instance (the body of the loop of
    placeLayerBucket for a label that is neither seen nor held for fade),
    from every state.  If it returns, the crossTileID and the instance id of
    the bucket are not 0, the bucket has collision arrays for the instance,
    and the placements hold for the crossTileID, and are otherwise as they
    were, a JointPlacement whose text is true if text is always shown,
    whose icon is true if icons are always shown, whose skipFade is true if
    the bucket was just reloaded, and whose text and icon are equal when
    neither is optional nor always shown and the label has glyphs and an
    icon.  If it throws an AssertionError, the crossTileID or the instance
    id of the bucket is 0 and the placements are as they were.  If it throws
    a TypeError, the bucket has no collision arrays for the instance and the
    state is as it was. *)
Theorem resolveSymbolInstance_outcomes a l i symbolInstance c :
  let id := SymbolInstance.crossTileID symbolInstance in
  match resolveSymbolInstance a l i symbolInstance c with
  | (Return _, c') =>
      id ≠ 0%N ∧ bucketInstanceId (bucket c) ≠ 0%N
      ∧ is_Some (arr ← collisionArrays (bucket c); arr !! i)
      ∧ ∃ jointPlacement,
          placements (this c') = <[id := jointPlacement]> (placements (this c))
          ∧ (alwaysShowText l = true → JointPlacement.text jointPlacement = true)
          ∧ (alwaysShowIcon l = true → JointPlacement.icon jointPlacement = true)
          ∧ (justReloaded (bucket c) = true →
             JointPlacement.skipFade jointPlacement = true)
          ∧ (textOptional l = false → iconOptional l = false →
             alwaysShowText l = false → alwaysShowIcon l = false →
             ¬ (SymbolInstance.numHorizontalGlyphVertices symbolInstance = 0%N
                ∧ SymbolInstance.numVerticalGlyphVertices symbolInstance = 0%N) →
             SymbolInstance.numIconVertices symbolInstance ≠ 0%N →
             JointPlacement.text jointPlacement = JointPlacement.icon jointPlacement)
  | (Throw AssertionError, c') =>
      (id = 0%N ∨ bucketInstanceId (bucket c) = 0%N)
      ∧ placements (this c') = placements (this c)
  | (Throw TypeError, c') =>
      (arr ← collisionArrays (bucket c); arr !! i) = None ∧ c' = c
  end.
Proof. exact (resolveSymbolInstance_resolved a l i symbolInstance c). Qed.

(** The resolution at work in a proof: its frame and its outcome. *)
Lemma wp_resolveSymbolInstance a l i si (Q : () → Core → Prop) E c :
  (∀ r c', labelFrame (SymbolInstance.crossTileID si) c c' →
     resolved l i si c (r, c') →
     match r with Return _ => Q () c' | Throw e => E e c' end) →
  wp (resolveSymbolInstance a l i si) Q E c.
Proof.
  intros Hpost.
  pose proof (resolveSymbolInstance_labelFrame a l i si c) as Hframe.
  pose proof (resolveSymbolInstance_resolved a l i si c) as Hrun.
  unfold wp. destruct (resolveSymbolInstance a l i si c) as [r c'].
  specialize (Hpost r c' Hframe Hrun). by destruct r as [[]|e].
Qed.

(** *** The pass *)

Lemma wp_placeLayerBucketLocals a c (Q : Locals → Core → Prop) E :
  (∀ l groups,
     textOptional l = text_optional (layout (bucket c)) →
     iconOptional l = icon_optional (layout (bucket c)) →
     alwaysShowText l =
       text_allow_overlap (layout (bucket c))
       && (icon_allow_overlap (layout (bucket c)) || negb (hasIconData (bucket c))
           || icon_optional (layout (bucket c))) →
     alwaysShowIcon l =
       icon_allow_overlap (layout (bucket c))
       && (text_allow_overlap (layout (bucket c)) || negb (hasTextData (bucket c))
           || text_optional (layout (bucket c))) →
     Q l (set_bucket
            match collisionArrays (bucket c), collisionBoxArray a with
            | None, Some boxes =>
                set_collisionArrays
                  (Some (deserializeCollisionBoxes (bucket c) boxes)) (bucket c)
            | _, _ => bucket c
            end
            (set_this (set_collisionGroups groups (this c)) c))) →
  wp (placeLayerBucketLocals a) Q E c.
Proof.
  intros HQ. unfold placeLayerBucketLocals, wp, mbind, M_bind, read; cbn.
  destruct (CollisionGroups.get _ _) as [group groups].
  destruct (collisionArrays (bucket c)), (collisionBoxArray a); cbn; by apply HQ.
Qed.

Lemma elem_of_crossTileIDs (l : list SymbolInstance.t) i si :
  l !! i = Some si → SymbolInstance.crossTileID si ∈ SymbolInstance.crossTileID <$> l.
Proof.
  intros Hi. apply list_elem_of_fmap. exists si. split; [done|].
  by eapply list_elem_of_lookup_2.
Qed.

#[local] Instance passFrame_preorder : PreOrder passFrame.
Proof.
  split; [done|]. intros c1 c2 c3. unfold passFrame. intros Hc12 Hc23.
  destruct_and!. repeat split; congruence.
Qed.

#[local] Instance worldFrame_preorder : PreOrder worldFrame.
Proof.
  split; [intros w; unfold worldFrame; reflexivity|].
  intros w1 w2 w3. unfold worldFrame. apply transitivity.
Qed.

Lemma liftCore_worldFrame {A} (m : M Core A) :
  preserves passFrame m → preserves worldFrame (liftCore m).
Proof.
  intros Hm w. unfold liftCore, worldFrame. specialize (Hm (core w)).
  by destruct (m (core w)) as [r c].
Qed.

(** X10. For every pass over a bucket (placeLayerBucket), from every state
    and whether it returns or throws: the opacities, the commit time, the
    time of the last placement change, the fade duration, the stale flag,
    the transform and the predecessor of the placement are as they were,
    and so are the layout, the symbol instances, the instance id, the
    source and the text and icon data flags of the bucket and the length of
    its placed-symbol array. *)
Theorem placeLayerBucket_frame a w :
  passFrame (core w) (core (placeLayerBucket a w).2).
Proof.
  change (worldFrame w (placeLayerBucket a w).2). revert w.
  change (preserves worldFrame (placeLayerBucket a)).
  unfold placeLayerBucket. preserving.
  - apply wp_preserves. intros w. apply wp_liftCore, wp_placeLayerBucketLocals.
    intros l groups _ _ _ _. unfold worldFrame, passFrame. cbn.
    by destruct (collisionArrays _), (collisionBoxArray a).
  - apply preserves_forRange; [typeclasses eauto|]. intros i.
    unfold placeSymbolInstance. preserving.
    + apply liftCore_worldFrame. preserving. done.
    + apply liftCore_worldFrame. intros c.
      eapply labelFrame_passFrame, resolveSymbolInstance_labelFrame.
    + unfold worldFrame. cbn. reflexivity.
  - apply liftCore_worldFrame. preserving. done.
Qed.

#[local] Instance untouched_preorder k : PreOrder (untouched k).
Proof.
  split; [done|]. intros w1 w2 w3 [Hs12 Hk12] [Hs23 Hk23].
  split; [congruence|]. intros Hk.
  destruct (Hk12 Hk) as (Hp12 & Ho12 & Hseen12).
  rewrite Hs12, Hseen12 in Hk23. destruct (Hk23 Hk) as (Hp23 & Ho23 & Hseen23).
  repeat split; congruence.
Qed.

Lemma placeSymbolInstance_untouched k a l i :
  preserves (untouched k) (placeSymbolInstance a l i).
Proof.
  apply wp_preserves. intros w. unfold placeSymbolInstance. wp_steps; try done.
  all: match goal with Hsi : _ !! _ = Some ?si |- _ =>
         assert (¬ (k ∈ SymbolInstance.crossTileID <$> symbolInstances (bucket (core w))
                    ∧ truthy (seenCrossTileIDs w !! k) = false) →
                 k ≠ SymbolInstance.crossTileID si) as Hne
           by (intros Hk ->; apply Hk;
               split; [by eapply elem_of_crossTileIDs | by apply negb_true_iff])
       end.
  - apply wp_liftCore. wp_step. split; [done|]. intros Hk. cbn.
    rewrite lookup_insert_ne; [done|]. intros Heq. by apply (Hne Hk).
  - apply wp_liftCore, wp_resolveSymbolInstance. intros r c' Hframe _.
    pose proof (labelFrame_bucket _ _ _ Hframe) as (Hinstances & _).
    destruct r as [[]|e]; [wp_step|]; (split; [done|]); intros Hk; cbn.
    + destruct (labelFrame_elsewhere _ _ _ k Hframe (Hne Hk)) as [-> ->].
      rewrite lookup_insert_ne; [done|]. intros Heq. by apply (Hne Hk).
    + by destruct (labelFrame_elsewhere _ _ _ k Hframe (Hne Hk)) as [-> ->].
Qed.

Lemma placeLayerBucket_untouched k a : preserves (untouched k) (placeLayerBucket a).
Proof.
  unfold placeLayerBucket. preserving.
  - apply wp_preserves. intros w. apply wp_liftCore, wp_placeLayerBucketLocals.
    intros l groups _ _ _ _. split; [|done].
    cbn. by destruct (collisionArrays _), (collisionBoxArray a).
  - apply preserves_forRange; [typeclasses eauto|]. intros i.
    apply placeSymbolInstance_untouched.
  - apply wp_preserves. intros w. apply wp_liftCore. wp_step. done.
Qed.

(** X11. For every pass over a bucket, from every state and whether it
    returns or throws, and for every crossTileID other than those of the
    symbol instances of the bucket that were not marked seen when the pass
    began: the placement, the dynamic offset and the seen mark of the
    crossTileID are as they were. *)
Theorem placeLayerBucket_elsewhere a w k :
  ¬ (k ∈ SymbolInstance.crossTileID <$> symbolInstances (bucket (core w))
     ∧ truthy (seenCrossTileIDs w !! k) = false) →
  placements (this (core (placeLayerBucket a w).2)) !! k
    = placements (this (core w)) !! k
  ∧ dynamicOffsets (this (core (placeLayerBucket a w).2)) !! k
    = dynamicOffsets (this (core w)) !! k
  ∧ seenCrossTileIDs (placeLayerBucket a w).2 !! k = seenCrossTileIDs w !! k.
Proof. intros Hk. by apply (placeLayerBucket_untouched k a w). Qed.

(** X12. A pass over a bucket returns when no symbol instance of the bucket
    has crossTileID 0, the instance id of the bucket is not 0, and the
    bucket has collision arrays with an entry for every symbol instance;
    the bucket is then no longer marked as just reloaded. *)
Theorem placeLayerBucket_returns a w arr :
  (∀ symbolInstance, symbolInstance ∈ symbolInstances (bucket (core w)) →
     SymbolInstance.crossTileID symbolInstance ≠ 0%N) →
  bucketInstanceId (bucket (core w)) ≠ 0%N →
  collisionArrays (bucket (core w)) = Some arr →
  length (symbolInstances (bucket (core w))) ≤ length arr →
  ∃ w', placeLayerBucket a w = (Return (), w')
        ∧ justReloaded (bucket (core w')) = false.
Proof.
  intros Hids Hinstance Harr Hlength.
  assert (wp (placeLayerBucket a)
            (λ _ w', justReloaded (bucket (core w')) = false) (λ _ _, False) w) as Hrun.
  { unfold placeLayerBucket. apply wp_bind, wp_liftCore, wp_placeLayerBucketLocals.
    intros l groups _ _ _ _. rewrite Harr. apply wp_bind, wp_read. apply wp_bind.
    eapply wp_mono;
      [apply (wp_forRange _ _
                (λ _ w2, ∃ array', bucket (core w2)
                                   = set_placedSymbolArray array' (bucket (core w)))
                (λ _ _, False))
      | | done].
    - exists (placedSymbolArray (bucket (core w))). cbn. apply Bucket_eta.
    - intros i w2 Hi [array' Hbucket]. cbn in Hi.
      unfold placeSymbolInstance.
      wp_steps; try done.
      all: try match goal with Hsi : _ !! _ = _ |- _ =>
             rewrite Hbucket in Hsi;
             cbn [symbolInstances set_placedSymbolArray] in Hsi end.
      + apply wp_liftCore. wp_step. cbn. rewrite Hbucket. by exists array'.
      + apply wp_liftCore, wp_resolveSymbolInstance. intros r c' Hframe Hrun.
        destruct Hframe as [_ (array'' & Hbucket' & _)].
        rewrite Hbucket in Hbucket'. cbn in Hbucket'.
        match goal with Hsi : _ !! i = Some ?si |- _ =>
          assert (SymbolInstance.crossTileID si ≠ 0%N) as Hid
            by (apply Hids; by eapply list_elem_of_lookup_2) end.
        destruct r as [[]|[]]; unfold resolved in Hrun; rewrite Hbucket in Hrun;
          cbn in Hrun.
        * wp_step. cbn. by exists array''.
        * destruct Hrun as [[?|?] _]; done.
        * destruct Hrun as [Hnone _]. rewrite Harr in Hnone. cbn in Hnone.
          apply lookup_ge_None in Hnone. lia.
      + by exists array'.
      + match goal with Hnone : _ !! i = None |- _ =>
          apply lookup_ge_None in Hnone; cbn in Hnone; lia end.
    - intros [] w2 [array' Hbucket]. lazy beta. apply wp_liftCore. by wp_step. }
  apply wp_returns in Hrun as ([] & w' & Hrun & Hreloaded). eauto.
Qed.

Lemma placeLayerBucket_recorded a w w' symbolInstance :
  let id := SymbolInstance.crossTileID symbolInstance in
  let b := bucket (core w) in
  holdingForFade a = false →
  placeLayerBucket a w = (Return (), w') →
  symbolInstance ∈ symbolInstances b →
  truthy (seenCrossTileIDs w !! id) = false →
  ∃ jointPlacement,
    placements (this (core w')) !! id = Some jointPlacement
    ∧ (text_allow_overlap (layout b) = true →
       icon_allow_overlap (layout b) = true ∨ hasIconData b = false
       ∨ icon_optional (layout b) = true →
       JointPlacement.text jointPlacement = true)
    ∧ (icon_allow_overlap (layout b) = true →
       text_allow_overlap (layout b) = true ∨ hasTextData b = false
       ∨ text_optional (layout b) = true →
       JointPlacement.icon jointPlacement = true)
    ∧ (justReloaded b = true → JointPlacement.skipFade jointPlacement = true).
Proof.
  intros id b Hhold Hrun Hsi Hunseen. subst b.
  set (b := bucket (core w)).
  apply list_elem_of_lookup in Hsi as [i Hi].
  pose proof (placeLayerBucket_marks a w w' i symbolInstance Hhold Hrun Hi) as Hmarked.
  set (good := λ jp : JointPlacement.t,
    (text_allow_overlap (layout b) = true →
     icon_allow_overlap (layout b) = true ∨ hasIconData b = false
     ∨ icon_optional (layout b) = true →
     JointPlacement.text jp = true)
    ∧ (icon_allow_overlap (layout b) = true →
       text_allow_overlap (layout b) = true ∨ hasTextData b = false
       ∨ text_optional (layout b) = true →
       JointPlacement.icon jp = true)
    ∧ (justReloaded b = true → JointPlacement.skipFade jp = true)).
  assert (wp (placeLayerBucket a)
            (λ _ w2, ∀ k, truthy (seenCrossTileIDs w !! k) = false →
                          truthy (seenCrossTileIDs w2 !! k) = true →
                          ∃ jp, placements (this (core w2)) !! k = Some jp ∧ good jp)
            (λ _ _, True) w) as Hwp.
  { unfold placeLayerBucket. apply wp_bind, wp_liftCore, wp_placeLayerBucketLocals.
    intros l groups _ _ HshowText HshowIcon. fold b in HshowText, HshowIcon.
    apply wp_bind, wp_read. apply wp_bind.
    eapply wp_mono;
      [apply (wp_forRange _ _
                (λ _ w2, justReloaded (bucket (core w2)) = justReloaded b
                         ∧ ∀ k, truthy (seenCrossTileIDs w !! k) = false →
                                truthy (seenCrossTileIDs w2 !! k) = true →
                                ∃ jp, placements (this (core w2)) !! k = Some jp
                                      ∧ good jp)
                (λ _ _, True))
      | | done].
    - cbn. split; [by destruct (collisionArrays _), (collisionBoxArray a)|].
      intros k Hk0 Hk. congruence.
    - intros i' w2 _ [Hreloaded Hgood]. unfold placeSymbolInstance.
      wp_steps; try done; try congruence.
      apply wp_liftCore, wp_resolveSymbolInstance. intros r c' Hframe Hresolved.
      destruct r as [[]|e]; [|done]. wp_step. cbn.
      pose proof (labelFrame_bucket _ _ _ Hframe) as (_ & _ & _ & Hreloaded' & _).
      split; [congruence|]. intros k Hk0 Hk.
      destruct Hresolved as (_ & _ & _ & jp & Hplacements & Htext & Hicon & Hskip & _).
      rewrite lookup_insert in Hk. case_decide as Hid.
      + subst k. exists jp. rewrite Hplacements, lookup_insert_eq. split; [done|].
        split; [|split].
        * intros Htext' Hor. apply Htext. rewrite HshowText, Htext'. cbn.
          destruct Hor as [->| [->| ->]]; cbn; [done| |]; by rewrite ?orb_true_r.
        * intros Hicon' Hor. apply Hicon. rewrite HshowIcon, Hicon'. cbn.
          destruct Hor as [->| [->| ->]]; cbn; [done| |]; by rewrite ?orb_true_r.
        * intros Hb. apply Hskip. congruence.
      + destruct (Hgood k Hk0 Hk) as (jp' & Hjp' & Hgood').
        exists jp'. split; [|done].
        destruct (labelFrame_elsewhere _ _ _ k Hframe) as [-> _]; [congruence | done].
    - intros [] w2 [_ Hgood]. lazy beta. apply wp_liftCore. by wp_step. }
  apply (wp_returned _ _ _ _ _ _ Hwp Hrun); [exact Hunseen|].
  by apply truthy_Some_true.
Qed.

(** X13. A pass over a bucket of a tile that is not held for fade has
    returned.  Then for every symbol instance of the bucket whose
    crossTileID was not marked seen when the pass began, the placements
    hold a JointPlacement for the crossTileID: its text is true if the
    layout allows text to overlap and icons to overlap too, or the bucket
    has no icon data, or icons are optional; its icon is true under the
    mirrored condition; and its skipFade is true if the bucket was just
    reloaded when the pass began. *)
Theorem placeLayerBucket_records a w w' symbolInstance :
  let id := SymbolInstance.crossTileID symbolInstance in
  let b := bucket (core w) in
  holdingForFade a = false →
  placeLayerBucket a w = (Return (), w') →
  symbolInstance ∈ symbolInstances b →
  truthy (seenCrossTileIDs w !! id) = false →
  ∃ jointPlacement,
    placements (this (core w')) !! id = Some jointPlacement
    ∧ (text_allow_overlap (layout b) = true →
       icon_allow_overlap (layout b) = true ∨ hasIconData b = false
       ∨ icon_optional (layout b) = true →
       JointPlacement.text jointPlacement = true)
    ∧ (icon_allow_overlap (layout b) = true →
       text_allow_overlap (layout b) = true ∨ hasTextData b = false
       ∨ text_optional (layout b) = true →
       JointPlacement.icon jointPlacement = true)
    ∧ (justReloaded b = true → JointPlacement.skipFade jointPlacement = true).
Proof. exact (placeLayerBucket_recorded a w w' symbolInstance). Qed.

(** One turn of the loop in a tile held for fade, seen from one key. *)
Lemma holding_turn_lookup (seen : gmap N bool) (instances : list SymbolInstance.t) i si
    (before after : gmap N JointPlacement.t) k :
  instances !! i = Some si →
  after !! k =
    (if bool_decide (k ∈ SymbolInstance.crossTileID <$> take i instances
                     ∧ truthy (seen !! k) = false)
     then Some (JointPlacement.mk false false false) else before !! k) →
  (if truthy (seen !! SymbolInstance.crossTileID si) then after
   else <[SymbolInstance.crossTileID si := JointPlacement.mk false false false]> after)
    !! k =
    if bool_decide (k ∈ SymbolInstance.crossTileID <$> take (S i) instances
                    ∧ truthy (seen !! k) = false)
    then Some (JointPlacement.mk false false false) else before !! k.
Proof.
  intros Hsi Hafter. rewrite (take_S_r _ _ _ Hsi), fmap_app. cbn [fmap list_fmap].
  destruct (decide (k = SymbolInstance.crossTileID si)) as [->|Hne].
  - destruct (truthy (seen !! SymbolInstance.crossTileID si)) eqn:Hseen.
    + rewrite Hafter. repeat case_bool_decide; try done.
      all: match goal with Hyes : _ ∧ _ |- _ => destruct Hyes as [_ ?]; congruence end.
    + rewrite lookup_insert_eq, bool_decide_eq_true_2; [done|]. split; [|done].
      apply elem_of_app. right. by apply list_elem_of_singleton.
  - assert ((if truthy (seen !! SymbolInstance.crossTileID si) then after
             else <[SymbolInstance.crossTileID si := JointPlacement.mk false false false]>
                    after) !! k = after !! k) as ->.
    { destruct (truthy (seen !! SymbolInstance.crossTileID si)); [reflexivity|].
      by rewrite lookup_insert_ne. }
    rewrite Hafter. erewrite bool_decide_ext; [done|].
    split; intros [Hin Hunseen]; (split; [|done]).
    + apply elem_of_app. by left.
    + apply elem_of_app in Hin as [Hin|Hin%list_elem_of_singleton]; done.
Qed.

(** X14. A pass over a bucket of a tile held for fade returns, from every
    state.  It records "not placed" for the crossTileIDs of the symbol
    instances of the bucket that are not marked seen and leaves every
    other placement as it was; it changes no seen mark, no dynamic offset,
    nothing of the collision index and nothing of the placed-symbol
    array. *)
Theorem placeLayerBucket_holding a w :
  holdingForFade a = true →
  ∃ w', placeLayerBucket a w = (Return (), w')
    ∧ seenCrossTileIDs w' = seenCrossTileIDs w
    ∧ collisionIndex (this (core w')) = collisionIndex (this (core w))
    ∧ dynamicOffsets (this (core w')) = dynamicOffsets (this (core w))
    ∧ placedSymbolArray (bucket (core w')) = placedSymbolArray (bucket (core w))
    ∧ ∀ k, placements (this (core w')) !! k =
        if bool_decide (k ∈ SymbolInstance.crossTileID
                              <$> symbolInstances (bucket (core w))
                        ∧ truthy (seenCrossTileIDs w !! k) = false)
        then Some (JointPlacement.mk false false false)
        else placements (this (core w)) !! k.
Proof.
  intros Hhold.
  set (instances := symbolInstances (bucket (core w))).
  set (held := λ (n : nat) (w2 : World),
    seenCrossTileIDs w2 = seenCrossTileIDs w
    ∧ collisionIndex (this (core w2)) = collisionIndex (this (core w))
    ∧ dynamicOffsets (this (core w2)) = dynamicOffsets (this (core w))
    ∧ placedSymbolArray (bucket (core w2)) = placedSymbolArray (bucket (core w))
    ∧ symbolInstances (bucket (core w2)) = instances
    ∧ ∀ k, placements (this (core w2)) !! k =
        if bool_decide (k ∈ SymbolInstance.crossTileID <$> take n instances
                        ∧ truthy (seenCrossTileIDs w !! k) = false)
        then Some (JointPlacement.mk false false false)
        else placements (this (core w)) !! k).
  assert (wp (placeLayerBucket a) (λ _, held (length instances)) (λ _ _, False) w)
    as Hrun.
  { unfold placeLayerBucket. apply wp_bind, wp_liftCore, wp_placeLayerBucketLocals.
    intros l groups _ _ _ _.
    match goal with |- context [set_bucket ?b1 _] => set (afterLocals := b1) end.
    assert (symbolInstances afterLocals = instances
            ∧ placedSymbolArray afterLocals = placedSymbolArray (bucket (core w)))
      as [Hinstances1 Harray1]
      by (unfold afterLocals; by destruct (collisionArrays _), (collisionBoxArray a)).
    apply wp_bind, wp_read. apply wp_bind. cbn [core bucket set_bucket].
    rewrite Hinstances1.
    eapply wp_mono; [apply (wp_forRange _ _ held (λ _ _, False)) | | done].
    - by repeat split.
    - intros i w2 Hi (Hseen & Hindex & Hoffsets & Harray & Hinstances & Hplacements).
      unfold placeSymbolInstance; wp_steps; try done; try congruence.
      all: try match goal with Hnone : _ !! _ = None |- _ =>
                 rewrite Hinstances in Hnone; apply lookup_ge_None in Hnone; lia end.
      all: match goal with Hsi : _ !! _ = Some _ |- _ => rewrite Hinstances in Hsi end.
      all: try (apply wp_liftCore; wp_step; cbn).
      all: repeat split; try done.
      all: intros k; specialize (Hplacements k).
      all: match goal with Hsi : _ !! _ = Some _ |- _ =>
             pose proof (holding_turn_lookup (seenCrossTileIDs w) _ _ _ _ _ _
                           Hsi Hplacements) as Hstep end.
      all: rewrite Hseen in *.
      all: match goal with
           | Hmark : negb _ = true |- _ => apply negb_true_iff in Hmark
           | Hmark : negb _ = false |- _ => apply negb_false_iff in Hmark
           end.
      all: match goal with Hmark : truthy _ = _ |- _ => rewrite Hmark in Hstep end.
      all: exact Hstep.
    - intros [] w2 Hheld. lazy beta. apply wp_liftCore. wp_step. cbn.
      destruct Hheld as (? & ? & ? & ? & ? & ?). by repeat split. }
  apply wp_returns in Hrun as ([] & w' & Hrun & Hheld). exists w'.
  destruct Hheld as (Hseen & Hindex & Hoffsets & Harray & _ & Hplacements).
  rewrite firstn_all in Hplacements. done.
Qed.

End PassFacts.

(** ** What a turn of the loop inserts, and the anchor it attempts first *)

Section TurnFacts.

Context `{Collaborators}.

Lemma featureIndex_default (o : option N) :
  (if truthyN o then default 0%N o else 0%N) = default 0%N o.
Proof. destruct o as [k|]; cbn; [|done]. by destruct (N.eqb_spec k 0). Qed.

Lemma combineTextAndIcon_only_withdraws textOptional' iconOptional' symbolInstance
    placeText placeIcon text' icon' :
  combineTextAndIcon textOptional' iconOptional' symbolInstance placeText placeIcon
  = (text', icon') →
  (text' = true → placeText = true) ∧ (icon' = true → placeIcon = true).
Proof.
  unfold combineTextAndIcon.
  set (iconWithoutText := (textOptional' || _)%bool).
  set (textWithoutIcon := (iconOptional' || _)%bool).
  destruct iconWithoutText, textWithoutIcon; cbn;
    intros [= <- <-]; split; intros Hplaced; try done;
    by apply andb_true_iff in Hplaced as [? ?].
Qed.

(** The text box placement answers "placed" only with boxes. *)
Lemma placeTextBox_placed a l si ca js c :
  wp (placeTextBox a l si ca js) (λ r _, r.2 = true → is_Some r.1) (λ _ _, True) c.
Proof.
  unfold placeTextBox, elements_of. wp_steps; try done.
  eapply wp_mono; [apply anchorsToAttempt_returns | | done].
  intros anchors c1 _. lazy beta. wp_steps.
  eapply wp_mono; [apply attemptAnchors_throws | | done].
  intros placed c2 _. lazy beta. wp_steps.
  eapply wp_mono; [apply keepPreviousOffset_returns | | done].
  intros [] c3 _. lazy beta. wp_steps. cbn. by intros ?%bool_decide_eq_true.
Qed.

Lemma wp_when_placed {A} (o : option A) (b : bool) (f : A → Core → Core)
    (Q : () → Core → Prop) E c :
  Q () (match o with Some x => if b then f x c else c | None => c end) →
  wp (match o with
      | Some x => if b then modify (f x) else mret ()
      | None => mret ()
      end) Q E c.
Proof. by destruct o, b. Qed.

Lemma resolveSymbolInstance_inserts a l i symbolInstance c :
  wp (resolveSymbolInstance a l i symbolInstance)
    (λ _ c',
       ∃ collisionArrays' placedGlyphBoxes placedIconBoxes placedGlyphCircles
         placeText placeIcon skipFade,
         (arr ← collisionArrays (bucket c); arr !! i) = Some collisionArrays'
         ∧ placements (this c')
           = <[SymbolInstance.crossTileID symbolInstance :=
                 JointPlacement.mk (placeText || alwaysShowText l)
                   (placeIcon || alwaysShowIcon l) skipFade]> (placements (this c))
         ∧ collisionIndex (this c')
           = insertPlaced l (layout (bucket c)) (bucketInstanceId (bucket c))
               collisionArrays' placedGlyphBoxes placedIconBoxes placedGlyphCircles
               placeText placeIcon (collisionIndex (this c))
         ∧ placedIconBoxes
           = (iconBox' ← iconBox collisionArrays';
              Some (placeCollisionBox (collisionIndex (this c)) iconBox'
                      (icon_allow_overlap (layout (bucket c))) (textPixelRatio a)
                      (posMatrix a) (predicate (collisionGroup l))))
         ∧ (placeText = true → is_Some placedGlyphBoxes ∨ is_Some placedGlyphCircles)
         ∧ (placeIcon = true →
              ∃ placed, placedIconBoxes = Some placed ∧ PlacedBox.box placed ≠ []))
    (λ _ _, True) c.
Proof.
  unfold resolveSymbolInstance.
  wp_step. wp_step. wp_step. wp_step. wp_step. wp_step; [|done].
  wp_step.
  eapply wp_mono;
    [exact (wp_and _ _ _ _ _ _
              (preserves_wp (textBoxFrame _) _ c (placeTextBox_textBoxFrame _ _ _ _ _))
              (placeTextBox_placed a l symbolInstance _ (instancesOf symbolInstance) c))
    | | done].
  intros [placedGlyphBoxes placeText] c1 (Hframe%textBoxFrame_kept & Hboxes).
  destruct Hframe as (Hplacements & Hindex & HinstanceId & HjustReloaded & Harrays).
  lazy beta iota. rewrite !featureIndex_default. cbn [fst snd] in Hboxes.
  apply wp_bind.
  match goal with |- wp _ (λ r c', wp (@?K r) ?Q ?E c') _ _ =>
    assert (∀ r : option PlacedCircles.t * bool * bool,
              (r.1.2 = true → is_Some placedGlyphBoxes ∨ is_Some r.1.1) →
              wp (K r) Q E c1) as Hcircles
  end.
  2: { destruct (textCircles a0) as [textCircles'|].
       - apply wp_bind, wp_read.
         match goal with |- wp (mret ?v) _ _ _ => apply wp_ret, (Hcircles v) end.
         intros _. right. by eexists.
       - match goal with |- wp (mret ?v) _ _ _ => apply wp_ret, (Hcircles v) end.
         intros Hplaced. left. by apply Hboxes. }
  intros [[placedGlyphCircles placeText'] offscreen] Htext. cbn [fst snd] in Htext.
  lazy beta iota. apply wp_bind.
  match goal with |- wp _ (λ r c', wp (@?K r) ?Q ?E c') _ _ =>
    assert (∀ r : option PlacedBox.t * bool * bool,
              r.1.1 = (iconBox' ← iconBox a0;
                       Some (placeCollisionBox (collisionIndex (this c)) iconBox'
                               (icon_allow_overlap (layout (bucket c)))
                               (textPixelRatio a) (posMatrix a)
                               (predicate (collisionGroup l)))) →
              (r.1.2 = true → ∃ placed, r.1.1 = Some placed ∧ PlacedBox.box placed ≠ []) →
              wp (K r) Q E c1) as Hicon
  end.
  2: { destruct (iconBox a0) as [iconBox'|].
       - apply wp_bind, wp_read.
         match goal with |- wp (mret ?v) _ _ _ => apply wp_ret, (Hicon v) end.
         + cbn. by rewrite Hindex.
         + cbn [fst snd]. intros Hlength. eexists. split; [done|].
           intros Hempty. rewrite Hempty in Hlength. done.
       - match goal with |- wp (mret ?v) _ _ _ => apply wp_ret, (Hicon v) end; done. }
  intros [[placedIconBoxes placeIcon] offscreen'] Hfound Hicon.
  cbn [fst snd] in Hfound, Hicon.
  lazy beta iota.
  destruct (combineTextAndIcon _ _ _ _ _) as [placeText'' placeIcon''] eqn:Hcombine.
  apply combineTextAndIcon_only_withdraws in Hcombine as [Htext'' Hicon''].
  apply wp_bind, wp_read.
  apply wp_bind, wp_when_placed. apply wp_bind, wp_when_placed.
  apply wp_bind, wp_when_placed.
  apply wp_bind, wp_assert; [intros _ | done].
  apply wp_bind, wp_assert; [intros _ | done].
  apply wp_modify.
  exists a0, placedGlyphBoxes, placedIconBoxes, placedGlyphCircles,
    placeText'', placeIcon''.
  eexists. split; [done|]. split; [|split; [|auto]].
  - clear Hfound Hicon.
    destruct placedGlyphBoxes, placedIconBoxes, placedGlyphCircles,
      placeText'', placeIcon''; cbn; by rewrite Hplacements.
  - unfold insertPlaced. rewrite HinstanceId, <- Hindex. clear Hfound Hicon.
    by destruct placedGlyphBoxes, placedIconBoxes, placedGlyphCircles,
      placeText'', placeIcon''.
Qed.


(** *** The anchor of the previous placement *)




(** *** The arrays held by reference *)

#[local] Instance arraysKept_preorder : PreOrder arraysKept.
Proof.
  split; [by intros c r|].
  intros c1 c2 c3 H12 H23 r Hr. rewrite H23, H12; [done..|].
  by rewrite H12.
Qed.








(** C2. Two buckets of one sweep carry a symbol instance with the same
    crossTileID, and the tile of the first is not held for fade.  A turn of
    the loop that meets the crossTileID while it is not yet marked runs the
    resolution and marks it.  The resolution records a placement for it and
    leaves the collision index with what lines 496-507 insert: the text box
    if the text is placed, the icon box if the icon is placed, the text
    circles if the text is placed.  The icon box is the answer of the
    collision index for the icon's collision box, and the icon counts as
    placed only if that answer is not empty; the text counts as placed only
    with an answer for its box or its circles; and when neither text nor
    icon is placed the collision index is left as it was.  Once
    placeLayerBucket has returned for the first bucket the crossTileID is
    marked; and in the second bucket, which shares seenCrossTileIDs, the
    turn of the loop for the instance with that crossTileID returns at once
    and leaves the whole state (collision index, placements, dynamic
    offsets, bucket, shared map) as it found it: nothing is placed and
    nothing is inserted for it. *)
Theorem duplicate_resolved_once a1 a2 w0 w1 b2 i1 i2 s1 s2 :
  holdingForFade a1 = false →
  placeLayerBucket a1 w0 = (Return (), w1) →
  symbolInstances (bucket (core w0)) !! i1 = Some s1 →
  symbolInstances b2 !! i2 = Some s2 →
  SymbolInstance.crossTileID s2 = SymbolInstance.crossTileID s1 →
  (∀ l w w', symbolInstances (bucket (core w)) !! i1 = Some s1 →
     seenCrossTileIDs w !! SymbolInstance.crossTileID s1 ≠ Some true →
     placeSymbolInstance a1 l i1 w = (Return (), w') →
     resolveSymbolInstance a1 l i1 s1 (core w) = (Return (), core w')
     ∧ seenCrossTileIDs w' !! SymbolInstance.crossTileID s1 = Some true
     ∧ ∃ collisionArrays' placedGlyphBoxes placedIconBoxes placedGlyphCircles
         placeText placeIcon skipFade,
         (arr ← collisionArrays (bucket (core w)); arr !! i1) = Some collisionArrays'
         ∧ placements (this (core w'))
           = <[SymbolInstance.crossTileID s1 :=
                 JointPlacement.mk (placeText || alwaysShowText l)
                   (placeIcon || alwaysShowIcon l) skipFade]>
               (placements (this (core w)))
         ∧ collisionIndex (this (core w'))
           = insertPlaced l (layout (bucket (core w))) (bucketInstanceId (bucket (core w)))
               collisionArrays' placedGlyphBoxes placedIconBoxes placedGlyphCircles
               placeText placeIcon (collisionIndex (this (core w)))
         ∧ placedIconBoxes
           = (iconBox' ← iconBox collisionArrays';
              Some (placeCollisionBox (collisionIndex (this (core w))) iconBox'
                      (icon_allow_overlap (layout (bucket (core w))))
                      (textPixelRatio a1) (posMatrix a1) (predicate (collisionGroup l))))
         ∧ (placeText = true → is_Some placedGlyphBoxes ∨ is_Some placedGlyphCircles)
         ∧ (placeIcon = true →
              ∃ placed, placedIconBoxes = Some placed ∧ PlacedBox.box placed ≠ [])
         ∧ (placeText = false → placeIcon = false →
              collisionIndex (this (core w')) = collisionIndex (this (core w))))
  ∧ seenCrossTileIDs w1 !! SymbolInstance.crossTileID s1 = Some true
  ∧ ∀ l2 w2 w3,
      liftCore (placeLayerBucketLocals a2) (withBucket b2 w1) = (Return l2, w2) →
      forRange 0 i2 (placeSymbolInstance a2 l2) w2 = (Return (), w3) →
      placeSymbolInstance a2 l2 i2 w3 = (Return (), w3).
Proof.
  intros Hhold Hfirst Hs1 Hs2 Hid.
  pose proof (placeLayerBucket_marks _ _ _ _ _ Hhold Hfirst Hs1) as Hmarked.
  split; [|split; [exact Hmarked|]].
  - intros l w w' Hi Hunseen Hturn.
    rewrite (placeSymbolInstance_unseen _ _ _ _ _ Hi Hhold Hunseen) in Hturn.
    destruct (resolveSymbolInstance a1 l i1 s1 (core w)) as [[[]|e] c] eqn:Hresolve;
      [|done].
    injection Hturn as <-; cbn [core seenCrossTileIDs]. split; [done|].
    split; [apply lookup_insert_eq|].
    destruct (wp_returned _ _ _ _ _ _ (resolveSymbolInstance_inserts a1 l i1 s1 (core w))
                Hresolve)
      as (collisionArrays' & placedGlyphBoxes & placedIconBoxes & placedGlyphCircles
          & placeText & placeIcon & skipFade & Hentry & Hplacements & Hindex & Hfound
          & Htext & Hicon).
    exists collisionArrays', placedGlyphBoxes, placedIconBoxes, placedGlyphCircles,
      placeText, placeIcon, skipFade.
    repeat (split; [done|]).
    intros -> ->. rewrite Hindex. unfold insertPlaced.
    by destruct placedGlyphBoxes, placedIconBoxes, placedGlyphCircles.
  - intros l2 w2 w3 Hlocals Hloop.
    pose proof (liftCore_sweepOrder _ (placeLayerBucketLocals_sameSymbols a2)
                  (withBucket b2 w1)) as [Hsame Hkeep].
    rewrite Hlocals in Hsame, Hkeep; cbn in Hsame, Hkeep. unfold sameSymbols in Hsame.
    pose proof (forRange_sweepOrder a2 l2 0 i2 w2) as [Hsame' Hkeep'].
    rewrite Hloop in Hsame', Hkeep'; cbn in Hsame', Hkeep'. unfold sameSymbols in Hsame'.
    apply (placeSymbolInstance_seen _ _ _ _ s2).
    + by rewrite Hsame', Hsame.
    + rewrite Hid. auto.
Qed.



End TurnFacts.

(** ** commit and the fade clock *)

Section CommitFacts.

Context `{Collaborators}.

Lemma changed_foldl {V} (turn : N → V → CommitFrame → CommitFrame)
    (g : N → V → option JointOpacityState.t → bool) (l : list (N * V)) :
  (∀ k v f, placementChanged (turn k v f)
            = placementChanged f || g k v (opacities (self f) !! k)) →
  (∀ k v f k', k ≠ k' →
     opacities (self (turn k v f)) !! k' = opacities (self f) !! k') →
  NoDup l.*1 →
  ∀ f, placementChanged (foldl (λ f entry, turn entry.1 entry.2 f) f l) = true
       ↔ placementChanged f = true
         ∨ ∃ k v, (k, v) ∈ l ∧ g k v (opacities (self f) !! k) = true.
Proof.
  intros Hchanged Hframe. induction l as [|[k0 v0] l IH]; intros Hnodup f.
  - cbn. split; [by left|]. intros [?|(k & v & []%elem_of_nil & _)]. done.
  - apply NoDup_cons in Hnodup as [Hfresh Hnodup]. cbn [foldl fst snd].
    rewrite (IH Hnodup), Hchanged, orb_true_iff.
    assert (∀ k v, (k, v) ∈ l →
              opacities (self (turn k0 v0 f)) !! k = opacities (self f) !! k) as Hother.
    { intros k v Hin. apply Hframe. intros ->. apply Hfresh.
      apply list_elem_of_fmap. by exists (k, v). }
    split.
    + intros [[?|?]|(k & v & Hin & Hg)]; [by left | right | right].
      * exists k0, v0. split; [left | done].
      * exists k, v. split; [by right|]. by rewrite <- (Hother k v Hin).
    + intros [?|(k & v & Hin & Hg)]; [by left; left|].
      apply elem_of_cons in Hin as [[= -> ->]|Hin]; [by left; right|].
      right. exists k, v. split; [done|]. by rewrite (Hother k v Hin).
Qed.

(** The three loops of [commit], seen from [placementChanged]. *)
Lemma placedTurn_changed prevOpacities increment k jp f :
  placementChanged (placedTurn prevOpacities increment k jp f)
  = placementChanged f || placedChange prevOpacities k jp.
Proof.
  unfold placedTurn, commitPlaced, modify, placedChange; cbn.
  destruct (prevOpacities !! k); cbn; by rewrite <- ?orb_assoc.
Qed.

Lemma fadingTurn_changed increment k po f :
  placementChanged (fadingTurn increment k po f)
  = placementChanged f
    || (bool_decide (opacities (self f) !! k = None)
        && negb (JointOpacityState.isHidden
                   (JointOpacityState.new (Some po) increment false false None))
        && (OpacityState.placed (JointOpacityState.text po)
            || OpacityState.placed (JointOpacityState.icon po))).
Proof.
  unfold fadingTurn, commitFading, modify; cbn.
  destruct (opacities (self f) !! k); cbn; [by rewrite orb_false_r|].
  destruct (JointOpacityState.isHidden _); cbn; [by rewrite orb_false_r|].
  by rewrite <- orb_assoc.
Qed.

Lemma offsetsTurn_changed k po f :
  placementChanged (offsetsTurn k po f) = placementChanged f.
Proof.
  unfold offsetsTurn, commitOffsets, modify; cbn.
  destruct (dynamicOffsets (self f) !! k), (opacities (self f) !! k); try done.
  by destruct (negb _).
Qed.

Lemma offsets_foldl_changed (l : list (N * DynamicOffset)) f :
  placementChanged (foldl (λ f entry, offsetsTurn entry.1 entry.2 f) f l)
  = placementChanged f.
Proof.
  revert f. induction l as [|[k v] l IH]; intros f; [done|].
  cbn [foldl]. rewrite IH. apply offsetsTurn_changed.
Qed.

Lemma placed_foldl_opacities prevOpacities increment (m : gmap N JointPlacement.t) f k :
  opacities (self (foldl (λ f entry, placedTurn prevOpacities increment entry.1 entry.2 f)
                     f (map_to_list m))) !! k
  = match m !! k with
    | Some jp => Some (placedOpacity prevOpacities increment k jp)
    | None => opacities (self f) !! k
    end.
Proof.
  rewrite (opacities_foldl (placedTurn _ _) (λ k jp _,
             Some (placedOpacity prevOpacities increment k jp)));
    [|apply placedTurn_opacities | apply NoDup_fst_map_to_list].
  by rewrite list_to_map_to_list.
Qed.

(** Whether the loops of [commit] found a change. *)
Lemma afterLoops_changed prevPlacement' now p :
  let increment := fadeIncrement prevPlacement' (set_commitTime now p) in
  let prevOpacities := from_option opacities ∅ prevPlacement' in
  placementChanged (afterLoops prevPlacement' now p) = true
  ↔ (∃ k jp, placements p !! k = Some jp ∧ placedChange prevOpacities k jp = true)
    ∨ (∃ k po, prevOpacities !! k = Some po ∧ fadingChange increment p k po = true).
Proof.
  intros increment prevOpacities. unfold afterLoops.
  fold increment. fold prevOpacities.
  rewrite offsets_foldl_changed.
  rewrite (changed_foldl (fadingTurn increment) (λ k po o,
             bool_decide (o = None)
             && negb (JointOpacityState.isHidden
                        (JointOpacityState.new (Some po) increment false false None))
             && (OpacityState.placed (JointOpacityState.text po)
                 || OpacityState.placed (JointOpacityState.icon po))));
    [ | apply fadingTurn_changed
      | intros k v f k' Hne; rewrite fadingTurn_opacities; by case_decide
      | apply NoDup_fst_map_to_list ].
  rewrite (changed_foldl (placedTurn prevOpacities increment)
             (λ k jp _, placedChange prevOpacities k jp));
    [ | apply placedTurn_changed
      | intros k v f k' Hne; rewrite placedTurn_opacities; by case_decide
      | apply NoDup_fst_map_to_list ].
  cbn [placementChanged].
  split.
  - intros [[?|(k & jp & Hin%elem_of_map_to_list & Hchange)]
           |(k & po & Hin%elem_of_map_to_list & Hchange)]; [done|left; eauto|].
    right. exists k, po. split; [done|]. unfold fadingChange.
    rewrite placed_foldl_opacities in Hchange. cbn [self] in Hchange.
    change (opacities (set_commitTime now p)) with (opacities p) in Hchange.
    destruct (placements p !! k) eqn:Hplaced; [done|].
    destruct (opacities p !! k) eqn:Hown; [done|].
    rewrite bool_decide_eq_true_2 by done.
    by rewrite bool_decide_eq_true_2 in Hchange by done.
  - intros [(k & jp & Hin & Hchange)|(k & po & Hin & Hchange)].
    + left. right. exists k, jp. by rewrite elem_of_map_to_list.
    + right. exists k, po. rewrite elem_of_map_to_list. split; [done|].
      unfold fadingChange in Hchange. rewrite placed_foldl_opacities. cbn [self].
      change (opacities (set_commitTime now p)) with (opacities p).
      apply andb_true_iff in Hchange as [[[Hplaced Hown]%bool_decide_eq_true
                                          Hvisible]%andb_true_iff Hwas].
      rewrite Hplaced, Hown. rewrite bool_decide_eq_true_2 by done.
      by rewrite Hvisible, Hwas.
Qed.

(** The run of [commit] in terms of the frame its loops leave. *)
Lemma commit_run prevPlacement' now p :
  commit prevPlacement' now p =
    let f := afterLoops prevPlacement' now p in
    if from_option (λ prev, bool_decide (is_Some (lastPlacementChangeTime prev)))
         true prevPlacement'
    then (Return (),
          if placementChanged f then set_lastPlacementChangeTime (Some now) (self f)
          else if negb (bool_decide (is_Some (lastPlacementChangeTime (self f))))
          then set_lastPlacementChangeTime
                 (match prevPlacement' with
                  | Some prev => lastPlacementChangeTime prev
                  | None => Some now
                  end) (self f)
          else self f)
    else (Throw AssertionError, self f).
Proof.
  unfold commit, commitFrame, forIn.
  unfold mbind at 1 2 3 4 5 6 7, M_bind, read, modify at 1. cbn [self placementChanged].
  rewrite forEach_commitPlaced, forEach_commitFading, forEach_commitOffsets.
  fold (afterLoops prevPlacement' now p). cbn zeta.
  unfold assert. destruct (from_option _ _ _); [|done].
  unfold mret, M_ret, modify; cbn.
  destruct (placementChanged _); [done|]. by destruct (negb _).
Qed.

#[local] Instance commitKeeps_preorder : PreOrder commitKeeps.
Proof.
  split; [done|]. intros f1 f2 f3. unfold commitKeeps. intros H12 H23.
  destruct_and!. repeat split; congruence.
Qed.

Lemma commitFrame_commitKeeps prevPlacement' now :
  preserves commitKeeps (commitFrame prevPlacement' now).
Proof.
  unfold commitFrame, forIn, commitPlaced, commitFading, commitOffsets.
  preserving; try done.
  all: repeat case_match; done.
Qed.

Lemma commit_commitKeeps prevPlacement' now p :
  commitKeeps {| self := p; placementChanged := false |}
    {| self := (commit prevPlacement' now p).2; placementChanged := false |}.
Proof.
  unfold commit.
  pose proof (commitFrame_commitKeeps prevPlacement' now
                {| self := p; placementChanged := false |}) as Hkeeps.
  by destruct (commitFrame _ _ _) as [r f].
Qed.

Lemma afterLoops_times prevPlacement' now p :
  commitTime (self (afterLoops prevPlacement' now p)) = now
  ∧ lastPlacementChangeTime (self (afterLoops prevPlacement' now p))
    = lastPlacementChangeTime p.
Proof.
  unfold afterLoops.
  set (f0 := {| self := set_commitTime now p; placementChanged := false |}).
  assert (∀ {V} (turn : N → V → CommitFrame → CommitFrame) (l : list (N * V)) f,
            (∀ k v f, commitTime (self (turn k v f)) = commitTime (self f)
                      ∧ lastPlacementChangeTime (self (turn k v f))
                        = lastPlacementChangeTime (self f)) →
            commitTime (self (foldl (λ f entry, turn entry.1 entry.2 f) f l))
            = commitTime (self f)
            ∧ lastPlacementChangeTime
                (self (foldl (λ f entry, turn entry.1 entry.2 f) f l))
              = lastPlacementChangeTime (self f)) as Hfold.
  { intros V turn l. induction l as [|[k v] l IH]; intros f Hturn; [done|].
    cbn [foldl fst snd]. destruct (IH (turn k v f) Hturn) as [-> ->]. apply Hturn. }
  destruct (Hfold _ offsetsTurn
              (map_to_list (from_option dynamicOffsets ∅ prevPlacement'))
              (foldl (λ f entry, fadingTurn
                        (fadeIncrement prevPlacement' (set_commitTime now p))
                        entry.1 entry.2 f)
                 (foldl (λ f entry, placedTurn (from_option opacities ∅ prevPlacement')
                           (fadeIncrement prevPlacement' (set_commitTime now p))
                           entry.1 entry.2 f) f0 (map_to_list (placements p)))
                 (map_to_list (from_option opacities ∅ prevPlacement'))))
    as [-> ->].
  { intros k v f. unfold offsetsTurn, commitOffsets, modify; cbn.
    destruct (dynamicOffsets (self f) !! k), (opacities (self f) !! k); try done.
    by destruct (negb _). }
  destruct (Hfold _ (fadingTurn (fadeIncrement prevPlacement' (set_commitTime now p)))
              (map_to_list (from_option opacities ∅ prevPlacement'))
              (foldl (λ f entry, placedTurn (from_option opacities ∅ prevPlacement')
                        (fadeIncrement prevPlacement' (set_commitTime now p))
                        entry.1 entry.2 f) f0 (map_to_list (placements p))))
    as [-> ->].
  { intros k v f. unfold fadingTurn, commitFading, modify; cbn.
    destruct (opacities (self f) !! k); try done. by destruct (negb _). }
  destruct (Hfold _ (placedTurn (from_option opacities ∅ prevPlacement')
                       (fadeIncrement prevPlacement' (set_commitTime now p)))
              (map_to_list (placements p)) f0) as [-> ->]; [|done].
  intros k v f. unfold placedTurn, commitPlaced, modify; cbn.
  by destruct (from_option opacities ∅ prevPlacement' !! k).
Qed.

(** X15. For every commit, from every placement.  It returns unless it is
    given a previous placement whose time of the last placement change is
    undefined (one that was never committed); when it returns, the commit
    time is now and the time of the last placement change is defined.
    Otherwise it throws an AssertionError, after its writes: the commit
    time is now, and the time of the last placement change is as it was.
    Either way the transform, the collision index, the placements, the
    stale flag, the fade duration, the collision groups and the
    predecessor of the placement are as they were. *)
Theorem commit_outcome prevPlacement' now p :
  match commit prevPlacement' now p with
  | (Return _, p') =>
      (∀ prev, prevPlacement' = Some prev → is_Some (lastPlacementChangeTime prev))
      ∧ commitTime p' = now
      ∧ is_Some (lastPlacementChangeTime p')
  | (Throw e, p') =>
      e = AssertionError
      ∧ (∃ prev, prevPlacement' = Some prev ∧ lastPlacementChangeTime prev = None)
      ∧ commitTime p' = now
      ∧ lastPlacementChangeTime p' = lastPlacementChangeTime p
  end
  ∧ let p' := (commit prevPlacement' now p).2 in
    transform p' = transform p
    ∧ collisionIndex p' = collisionIndex p
    ∧ placements p' = placements p
    ∧ stale p' = stale p
    ∧ fadeDuration p' = fadeDuration p
    ∧ collisionGroups p' = collisionGroups p
    ∧ prevPlacement p' = prevPlacement p.
Proof.
  split; [|apply commit_commitKeeps].
  rewrite commit_run. cbn zeta.
  destruct (afterLoops_times prevPlacement' now p) as [Htime Hlast].
  destruct prevPlacement' as [prev|]; cbn [from_option].
  - case_bool_decide as Hprev.
    + split; [by intros ? [= <-]|].
      destruct (placementChanged _); [by split; [|eexists]|].
      case_bool_decide as Hown; cbn [negb]; [done|]. done.
    + split; [done|]. split; [|done]. exists prev. split; [done|].
      by destruct (lastPlacementChangeTime prev); [destruct Hprev; eexists|].
  - split; [done|].
    destruct (placementChanged _); [by split; [|eexists]|].
    case_bool_decide as Hown; cbn [negb]; [done|]. by split; [|eexists].
Qed.

(** X16. A placement for which commit has returned is accepted as the
    previous placement of every later commit: that commit returns, whatever
    its placement and its time. *)
Theorem commit_accepts_committed prevPlacement' now p committed' now' next :
  commit prevPlacement' now p = (Return (), committed') →
  ∃ next', commit (Some committed') now' next = (Return (), next').
Proof.
  intros Hrun. rewrite commit_run in Hrun. cbn zeta in Hrun.
  assert (is_Some (lastPlacementChangeTime committed')) as Hdefined.
  { destruct (from_option _ _ _) eqn:Hprev; [|done]. injection Hrun as <-.
    destruct (placementChanged _); [by eexists|].
    case_bool_decide as Hown; cbn [negb]; [done|].
    destruct prevPlacement' as [prev|]; cbn in *; [|by eexists].
    by apply bool_decide_eq_true in Hprev. }
  rewrite commit_run. cbn zeta. cbn [from_option].
  rewrite bool_decide_eq_true_2 by done. eauto.
Qed.

(** X17. The fade clock.  When commit returns, the time of the last
    placement change is now exactly if a label decided in this pass has a
    target that differs from that of its previous opacity state, or is new
    and placed, or a placed label of the previous placement is missing from
    this pass, has no opacity state yet and is still fading.  Otherwise the
    placement keeps the time it had; and if it had none it takes that of
    the previous placement, or now when there is no previous placement. *)
Theorem commit_change_time prevPlacement' now p p' :
  commit prevPlacement' now p = (Return (), p') →
  let increment :=
    match prevPlacement' with
    | Some prev =>
        if negb (strict_eq (fadeDuration p) 0)
        then ((now - commitTime prev) / fadeDuration p)%Q else 1%Q
    | None => 1%Q
    end in
  let prevOpacities := from_option opacities ∅ prevPlacement' in
  let changed :=
    (∃ k jp, placements p !! k = Some jp ∧ placedChange prevOpacities k jp = true)
    ∨ (∃ k po, prevOpacities !! k = Some po ∧ fadingChange increment p k po = true) in
  (changed → lastPlacementChangeTime p' = Some now)
  ∧ (¬ changed →
     lastPlacementChangeTime p' =
       match lastPlacementChangeTime p, prevPlacement' with
       | Some t, _ => Some t
       | None, Some prev => lastPlacementChangeTime prev
       | None, None => Some now
       end).
Proof.
  intros Hrun increment prevOpacities changed.
  pose proof (afterLoops_changed prevPlacement' now p) as Hchanged.
  rewrite fadeIncrement_explicit in Hchanged. cbn zeta in Hchanged.
  fold increment prevOpacities changed in Hchanged.
  destruct (afterLoops_times prevPlacement' now p) as [_ Hlast].
  rewrite commit_run in Hrun. cbn zeta in Hrun.
  destruct (from_option _ _ _); [|done]. injection Hrun as <-.
  destruct (placementChanged _).
  - split; [done|]. intros Hnot. destruct Hnot. by apply Hchanged.
  - split; [intros Hyes; apply Hchanged in Hyes; done|]. intros _.
    case_bool_decide as Hown; cbn [negb].
    + rewrite Hlast in Hown |- *. by destruct Hown as [t ->].
    + cbn. rewrite Hlast in Hown.
      destruct (lastPlacementChangeTime p); [by destruct Hown; eexists|done].
Qed.

Lemma offsetsTurn_offsets k po f k' :
  dynamicOffsets (self (offsetsTurn k po f)) !! k' =
    if decide (k = k') then
      match dynamicOffsets (self f) !! k, opacities (self f) !! k with
      | None, Some opacity =>
          if JointOpacityState.isHidden opacity then None else Some po
      | own, _ => own
      end
    else dynamicOffsets (self f) !! k'.
Proof.
  unfold offsetsTurn, commitOffsets, modify; cbn.
  destruct (dynamicOffsets (self f) !! k) eqn:Hown,
    (opacities (self f) !! k) as [opacity|] eqn:Hopacity.
  - case_decide; congruence.
  - case_decide; congruence.
  - destruct (JointOpacityState.isHidden opacity); cbn.
    + case_decide; congruence.
    + rewrite lookup_insert. by case_decide.
  - case_decide; congruence.
Qed.

Lemma offsets_foldl_offsets (l : list (N * DynamicOffset)) :
  NoDup l.*1 →
  ∀ f k,
    dynamicOffsets (self (foldl (λ f entry, offsetsTurn entry.1 entry.2 f) f l)) !! k =
      match dynamicOffsets (self f) !! k,
            (list_to_map l : gmap N DynamicOffset) !! k,
            opacities (self f) !! k with
      | None, Some po, Some opacity =>
          if JointOpacityState.isHidden opacity then None else Some po
      | own, _, _ => own
      end.
Proof.
  induction l as [|[k0 v0] l IH]; intros Hnodup f k.
  - cbn. by destruct (dynamicOffsets (self f) !! k).
  - apply NoDup_cons in Hnodup as [Hfresh Hnodup]. cbn [foldl fst snd].
    rewrite (IH Hnodup), offsetsTurn_opacities, offsetsTurn_offsets, list_to_map_cons,
      lookup_insert.
    destruct (decide (k0 = k)) as [->|Hne].
    + rewrite (not_elem_of_list_to_map_1 _ _ Hfresh).
      destruct (dynamicOffsets (self f) !! k), (opacities (self f) !! k) as [opacity|];
        try done.
      by destruct (JointOpacityState.isHidden opacity).
    + done.
Qed.

Lemma afterLoops_offsets prevPlacement' now p k :
  dynamicOffsets (self (afterLoops prevPlacement' now p)) !! k =
    match dynamicOffsets p !! k,
          from_option dynamicOffsets ∅ prevPlacement' !! k,
          opacities (self (afterLoops prevPlacement' now p)) !! k with
    | None, Some po, Some opacity =>
        if JointOpacityState.isHidden opacity then None else Some po
    | own, _, _ => own
    end.
Proof.
  unfold afterLoops.
  rewrite offsets_foldl_offsets by apply NoDup_fst_map_to_list.
  rewrite offsets_foldl_opacities, list_to_map_to_list.
  assert (∀ {V} (turn : N → V → CommitFrame → CommitFrame) (l : list (N * V)) f,
            (∀ k v f, dynamicOffsets (self (turn k v f)) = dynamicOffsets (self f)) →
            dynamicOffsets (self (foldl (λ f entry, turn entry.1 entry.2 f) f l))
            = dynamicOffsets (self f)) as Hfold.
  { intros V turn l. induction l as [|[k' v] l IH]; intros f Hturn; [done|].
    cbn [foldl fst snd]. rewrite (IH (turn k' v f) Hturn). apply Hturn. }
  rewrite !Hfold; [done| |].
  - intros k' v f. unfold placedTurn, commitPlaced, modify; cbn.
    by destruct (from_option opacities ∅ prevPlacement' !! k').
  - intros k' v f. unfold fadingTurn, commitFading, modify; cbn.
    destruct (opacities (self f) !! k'); try done. by destruct (negb _).
Qed.

Lemma commit_offsets_afterLoops prevPlacement' now p :
  dynamicOffsets (commit prevPlacement' now p).2
  = dynamicOffsets (self (afterLoops prevPlacement' now p)).
Proof.
  rewrite commit_run. cbn zeta. destruct (from_option _ _ _); [|done].
  cbn. destruct (placementChanged _); [done|]. by destruct (negb _).
Qed.

Lemma commit_offsets prevPlacement' now p k :
  dynamicOffsets (commit prevPlacement' now p).2 !! k =
    match dynamicOffsets p !! k with
    | Some offset => Some offset
    | None =>
        match opacities (commit prevPlacement' now p).2 !! k with
        | Some opacity =>
            if JointOpacityState.isHidden opacity then None
            else from_option dynamicOffsets ∅ prevPlacement' !! k
        | None => None
        end
    end.
Proof.
  rewrite commit_offsets_afterLoops, commit_opacities_afterLoops, afterLoops_offsets.
  destruct (dynamicOffsets p !! k); [done|].
  destruct (from_option dynamicOffsets ∅ prevPlacement' !! k),
    (opacities (self (afterLoops prevPlacement' now p)) !! k) as [opacity|]; try done.
  by destruct (JointOpacityState.isHidden opacity).
Qed.

(** X18. The dynamic offsets after commit, for every crossTileID and
    whether commit returns or throws.  An offset recorded by this pass
    stays.  A crossTileID without one takes the offset of the previous
    placement exactly if it has an opacity state after the commit and that
    state is not hidden; otherwise it has no offset. *)
Theorem commit_dynamicOffsets prevPlacement' now p k :
  dynamicOffsets (commit prevPlacement' now p).2 !! k =
    match dynamicOffsets p !! k with
    | Some offset => Some offset
    | None =>
        match opacities (commit prevPlacement' now p).2 !! k with
        | Some opacity =>
            if JointOpacityState.isHidden opacity then None
            else from_option dynamicOffsets ∅ prevPlacement' !! k
        | None => None
        end
    end.
Proof. exact (commit_offsets prevPlacement' now p k). Qed.

(** X19. A label has an opacity state in the previous placement whose text
    and icon are both not placed and of opacity at most 1 (it was fading
    out), and this pass has no placement, no opacity state and no dynamic
    offset for it.  A commit that comes a full fade duration or more after
    the previous commit, the fade duration being positive, drops the
    label: after it the label has no opacity state and no dynamic offset. *)
Theorem commit_drops_faded_label prev now p k prevOpacity :
  opacities prev !! k = Some prevOpacity →
  placements p !! k = None →
  opacities p !! k = None →
  dynamicOffsets p !! k = None →
  OpacityState.placed (JointOpacityState.text prevOpacity) = false →
  OpacityState.placed (JointOpacityState.icon prevOpacity) = false →
  (OpacityState.opacity (JointOpacityState.text prevOpacity) <= 1)%Q →
  (OpacityState.opacity (JointOpacityState.icon prevOpacity) <= 1)%Q →
  (0 < fadeDuration p)%Q →
  (commitTime prev + fadeDuration p <= now)%Q →
  opacities (commit (Some prev) now p).2 !! k = None
  ∧ dynamicOffsets (commit (Some prev) now p).2 !! k = None.
Proof.
  intros Hprev Hplaced Hown Hoffset Htext Hicon Htext1 Hicon1 Hduration Hlate.
  assert (opacities (commit (Some prev) now p).2 !! k = None) as Hdropped.
  { pose proof (commit_opacities (Some prev) now p k) as Hk. cbn zeta in Hk.
    rewrite Hplaced, Hown in Hk. cbn [from_option] in Hk. rewrite Hprev in Hk.
    rewrite fadeIncrement_explicit in Hk. rewrite Hk. clear Hk.
    cbn [mbind option_bind]. unfold fadingOpacity.
    rewrite (positive_duration_not_zero _ Hduration). cbn [negb].
    assert (JointOpacityState.isHidden
              (JointOpacityState.new (Some prevOpacity)
                 ((now - commitTime prev) / fadeDuration p) false false None)
            = true) as ->; [|done].
    assert (1 <= (now - commitTime prev) / fadeDuration p)%Q as Hfull.
    { apply Qle_shift_div_l; [done|]. lra. }
    assert (∀ o, (o <= 1)%Q →
              strict_eq (Math_max 0 (Math_min 1
                (o + - ((now - commitTime prev) / fadeDuration p)))) 0 = true) as Hzero.
    { intros o Ho. unfold strict_eq. apply Qeq_bool_iff.
      assert (o + - ((now - commitTime prev) / fadeDuration p) <= 0)%Q as Hneg.
      { set (increment := ((now - commitTime prev) / fadeDuration p)%Q) in *. lra. }
      unfold Math_max, Math_min.
      destruct (Qle_bool 1 _) eqn:Hone.
      - apply Qle_bool_iff in Hone. exfalso.
        apply (Qlt_not_le 0 1); [done | exact (Qle_trans _ _ _ Hone Hneg)].
      - destruct (Qle_bool 0 _) eqn:Hz; [|reflexivity].
        apply Qle_bool_iff in Hz. by apply Qle_antisym. }
    unfold JointOpacityState.isHidden, OpacityState.isHidden; cbn.
    rewrite Htext, Hicon. cbn. by rewrite !Hzero. }
  split; [done|].
  by rewrite commit_offsets, Hoffset, Hdropped.
Qed.

(** X20. The two placements have the same fade duration, a label is
    decided in this pass and has an opacity state in the previous
    placement.  Then commit advances that state by the fade change that
    the previous placement reports at the time of the commit
    (symbolFadeChange), toward the targets decided in this pass. *)
Theorem commit_advances_by_symbolFadeChange prev now p k jointPlacement prevOpacity :
  fadeDuration p = fadeDuration prev →
  placements p !! k = Some jointPlacement →
  opacities prev !! k = Some prevOpacity →
  opacities (commit (Some prev) now p).2 !! k
  = Some (JointOpacityState.new (Some prevOpacity) (symbolFadeChange now prev)
            (JointPlacement.text jointPlacement) (JointPlacement.icon jointPlacement)
            None).
Proof.
  intros Hduration Hplaced Hprev.
  rewrite commit_opacities, Hplaced. unfold placedOpacity. cbn [from_option].
  rewrite Hprev, fadeIncrement_explicit. unfold symbolFadeChange.
  rewrite Hduration. by destruct (strict_eq (fadeDuration prev) 0).
Qed.

(** X21. The fade clock at work.  A commit has returned, and a label
    decided in its pass has a target that differs from that of its previous
    opacity state, or is new and placed.  Then the placement has
    transitions at a later time exactly if it is stale or less than a fade
    duration has passed since the commit. *)
Theorem commit_starts_transition prevPlacement' now p p' k jointPlacement later :
  commit prevPlacement' now p = (Return (), p') →
  placements p !! k = Some jointPlacement →
  placedChange (from_option opacities ∅ prevPlacement') k jointPlacement = true →
  hasTransitions later p' = true
  ↔ stale p = true ∨ (later - now < fadeDuration p)%Q.
Proof.
  intros Hrun Hplaced Hchange.
  assert (placementChanged (afterLoops prevPlacement' now p) = true) as Hchanged
    by (apply afterLoops_changed; left; eauto).
  pose proof (commit_commitKeeps prevPlacement' now p) as Hkeeps.
  rewrite Hrun in Hkeeps. destruct Hkeeps as (_ & _ & _ & Hstale & Hduration & _).
  cbn in Hstale, Hduration.
  rewrite commit_run in Hrun. cbn zeta in Hrun.
  destruct (from_option _ _ _); [|done]. rewrite Hchanged in Hrun. injection Hrun as <-.
  unfold hasTransitions. cbn [lastPlacementChangeTime set_lastPlacementChangeTime].
  cbn in Hstale, Hduration. rewrite orb_true_iff, Qlt_bool_iff.
  cbn [stale fadeDuration set_lastPlacementChangeTime]. by rewrite Hstale, Hduration.
Qed.

(** X23. From a pass to the first commit.  A pass over a bucket that was
    just reloaded, in a tile not held for fade, has returned, and the
    previous placement (if any) has no opacity state for a label of the
    bucket that was not marked seen when the pass began.  Then commit gives
    the label an opacity state whose targets are those the pass decided and
    whose opacities are already final: 1 for what is placed and 0 for what
    is not, without a fade. *)
Theorem reloaded_label_skips_fade a w w' symbolInstance prevPlacement' now :
  let id := SymbolInstance.crossTileID symbolInstance in
  holdingForFade a = false →
  placeLayerBucket a w = (Return (), w') →
  symbolInstance ∈ symbolInstances (bucket (core w)) →
  truthy (seenCrossTileIDs w !! id) = false →
  justReloaded (bucket (core w)) = true →
  from_option opacities ∅ prevPlacement' !! id = None →
  ∃ jointPlacement opacity,
    placements (this (core w')) !! id = Some jointPlacement
    ∧ opacities (commit prevPlacement' now (this (core w'))).2 !! id = Some opacity
    ∧ OpacityState.placed (JointOpacityState.text opacity)
      = JointPlacement.text jointPlacement
    ∧ OpacityState.placed (JointOpacityState.icon opacity)
      = JointPlacement.icon jointPlacement
    ∧ OpacityState.opacity (JointOpacityState.text opacity)
      = (if JointPlacement.text jointPlacement then 1%Q else 0%Q)
    ∧ OpacityState.opacity (JointOpacityState.icon opacity)
      = (if JointPlacement.icon jointPlacement then 1%Q else 0%Q).
Proof.
  intros id Hhold Hrun Hsi Hunseen Hreloaded Hnew.
  destruct (placeLayerBucket_recorded a w w' symbolInstance Hhold Hrun Hsi Hunseen)
    as (jointPlacement & Hrecorded & _ & _ & Hskip).
  specialize (Hskip Hreloaded). fold id in Hrecorded.
  exists jointPlacement. eexists. split; [exact Hrecorded|].
  rewrite commit_opacities, Hrecorded. unfold placedOpacity. rewrite Hnew.
  split; [reflexivity|]. cbn. rewrite Hskip. cbn.
  by destruct (JointPlacement.text jointPlacement), (JointPlacement.icon jointPlacement).
Qed.

End CommitFacts.

(** ** The opacity writeback *)

Section WritebackFacts.

Context `{Collaborators}.

#[local] Instance coreDecided_preorder : PreOrder coreDecided.
Proof.
  split.
  - by intros c.
  - intros c1 c2 c3 [Hthis Hsymbols] [Hthis' Hsymbols']. split; congruence.
Qed.

#[local] Instance sameDecided_preorder : PreOrder sameDecided.
Proof.
  split.
  - by intros w.
  - intros w1 w2 w3 [Hcore Hseen] [Hcore' Hseen'].
    split; [by etransitivity | congruence].
Qed.

#[local] Instance addsDefaults_preorder d : PreOrder (addsDefaults d).
Proof.
  split.
  - intros w. repeat split; auto.
    exists (opacities (this (core w))). by destruct (this (core w)).
  - intros w1 w2 w3 ([o2 Hthis] & Hsymbols & Hseen & Hkept & Hadded)
      ([o3 Hthis'] & Hsymbols' & Hseen' & Hkept' & Hadded').
    split; [|split; [|split; [|split]]].
    + exists o3. rewrite Hthis', Hthis. by destruct (this (core w1)).
    + congruence.
    + auto.
    + auto.
    + intros k state Hstate. destruct (Hadded' k state Hstate) as [Hold|(-> & Hk & Hunseen)].
      * apply Hadded, Hold.
      * right. split; [done|]. split; [by rewrite <- Hsymbols|].
        destruct (truthy (seenCrossTileIDs w1 !! k)) eqn:Hw1; [|done].
        by rewrite (Hseen k Hw1) in Hunseen.
Qed.

#[local] Instance onWorld_preorder (R : relation World) `{!PreOrder R} :
  PreOrder (onWorld R).
Proof.
  split.
  - intros p. unfold onWorld. reflexivity.
  - intros p1 p2 p3. unfold onWorld. by etransitivity.
Qed.

Lemma sameDecided_addsDefaults d w w' : sameDecided w w' → addsDefaults d w w'.
Proof.
  intros [[Hthis Hsymbols] Hseen]. split; [|split; [done|]].
  - exists (opacities (this (core w))). rewrite Hthis. by destruct (this (core w)).
  - rewrite Hthis, Hseen. auto.
Qed.

Lemma liftWorld_onWorld {A} (R : relation World) (m : M World A) :
  preserves R m → preserves (onWorld R) (liftWorld m).
Proof.
  intros Hm p. specialize (Hm (world p)). unfold onWorld, liftWorld.
  by destruct (m (world p)) as [r w].
Qed.

Lemma modifyBuffers_onWorld (R : relation World) `{!Reflexive R} f :
  preserves (onWorld R) (modifyBuffers f).
Proof. intros p. unfold onWorld. cbn. reflexivity. Qed.

Lemma liftCore_sameDecided {A} (m : M Core A) :
  preserves coreDecided m → preserves sameDecided (liftCore m).
Proof.
  intros Hm w. specialize (Hm (core w)). unfold liftCore.
  by destruct (m (core w)) as [r c].
Qed.

Lemma wp_liftWorld {A} (m : M World A) (Q : A → Writeback → Prop) E p :
  wp m (λ a w', Q a {| world := w'; buffers := buffers p |})
       (λ e w', E e {| world := w'; buffers := buffers p |}) (world p) →
  wp (liftWorld m) Q E p.
Proof. unfold wp, liftWorld. by destruct (m (world p)) as [[a|e] w']. Qed.

Lemma writeHidden_length index v (a : list PlacedSymbol) :
  length (writeHidden index v a) = length a.
Proof. unfold writeHidden. destruct (0 <=? index)%Z; [apply length_alter | done]. Qed.

Lemma hidePlacedSymbols_coreDecided index isHidden :
  preserves coreDecided (hidePlacedSymbols index isHidden).
Proof.
  unfold hidePlacedSymbols. destruct (-1 <? index)%Z; [|apply preserves_ret; apply _].
  intros c. cbn. split; [done|]. by destruct (bucket c).
Qed.

Lemma hideUnplacedJustifications_coreDecided j si :
  preserves coreDecided (hideUnplacedJustifications j si).
Proof.
  intros c. destruct (hideUnplacedJustifications_justified j si c)
    as (array' & -> & _). cbn. split; [done|]. by destruct (bucket c).
Qed.


(** One step of a proof that a part of the writeback preserves a relation
    on the placement and the bucket. *)
Ltac writing_step :=
  lazymatch goal with
  | |- preserves (onWorld _) (modifyBuffers _) =>
      apply modifyBuffers_onWorld; typeclasses eauto
  | |- preserves (onWorld sameDecided) (liftWorld (liftCore _)) =>
      apply liftWorld_onWorld, liftCore_sameDecided
  | |- preserves _ (forRange _ _ _) =>
      apply preserves_forRange; [typeclasses eauto | intros ?]
  | |- preserves coreDecided (hidePlacedSymbols _ _) =>
      apply hidePlacedSymbols_coreDecided
  | |- preserves coreDecided (hideUnplacedJustifications _ _) =>
      apply hideUnplacedJustifications_coreDecided
  | |- _ => preserving_step
  end.

Lemma writeTextOpacity_sameDecided o s symbolInstance opacityState :
  preserves (onWorld sameDecided) (writeTextOpacity o s symbolInstance opacityState).
Proof. unfold writeTextOpacity. repeat writing_step. Qed.

Lemma writeIconOpacity_sameDecided s symbolInstance opacityState :
  preserves (onWorld sameDecided) (writeIconOpacity s symbolInstance opacityState).
Proof. unfold writeIconOpacity. repeat writing_step. Qed.

Lemma writeCollisionVertices_sameDecided o s symbolInstance opacityState isDuplicate :
  preserves (onWorld sameDecided)
    (writeCollisionVertices o s symbolInstance opacityState isDuplicate).
Proof. unfold writeCollisionVertices. repeat writing_step. Qed.

(** The choice of the opacity state never throws; it marks the crossTileID
    seen and stores the default state where the label was neither seen nor
    known. *)
Lemma wp_selectOpacityState d id (Q : JointOpacityState.t * option bool → World → Prop) E w :
  (∀ w',
     this (core w')
       = set_opacities
           (if truthy (seenCrossTileIDs w !! id) then opacities (this (core w))
            else match opacities (this (core w)) !! id with
                 | Some _ => opacities (this (core w))
                 | None => <[id := d]> (opacities (this (core w)))
                 end) (this (core w)) →
     bucket (core w') = bucket (core w) →
     seenCrossTileIDs w' = <[id := true]> (seenCrossTileIDs w) →
     Q (if truthy (seenCrossTileIDs w !! id) then duplicateOpacityState
        else default d (opacities (this (core w)) !! id),
        seenCrossTileIDs w !! id) w') →
  wp (selectOpacityState d id) Q E w.
Proof.
  intros HQ. unfold selectOpacityState.
  apply wp_bind, wp_read. apply wp_bind, wp_read. apply wp_bind.
  destruct (truthy (seenCrossTileIDs w !! id)) eqn:Hseen.
  - apply wp_ret, wp_bind, wp_modify, wp_ret.
    apply HQ; cbn; [by destruct (this (core w)) | done | done].
  - destruct (opacities (this (core w)) !! id) as [state|] eqn:Hstate.
    + apply wp_ret, wp_bind, wp_modify, wp_ret.
      apply HQ; cbn; [by destruct (this (core w)) | done | done].
    + apply wp_bind, wp_liftCore, wp_modify, wp_ret, wp_bind, wp_modify, wp_ret.
      apply HQ; cbn; done.
Qed.

Lemma selectOpacityState_addsDefaults d id w w' :
  id ∈ SymbolInstance.crossTileID <$> symbolInstances (bucket (core w)) →
  this (core w')
    = set_opacities
        (if truthy (seenCrossTileIDs w !! id) then opacities (this (core w))
         else match opacities (this (core w)) !! id with
              | Some _ => opacities (this (core w))
              | None => <[id := d]> (opacities (this (core w)))
              end) (this (core w)) →
  bucket (core w') = bucket (core w) →
  seenCrossTileIDs w' = <[id := true]> (seenCrossTileIDs w) →
  addsDefaults d w w'.
Proof.
  intros Hid Hthis Hbucket Hseen.
  split; [by eexists|]. split; [by rewrite Hbucket|].
  rewrite Hthis, Hseen. split; [|split].
  - intros k Hk. destruct (decide (k = id)) as [->|Hne].
    + by rewrite lookup_insert_eq.
    + by rewrite lookup_insert_ne.
  - intros k state Hk. cbn.
    destruct (truthy (seenCrossTileIDs w !! id)); [done|].
    destruct (opacities (this (core w)) !! id) eqn:Hstored; [done|].
    rewrite lookup_insert_ne; [done|]. intros <-. congruence.
  - intros k state. cbn.
    destruct (truthy (seenCrossTileIDs w !! id)) eqn:Hunseen; [auto|].
    destruct (opacities (this (core w)) !! id) eqn:Hstored; [auto|].
    destruct (decide (k = id)) as [->|Hne].
    + rewrite lookup_insert_eq. intros [= <-]. by right.
    + rewrite lookup_insert_ne; auto.
Qed.


Ltac writing := repeat writing_step.

Lemma wp_related {St A} (R : relation St) (m : M St A) s :
  wp m (λ _ s', R s s') (λ _ s', R s s') s → R s (m s).2.
Proof. unfold wp. by destruct (m s) as [[a|e] s']. Qed.

(** What a turn of the loop does to the placement and to
    [seenCrossTileIDs]. *)
Lemma wp_updateSymbolOpacity o d s p :
  wp (updateSymbolOpacity o d s)
    (λ _ p',
       addsDefaults d (world p) (world p')
       ∧ ∃ symbolInstance,
           symbolInstances (bucket (core (world p))) !! s = Some symbolInstance
           ∧ truthy (seenCrossTileIDs (world p')
                       !! SymbolInstance.crossTileID symbolInstance) = true
           ∧ ∀ k, truthy (seenCrossTileIDs (world p') !! k) = true →
                  truthy (seenCrossTileIDs (world p) !! k) = true
                  ∨ is_Some (opacities (this (core (world p'))) !! k))
    (λ _ p', addsDefaults d (world p) (world p')) p.
Proof.
  unfold updateSymbolOpacity. apply wp_bind, wp_read, wp_bind, wp_defined;
    [intros symbolInstance Hs | reflexivity].
  set (id := SymbolInstance.crossTileID symbolInstance).
  assert (id ∈ SymbolInstance.crossTileID
                 <$> symbolInstances (bucket (core (world p)))) as Hid.
  { apply list_elem_of_fmap. exists symbolInstance. split; [done|].
    by eapply list_elem_of_lookup_2. }
  apply wp_bind, wp_liftWorld, wp_selectOpacityState.
  intros w1 Hthis Hbucket Hseen.
  pose proof (selectOpacityState_addsDefaults d id _ w1 Hid Hthis Hbucket Hseen) as Hadds.
  cbn iota beta.
  eapply wp_mono; [apply (preserves_wp (onWorld sameDecided)) | |].
  - writing;
      auto using writeTextOpacity_sameDecided, writeIconOpacity_sameDecided,
                 writeCollisionVertices_sameDecided.
  - intros ? p' Hsame. unfold onWorld in Hsame. cbn in Hsame.
    destruct Hsame as [[Hthis' Hsymbols'] Hseen'].
    split.
    { etransitivity; [exact Hadds|]. by apply sameDecided_addsDefaults. }
    exists symbolInstance. split; [done|]. rewrite Hseen', Hseen, Hthis', Hthis.
    split; [by rewrite lookup_insert_eq|].
    intros k. destruct (decide (k = id)) as [Heq|Hne].
    + rewrite Heq. intros _. cbn.
      destruct (truthy (seenCrossTileIDs (world p) !! id)); [by left|right].
      destruct (opacities (this (core (world p))) !! id) eqn:Hstored.
      * by rewrite Hstored.
      * by rewrite lookup_insert_eq.
    + rewrite lookup_insert_ne; auto.
  - intros ? p' Hsame. unfold onWorld in Hsame. cbn in Hsame.
    etransitivity; [exact Hadds|]. by apply sameDecided_addsDefaults.
Qed.

Lemma updateSymbolOpacity_addsDefaults o d s :
  preserves (onWorld (addsDefaults d)) (updateSymbolOpacity o d s).
Proof.
  apply wp_preserves. intros p.
  eapply wp_mono; [apply wp_updateSymbolOpacity | |]; cbn.
  - by intros _ p' [Hadds _].
  - done.
Qed.


Lemma wp_bind_preserves {St A B} (R : relation St) (m : M St A) (f : A → M St B) Q E s :
  preserves R m →
  (∀ a s', R s s' → wp (f a) Q E s') →
  (∀ e s', R s s' → E e s') →
  wp (m ≫= f) Q E s.
Proof.
  intros Hm Hf HE. apply wp_bind.
  eapply wp_mono; [apply (preserves_wp R), Hm | |]; cbn; auto.
Qed.

(** The writeback up to the loop leaves the placement, the symbol
    instances and [seenCrossTileIDs] alone. *)
Lemma wp_updateBucketOpacities_prefix o (Q : () → Writeback → Prop) E p :
  (∀ p1, sameDecided (world p) (world p1) →
     textOpacityVertexArray (buffers p1)
       = (if hasTextData (bucket (core (world p))) then []
          else textOpacityVertexArray (buffers p)) →
     iconOpacityVertexArray (buffers p1)
       = (if hasIconData (bucket (core (world p))) then []
          else iconOpacityVertexArray (buffers p)) →
     collisionBoxVertexArray (buffers p1)
       = (if hasCollisionBoxData o then []
          else collisionBoxVertexArray (buffers p)) →
     collisionCircleVertexArray (buffers p1)
       = (if hasCollisionCircleData o then []
          else collisionCircleVertexArray (buffers p)) →
     (serializedBoxes o = None →
      collisionArrays (bucket (core (world p1)))
      = collisionArrays (bucket (core (world p)))) →
     wp (count ← read (λ p, length (symbolInstances (bucket (core (world p)))));
         forRange 0 count
           (updateSymbolOpacity o (defaultOpacityState (bucket (core (world p))))))
        Q E p1) →
  wp (updateBucketOpacities o) Q E p.
Proof.
  intros HQ. unfold updateBucketOpacities, modifyBuffers. apply wp_bind, wp_read.
  do 4 (apply wp_bind;
        match goal with |- wp (if ?b then _ else _) _ _ _ => destruct b eqn:? end;
        [apply wp_modify | apply wp_ret]).
  all: apply wp_bind.
  all: repeat match goal with
         | |- wp (match ?x with _ => _ end) _ _ _ => destruct x eqn:?
         | |- wp (if ?b then _ else _) _ _ _ => destruct b
         end.
  all: first [apply wp_ret | apply wp_liftWorld, wp_liftCore, wp_modify].
  all: apply HQ; cbn;
    repeat match goal with Hb : _ = true |- _ => rewrite Hb
                         | Hb : _ = false |- _ => rewrite Hb end;
    try done.
  all: try (split; [split|]; try done; by destruct (bucket _)).
  all: intros ?; congruence.
Qed.

(** The loop of the writeback, from a state that has the symbol instances
    and [seenCrossTileIDs] of [w0] and the opacities of its placement. *)
Lemma wp_updateBucketOpacities_loop o d w0 p1 :
  sameDecided w0 (world p1) →
  wp (count ← read (λ p, length (symbolInstances (bucket (core (world p)))));
      forRange 0 count (updateSymbolOpacity o d))
    (λ _ p',
       addsDefaults d w0 (world p')
       ∧ (∀ symbolInstance,
            symbolInstance ∈ symbolInstances (bucket (core w0)) →
            truthy (seenCrossTileIDs (world p')
                      !! SymbolInstance.crossTileID symbolInstance) = true)
       ∧ ∀ k, truthy (seenCrossTileIDs (world p') !! k) = true →
              truthy (seenCrossTileIDs w0 !! k) = true
              ∨ is_Some (opacities (this (core (world p'))) !! k))
    (λ _ _, True) p1.
Proof.
  intros Hsame. apply wp_bind, wp_read.
  pose proof Hsame as [[Hthis1 Hsymbols1] Hseen1].
  set (count := length (symbolInstances (bucket (core (world p1))))).
  eapply wp_mono;
    [apply (wp_forRange count _
      (λ i p',
         addsDefaults d w0 (world p')
         ∧ (∀ j symbolInstance, (j < i)%nat →
              symbolInstances (bucket (core w0)) !! j = Some symbolInstance →
              truthy (seenCrossTileIDs (world p')
                        !! SymbolInstance.crossTileID symbolInstance) = true)
         ∧ ∀ k, truthy (seenCrossTileIDs (world p') !! k) = true →
                truthy (seenCrossTileIDs w0 !! k) = true
                ∨ is_Some (opacities (this (core (world p'))) !! k))
      (λ _ _, True)) | |].
  - split; [by apply sameDecided_addsDefaults|]. split; [intros; lia|].
    intros k. rewrite Hseen1. auto.
  - intros i p Hi (Hadds & Hmarked & Hknown).
    eapply wp_mono; [apply wp_updateSymbolOpacity | | done].
    intros _ p' (Hturn & symbolInstance & Hs & Hmark & Hknown').
    pose proof Hadds as (_ & Hsymbols & _).
    pose proof Hturn as (_ & _ & Hseen & Hkept & _).
    split; [by etransitivity|]. split.
    + intros j symbolInstance' Hj Hj'.
      destruct (decide (j = i)) as [->|Hne].
      * rewrite Hsymbols in Hs. by simplify_eq.
      * apply Hseen. eapply Hmarked; [|done]. lia.
    + intros k Hk. destruct (Hknown' k Hk) as [Hbefore|Hnow]; [|by right].
      destruct (Hknown k Hbefore) as [?|[state Hstate]]; [by left|right].
      exists state. by apply Hkept.
  - cbn. intros _ p' (Hadds & Hmarked & Hknown). split; [done|]. split; [|done].
    intros symbolInstance [j Hj]%list_elem_of_lookup. eapply Hmarked; [|done].
    apply lookup_lt_Some in Hj. unfold count. rewrite Hsymbols1. lia.
  - done.
Qed.

(** X24. The writeback of the opacities of a bucket, whether it returns
    or throws: of the placement it changes nothing but the opacities; the
    symbol instances of the bucket stay; a crossTileID that was marked seen
    stays marked; an opacity state that was stored stays as it was; and a
    state that is stored afterwards and was not before is the default
    state, for the crossTileID of a symbol instance of the bucket that was
    not marked seen. *)
Theorem updateBucketOpacities_frame o p :
  let w := world p in
  let w' := world (updateBucketOpacities o p).2 in
  (∃ opacities', this (core w') = set_opacities opacities' (this (core w)))
  ∧ symbolInstances (bucket (core w')) = symbolInstances (bucket (core w))
  ∧ (∀ k, truthy (seenCrossTileIDs w !! k) = true →
          truthy (seenCrossTileIDs w' !! k) = true)
  ∧ (∀ k state, opacities (this (core w)) !! k = Some state →
                opacities (this (core w')) !! k = Some state)
  ∧ (∀ k state, opacities (this (core w')) !! k = Some state →
       opacities (this (core w)) !! k = Some state
       ∨ (state = defaultOpacityState (bucket (core w))
          ∧ k ∈ SymbolInstance.crossTileID <$> symbolInstances (bucket (core w))
          ∧ truthy (seenCrossTileIDs w !! k) = false)).
Proof.
  apply (wp_related (onWorld (addsDefaults _))).
  apply wp_updateBucketOpacities_prefix. intros p1 Hsame _ _ _ _ _.
  eapply wp_mono; [apply (preserves_wp (onWorld (addsDefaults
    (defaultOpacityState (bucket (core (world p))))))) | |].
  - apply preserves_bind; [apply _ | apply preserves_read; apply _ | intros count].
    apply preserves_forRange; [apply _|]. intros s.
    apply updateSymbolOpacity_addsDefaults.
  - intros ? p' Hadds. unfold onWorld in *. etransitivity; [|exact Hadds].
    by apply sameDecided_addsDefaults.
  - intros ? p' Hadds. unfold onWorld in *. etransitivity; [|exact Hadds].
    by apply sameDecided_addsDefaults.
Qed.

(** X25. The writeback has returned.  Then the crossTileID of every symbol
    instance of the bucket is marked seen, and where it was not marked
    seen before, the opacities hold a state for it: the state that was
    stored before if there was one, the default state of the bucket
    otherwise. *)
Theorem updateBucketOpacities_decides o p p' symbolInstance :
  updateBucketOpacities o p = (Return (), p') →
  symbolInstance ∈ symbolInstances (bucket (core (world p))) →
  seenCrossTileIDs (world p') !! SymbolInstance.crossTileID symbolInstance = Some true
  ∧ (truthy (seenCrossTileIDs (world p)
               !! SymbolInstance.crossTileID symbolInstance) = false →
     opacities (this (core (world p'))) !! SymbolInstance.crossTileID symbolInstance
     = Some (default (defaultOpacityState (bucket (core (world p))))
               (opacities (this (core (world p)))
                  !! SymbolInstance.crossTileID symbolInstance))).
Proof.
  intros Hrun Hin.
  assert (wp (updateBucketOpacities o)
    (λ _ p',
       addsDefaults (defaultOpacityState (bucket (core (world p)))) (world p) (world p')
       ∧ (∀ symbolInstance,
            symbolInstance ∈ symbolInstances (bucket (core (world p))) →
            truthy (seenCrossTileIDs (world p')
                      !! SymbolInstance.crossTileID symbolInstance) = true)
       ∧ ∀ k, truthy (seenCrossTileIDs (world p') !! k) = true →
              truthy (seenCrossTileIDs (world p) !! k) = true
              ∨ is_Some (opacities (this (core (world p'))) !! k))
    (λ _ _, True) p) as Hwp.
  { apply wp_updateBucketOpacities_prefix. intros p1 Hsame _ _ _ _ _.
    by apply wp_updateBucketOpacities_loop. }
  apply (wp_returned _ _ _ _ _ _ Hwp) in Hrun as
    ((_ & _ & _ & Hkept & Hadded) & Hmarked & Hknown).
  set (id := SymbolInstance.crossTileID symbolInstance).
  specialize (Hmarked _ Hin). fold id in Hmarked.
  split.
  { destruct (seenCrossTileIDs (world p') !! id) as [[]|]; done. }
  intros Hunseen. destruct (Hknown id Hmarked) as [Hseen|[state Hstate]]; [congruence|].
  rewrite Hstate. f_equal.
  destruct (Hadded id state Hstate) as [Hold|(-> & _)].
  - by rewrite Hold.
  - destruct (opacities (this (core (world p))) !! id) as [old|] eqn:Hold; [|done].
    apply Hkept in Hold. cbn. congruence.
Qed.


(** *** The opacity vertex arrays *)

#[local] Instance sameOpacityArrays_preorder : PreOrder sameOpacityArrays.
Proof.
  split.
  - by intros p.
  - intros p1 p2 p3 [Htext Hicon] [Htext' Hicon']. split; congruence.
Qed.

Lemma liftWorld_sameOpacityArrays {A} (m : M World A) :
  preserves sameOpacityArrays (liftWorld m).
Proof. intros p. unfold liftWorld. by destruct (m (world p)) as [r w]. Qed.

Ltac buffering_step :=
  lazymatch goal with
  | |- preserves _ (liftWorld _) => apply liftWorld_sameOpacityArrays
  | |- preserves _ (modifyBuffers _) => by intros ?
  | |- preserves _ (forRange _ _ _) =>
      apply preserves_forRange; [typeclasses eauto | intros ?]
  | |- _ => preserving_step
  end.

Ltac buffering := repeat buffering_step.

Lemma writeCollisionVertices_sameOpacityArrays o s symbolInstance opacityState isDuplicate :
  preserves sameOpacityArrays
    (writeCollisionVertices o s symbolInstance opacityState isDuplicate).
Proof. unfold writeCollisionVertices. buffering. Qed.

Lemma wp_appendText x count (Q : () → Writeback → Prop) E : ∀ from p,
  (∀ p', world p' = world p →
     textOpacityVertexArray (buffers p')
       = textOpacityVertexArray (buffers p) ++ replicate count x →
     iconOpacityVertexArray (buffers p') = iconOpacityVertexArray (buffers p) →
     Q () p') →
  wp (forRange from count (λ _,
        modifyBuffers (λ b, set_textOpacityVertexArray
          (textOpacityVertexArray b ++ [x]) b))) Q E p.
Proof.
  induction count as [|count IH]; intros from p HQ.
  - apply wp_ret, HQ; [done | by rewrite app_nil_r | done].
  - cbn [forRange]. apply wp_bind, wp_modify, IH. intros p' Hworld Htext Hicon.
    apply HQ; [done | | done]. rewrite Htext. cbn. by rewrite <- app_assoc.
Qed.

Lemma wp_appendIcon x count (Q : () → Writeback → Prop) E : ∀ from p,
  (∀ p', world p' = world p →
     textOpacityVertexArray (buffers p') = textOpacityVertexArray (buffers p) →
     iconOpacityVertexArray (buffers p')
       = iconOpacityVertexArray (buffers p) ++ replicate count x →
     Q () p') →
  wp (forRange from count (λ _,
        modifyBuffers (λ b, set_iconOpacityVertexArray
          (iconOpacityVertexArray b ++ [x]) b))) Q E p.
Proof.
  induction count as [|count IH]; intros from p HQ.
  - apply wp_ret, HQ; [done | done | by rewrite app_nil_r].
  - cbn [forRange]. apply wp_bind, wp_modify, IH. intros p' Hworld Htext Hicon.
    apply HQ; [done | done |]. rewrite Hicon. cbn. by rewrite <- app_assoc.
Qed.

(** What a turn of the loop appends to the opacity vertex arrays, and what
    it does to [seenCrossTileIDs]. *)
Lemma wp_updateSymbolOpacity_arrays o d s symbolInstance p :
  symbolInstances (bucket (core (world p))) !! s = Some symbolInstance →
  let id := SymbolInstance.crossTileID symbolInstance in
  let state :=
    if truthy (seenCrossTileIDs (world p) !! id) then duplicateOpacityState
    else default d (opacities (this (core (world p))) !! id) in
  wp (updateSymbolOpacity o d s)
    (λ _ p',
       textOpacityVertexArray (buffers p')
       = textOpacityVertexArray (buffers p)
         ++ replicate (textOpacityEntries symbolInstance)
              (packOpacity (JointOpacityState.text state))
       ∧ iconOpacityVertexArray (buffers p')
         = iconOpacityVertexArray (buffers p)
           ++ replicate (iconOpacityEntries symbolInstance)
                (packOpacity (JointOpacityState.icon state))
       ∧ seenCrossTileIDs (world p') = <[id := true]> (seenCrossTileIDs (world p)))
    (λ _ _, True) p.
Proof.
  intros Hs id state. unfold updateSymbolOpacity.
  apply wp_bind, wp_read, wp_bind. rewrite Hs. apply wp_ret.
  apply wp_bind, wp_liftWorld, wp_selectOpacityState. intros w1 _ _ Hseen.
  cbn iota beta zeta. unfold textOpacityEntries, iconOpacityEntries.
  fold id. fold state.
  set (hasText := ((0 <? _)%N || _)%bool). set (hasIcon := (0 <? _)%N).
  set (textEntries :=
    replicate (if hasText
               then quads (SymbolInstance.numHorizontalGlyphVertices symbolInstance
                           + SymbolInstance.numVerticalGlyphVertices symbolInstance)
               else 0%nat) (packOpacity (JointOpacityState.text state))).
  set (iconEntries :=
    replicate (if hasIcon then quads (SymbolInstance.numIconVertices symbolInstance)
               else 0%nat) (packOpacity (JointOpacityState.icon state))).
  set (p1 := {| world := w1; buffers := buffers p |}).
  change (buffers p) with (buffers p1).
  assert (seenCrossTileIDs (world p1) = <[id := true]> (seenCrossTileIDs (world p)))
    as Hseen1 by done.
  set (isDuplicate := seenCrossTileIDs (world p) !! id).
  set (seen' := <[id := true]> (seenCrossTileIDs (world p))) in *.
  clearbody p1 state seen' isDuplicate hasText hasIcon.
  assert (∀ p3,
    onWorld sameDecided p1 p3 →
    textOpacityVertexArray (buffers p3) = textOpacityVertexArray (buffers p1) ++ textEntries →
    iconOpacityVertexArray (buffers p3) = iconOpacityVertexArray (buffers p1) ++ iconEntries →
    wp (if (hasCollisionBoxData o || hasCollisionCircleData o)%bool
        then writeCollisionVertices o s symbolInstance state isDuplicate
        else mret ())
      (λ _ p',
         textOpacityVertexArray (buffers p')
         = textOpacityVertexArray (buffers p1) ++ textEntries
         ∧ iconOpacityVertexArray (buffers p')
           = iconOpacityVertexArray (buffers p1) ++ iconEntries
         ∧ seenCrossTileIDs (world p') = seen')
      (λ _ _, True) p3) as Hlast.
  { intros p3 Hsame3 Htext3 Hicon3.
    eapply wp_mono;
      [apply wp_and; [apply (preserves_wp sameOpacityArrays)
                     | apply (preserves_wp (onWorld sameDecided))] | | done].
    - destruct (_ || _)%bool;
        [apply writeCollisionVertices_sameOpacityArrays | apply preserves_ret; apply _].
    - destruct (_ || _)%bool;
        [apply writeCollisionVertices_sameDecided | apply preserves_ret; apply _].
    - intros ? p' [[Htext' Hicon'] Hsame']. cbn beta.
      rewrite Htext', Hicon', Htext3, Hicon3. split; [done|]. split; [done|].
      destruct Hsame' as [_ ->]. destruct Hsame3 as [_ ->]. done. }
  assert (∀ p2,
    onWorld sameDecided p1 p2 →
    textOpacityVertexArray (buffers p2) = textOpacityVertexArray (buffers p1) ++ textEntries →
    iconOpacityVertexArray (buffers p2) = iconOpacityVertexArray (buffers p1) →
    wp ((if hasIcon then writeIconOpacity s symbolInstance state else mret ()) ;;
        (if (hasCollisionBoxData o || hasCollisionCircleData o)%bool
         then writeCollisionVertices o s symbolInstance state isDuplicate
         else mret ()))
      (λ _ p',
         textOpacityVertexArray (buffers p')
         = textOpacityVertexArray (buffers p1) ++ textEntries
         ∧ iconOpacityVertexArray (buffers p')
           = iconOpacityVertexArray (buffers p1) ++ iconEntries
         ∧ seenCrossTileIDs (world p') = seen')
      (λ _ _, True) p2) as Hrest.
  { intros p2 Hsame2 Htext2 Hicon2. apply wp_bind. unfold iconEntries in *.
    destruct hasIcon.
    - unfold writeIconOpacity. apply wp_bind, wp_appendIcon.
      intros p3 Hworld3 Htext3 Hicon3. apply wp_modify, Hlast; cbn.
      + unfold onWorld. cbn. by rewrite Hworld3.
      + by rewrite Htext3.
      + by rewrite Hicon3, Hicon2.
    - apply wp_ret, Hlast; [done | done | by rewrite Hicon2, app_nil_r]. }
  apply wp_bind. unfold textEntries in *. destruct hasText.
  - unfold writeTextOpacity. apply wp_bind, wp_appendText.
    intros p2 Hworld2 Htext2 Hicon2.
    eapply wp_mono;
      [apply wp_and; [apply (preserves_wp sameOpacityArrays)
                     | apply (preserves_wp (onWorld sameDecided))] | | done].
    + buffering.
    + writing.
    + intros ? p3 [[Htext3 Hicon3] Hsame3]. apply Hrest.
      * unfold onWorld in *. by rewrite <- Hworld2.
      * by rewrite Htext3, Htext2.
      * by rewrite Hicon3, Hicon2.
  - apply wp_ret, Hrest; [done | by rewrite app_nil_r | done].
Qed.

Lemma default_addsDefaults d w w' k :
  addsDefaults d w w' →
  default d (opacities (this (core w')) !! k) = default d (opacities (this (core w)) !! k).
Proof.
  intros (_ & _ & _ & Hkept & Hadded).
  destruct (opacities (this (core w')) !! k) as [state|] eqn:Hstate.
  - destruct (Hadded k state Hstate) as [->|(-> & _)]; [done|].
    destruct (opacities (this (core w)) !! k) as [old|] eqn:Hold; [|done].
    apply Hkept in Hold. congruence.
  - destruct (opacities (this (core w)) !! k) as [old|] eqn:Hold; [|done].
    apply Hkept in Hold. congruence.
Qed.

Lemma wp_updateBucketOpacities_arrays o p :
  wp (updateBucketOpacities o)
    (λ _ p',
       textOpacityVertexArray (buffers p')
       = (if hasTextData (bucket (core (world p))) then []
          else textOpacityVertexArray (buffers p))
         ++ concat (imap (λ i symbolInstance,
              replicate (textOpacityEntries symbolInstance)
                (packOpacity (JointOpacityState.text
                   (writtenOpacityState (world p) i symbolInstance))))
              (symbolInstances (bucket (core (world p)))))
       ∧ iconOpacityVertexArray (buffers p')
         = (if hasIconData (bucket (core (world p))) then []
            else iconOpacityVertexArray (buffers p))
           ++ concat (imap (λ i symbolInstance,
                replicate (iconOpacityEntries symbolInstance)
                  (packOpacity (JointOpacityState.icon
                     (writtenOpacityState (world p) i symbolInstance))))
                (symbolInstances (bucket (core (world p))))))
    (λ _ _, True) p.
Proof.
  apply wp_updateBucketOpacities_prefix. intros p1 Hsame Htext Hicon _ _ _.
  pose proof Hsame as [[_ Hsymbols] Hseen1].
  set (instances := symbolInstances (bucket (core (world p)))) in *.
  set (d := defaultOpacityState (bucket (core (world p)))).
  rewrite <- Htext, <- Hicon. clear Htext Hicon.
  set (textOf := λ i symbolInstance, replicate (textOpacityEntries symbolInstance)
    (packOpacity (JointOpacityState.text (writtenOpacityState (world p) i symbolInstance)))).
  set (iconOf := λ i symbolInstance, replicate (iconOpacityEntries symbolInstance)
    (packOpacity (JointOpacityState.icon (writtenOpacityState (world p) i symbolInstance)))).
  apply wp_bind, wp_read. rewrite Hsymbols.
  eapply wp_mono;
    [apply (wp_forRange (length instances) _
      (λ i p',
         addsDefaults d (world p) (world p')
         ∧ (∀ k, truthy (seenCrossTileIDs (world p') !! k)
                 = truthy (seenCrossTileIDs (world p) !! k)
                   || bool_decide (k ∈ SymbolInstance.crossTileID <$> take i instances))
         ∧ textOpacityVertexArray (buffers p')
           = textOpacityVertexArray (buffers p1) ++ concat (imap textOf (take i instances))
         ∧ iconOpacityVertexArray (buffers p')
           = iconOpacityVertexArray (buffers p1) ++ concat (imap iconOf (take i instances)))
      (λ _ _, True)) | |].
  - rewrite take_0. cbn. rewrite !app_nil_r.
    split; [by apply sameDecided_addsDefaults|]. split; [|done].
    intros k. rewrite Hseen1, bool_decide_eq_false_2; [by rewrite orb_false_r|].
    apply not_elem_of_nil.
  - intros i p2 Hi (Hadds & Hseen2 & Htext2 & Hicon2).
    destruct (lookup_lt_is_Some_2 instances i) as [symbolInstance Hs]; [lia|].
    pose proof Hadds as (_ & Hsymbols2 & _).
    eapply wp_mono;
      [apply wp_and;
        [apply (wp_updateSymbolOpacity_arrays o d i symbolInstance);
           by rewrite Hsymbols2
        | apply (preserves_wp _ _ _ (updateSymbolOpacity_addsDefaults o d i))]
      | | done].
    intros ? p3 [(Htext3 & Hicon3 & Hseen3) Hadds3]. unfold onWorld in Hadds3.
    set (id := SymbolInstance.crossTileID symbolInstance) in *.
    assert ((if truthy (seenCrossTileIDs (world p2) !! id) then duplicateOpacityState
             else default d (opacities (this (core (world p2))) !! id))
            = writtenOpacityState (world p) i symbolInstance) as Hstate.
    { unfold writtenOpacityState. fold id instances d. rewrite Hseen2.
      destruct (_ || _)%bool; [done|]. by apply default_addsDefaults. }
    rewrite Hstate in Htext3, Hicon3.
    split; [by etransitivity|]. split; [|split].
    + intros k. rewrite Hseen3, (take_S_r _ _ _ Hs), fmap_app. cbn [fmap list_fmap].
      fold id. destruct (decide (k = id)) as [Heq|Hne].
      * rewrite Heq, lookup_insert_eq. cbn.
        rewrite (bool_decide_eq_true_2 (id ∈ _ ++ [id])); [by rewrite orb_true_r|].
        apply elem_of_app. right. apply list_elem_of_singleton. done.
      * rewrite lookup_insert_ne by done. rewrite Hseen2. f_equal.
        apply bool_decide_ext. rewrite elem_of_app, list_elem_of_singleton. tauto.
    + rewrite Htext3, Htext2, (take_S_r _ _ _ Hs), imap_app, concat_app, <- app_assoc.
      cbn. rewrite app_nil_r, length_take_le, Nat.add_0_r by lia. done.
    + rewrite Hicon3, Hicon2, (take_S_r _ _ _ Hs), imap_app, concat_app, <- app_assoc.
      cbn. rewrite app_nil_r, length_take_le, Nat.add_0_r by lia. done.
  - cbn. intros _ p' (_ & _ & Htext' & Hicon'). by rewrite firstn_all in Htext', Hicon'.
  - done.
Qed.

(** X26. The writeback has returned.  Then the opacity vertex array of the
    text is what it was, or empty if the bucket has text data, followed,
    for each symbol instance in turn, by one entry for every four glyph
    vertices (horizontal and vertical together, rounded up): the packed
    opacity of the text of the state read for that instance, which is the
    state of a duplicate if its crossTileID was marked seen or belongs to
    an earlier instance of the bucket, else the stored state, else the
    default state.  The array of the icons is built the same way from the
    icon vertices and the icon of the state. *)
Theorem updateBucketOpacities_writes_opacities o p p' :
  let w := world p in
  updateBucketOpacities o p = (Return (), p') →
  textOpacityVertexArray (buffers p')
  = (if hasTextData (bucket (core w)) then []
     else textOpacityVertexArray (buffers p))
    ++ concat (imap (λ i symbolInstance,
         replicate (textOpacityEntries symbolInstance)
           (packOpacity (JointOpacityState.text
              (writtenOpacityState w i symbolInstance))))
         (symbolInstances (bucket (core w))))
  ∧ iconOpacityVertexArray (buffers p')
    = (if hasIconData (bucket (core w)) then []
       else iconOpacityVertexArray (buffers p))
      ++ concat (imap (λ i symbolInstance,
           replicate (iconOpacityEntries symbolInstance)
             (packOpacity (JointOpacityState.icon
                (writtenOpacityState w i symbolInstance))))
           (symbolInstances (bucket (core w)))).
Proof.
  intros w Hrun.
  exact (wp_returned _ _ _ _ _ _ (wp_updateBucketOpacities_arrays o p) Hrun).
Qed.

(** *** The collision vertex arrays *)

#[local] Instance keepsQuads_preorder : PreOrder keepsQuads.
Proof.
  split.
  - intros p Hquads. exact Hquads.
  - intros p1 p2 p3 H12 H23 Hquads. apply H23, H12, Hquads.
Qed.

Lemma liftWorld_keepsQuads {A} (m : M World A) : preserves keepsQuads (liftWorld m).
Proof.
  intros p Hquads. unfold liftWorld. by destruct (m (world p)) as [r w].
Qed.

Lemma modifyBuffers_keepsQuads f :
  (∀ b, wholeQuads b → wholeQuads (f b)) → preserves keepsQuads (modifyBuffers f).
Proof. intros Hf p. unfold keepsQuads. cbn. apply Hf. Qed.

Lemma updateCollisionVertices_length a placed notUsed shiftX shiftY :
  length (updateCollisionVertices a placed notUsed shiftX shiftY) = (length a + 4)%nat.
Proof. unfold updateCollisionVertices. by rewrite length_app. Qed.

Lemma divide_add_4 n : (4 | n)%nat → (4 | n + 4)%nat.
Proof. intros [k ->]. exists (S k). lia. Qed.

Ltac quads_step :=
  lazymatch goal with
  | |- preserves _ (liftWorld _) => apply liftWorld_keepsQuads
  | |- preserves _ (modifyBuffers _) =>
      apply modifyBuffers_keepsQuads; intros ? [? ?]; split; cbn;
      rewrite ?updateCollisionVertices_length; auto using divide_add_4
  | |- preserves _ (forRange _ _ _) =>
      apply preserves_forRange; [typeclasses eauto | intros ?]
  | |- _ => preserving_step
  end.

Lemma updateSymbolOpacity_keepsQuads o d s :
  preserves keepsQuads (updateSymbolOpacity o d s).
Proof.
  unfold updateSymbolOpacity, writeTextOpacity, writeIconOpacity, writeCollisionVertices.
  repeat quads_step.
Qed.

(** X27. The collision vertex arrays hold whole quads.  If each of the two
    arrays is cleared by the writeback (the bucket has collision box data,
    or collision circle data) or holds a multiple of four vertices, then
    after the writeback, whether it returns or throws, each holds a
    multiple of four vertices. *)
Theorem updateBucketOpacities_whole_quads o p :
  (hasCollisionBoxData o = false → (4 | length (collisionBoxVertexArray (buffers p)))%nat) →
  (hasCollisionCircleData o = false →
   (4 | length (collisionCircleVertexArray (buffers p)))%nat) →
  (4 | length (collisionBoxVertexArray (buffers (updateBucketOpacities o p).2)))%nat
  ∧ (4 | length (collisionCircleVertexArray
                  (buffers (updateBucketOpacities o p).2)))%nat.
Proof.
  intros Hbox Hcircle.
  apply (wp_outcome _ (λ r, wholeQuads (buffers r.2))). cbn [snd].
  apply wp_updateBucketOpacities_prefix. intros p1 _ _ _ Hbox1 Hcircle1 _.
  assert (wholeQuads (buffers p1)) as Hquads.
  { split.
    - rewrite Hbox1. destruct (hasCollisionBoxData o); [by exists 0%nat | auto].
    - rewrite Hcircle1. destruct (hasCollisionCircleData o); [by exists 0%nat | auto]. }
  eapply wp_mono; [apply (preserves_wp keepsQuads) | |].
  - apply preserves_bind; [apply _ | apply preserves_read; apply _ | intros count].
    apply preserves_forRange; [apply _|]. intros s. apply updateSymbolOpacity_keepsQuads.
  - intros ? p' Hkeeps. by apply Hkeeps.
  - intros ? p' Hkeeps. by apply Hkeeps.
Qed.

(** *** The states of labels that were not placed yet *)

(** X28. What the writeback shows before placement has run, placement
    shows as well.  The default state of a bucket is fully shown or fully
    hidden: the opacity of its text is 1 if it counts as placed and 0 if
    not, and so for its icon.  And when a pass over the bucket of a tile
    that is not held for fade has returned, then for every symbol instance
    of the bucket whose crossTileID was not marked seen when the pass
    began, the JointPlacement recorded has its text true if the text of
    the default state counts as placed, and its icon true if the icon of
    the default state does. *)
Theorem default_state_is_confirmed_by_pass a w w' symbolInstance :
  let id := SymbolInstance.crossTileID symbolInstance in
  let shown := defaultOpacityState (bucket (core w)) in
  holdingForFade a = false →
  placeLayerBucket a w = (Return (), w') →
  symbolInstance ∈ symbolInstances (bucket (core w)) →
  truthy (seenCrossTileIDs w !! id) = false →
  OpacityState.opacity (JointOpacityState.text shown)
  = (if OpacityState.placed (JointOpacityState.text shown) then 1%Q else 0%Q)
  ∧ OpacityState.opacity (JointOpacityState.icon shown)
    = (if OpacityState.placed (JointOpacityState.icon shown) then 1%Q else 0%Q)
  ∧ ∃ jointPlacement,
      placements (this (core w')) !! id = Some jointPlacement
      ∧ (OpacityState.placed (JointOpacityState.text shown) = true →
         JointPlacement.text jointPlacement = true)
      ∧ (OpacityState.placed (JointOpacityState.icon shown) = true →
         JointPlacement.icon jointPlacement = true).
Proof.
  intros id shown Hhold Hrun Hin Hunseen.
  split; [done|]. split; [done|].
  destruct (placeLayerBucket_recorded a w w' symbolInstance Hhold Hrun Hin Hunseen)
    as (jointPlacement & Hrecorded & Htext & Hicon & _).
  exists jointPlacement. split; [done|]. unfold shown, defaultOpacityState. cbn.
  split.
  - intros [Hallow Hpaired]%andb_true_iff. apply Htext; [done|].
    apply orb_true_iff in Hpaired as [[?|?%negb_true_iff]%orb_true_iff|?]; auto.
  - intros [Hallow Hpaired]%andb_true_iff. apply Hicon; [done|].
    apply orb_true_iff in Hpaired as [[?|?%negb_true_iff]%orb_true_iff|?]; auto.
Qed.

(** *** The writeback returns *)

Lemma wp_bind_total {St A B} (m : M St A) (f : A → M St B) Q E s :
  (∀ s, wp m (λ _ _, True) (λ _ _, False) s) →
  (∀ a s', wp (f a) Q E s') →
  wp (m ≫= f) Q E s.
Proof.
  intros Hm Hf. apply wp_bind. eapply wp_mono; [apply Hm | | done]. cbn. auto.
Qed.

Lemma hidePlacedSymbols_total index isHidden c :
  wp (hidePlacedSymbols index isHidden) (λ _ _, True) (λ _ _, False) c.
Proof. unfold hidePlacedSymbols. by destruct (-1 <? index)%Z. Qed.

Lemma liftWorld_liftCore_total {A} (m : M Core A) :
  (∀ c, wp m (λ _ _, True) (λ _ _, False) c) →
  ∀ p, wp (liftWorld (liftCore m)) (λ _ _, True) (λ _ _, False) p.
Proof. intros Hm p. apply wp_liftWorld, wp_liftCore, Hm. Qed.

Lemma writeTextOpacity_total o s symbolInstance opacityState p :
  wp (writeTextOpacity o s symbolInstance opacityState) (λ _ _, True) (λ _ _, False) p.
Proof.
  unfold writeTextOpacity. apply wp_bind, wp_appendText. intros p1 _ _ _.
  do 4 (apply wp_bind_total;
        [apply liftWorld_liftCore_total, hidePlacedSymbols_total | intros _ ?]).
  apply wp_bind, wp_read.
  destruct (dynamicOffsets _ !! _); [|done].
  apply liftWorld_liftCore_total. intros c. by apply wp_hideUnplacedJustifications.
Qed.

Lemma writeIconOpacity_total s symbolInstance opacityState p :
  wp (writeIconOpacity s symbolInstance opacityState) (λ _ _, True) (λ _ _, False) p.
Proof. unfold writeIconOpacity. apply wp_bind, wp_appendIcon. done. Qed.

Lemma updateSymbolOpacity_total o d s p :
  hasCollisionBoxData o = false →
  hasCollisionCircleData o = false →
  is_Some (symbolInstances (bucket (core (world p))) !! s) →
  wp (updateSymbolOpacity o d s) (λ _ _, True) (λ _ _, False) p.
Proof.
  intros Hbox Hcircle [symbolInstance Hs]. unfold updateSymbolOpacity.
  apply wp_bind, wp_read, wp_bind. rewrite Hs. apply wp_ret.
  apply wp_bind, wp_liftWorld, wp_selectOpacityState. intros w1 _ _ _.
  cbn iota beta zeta.
  apply wp_bind_total;
    [intros ?; destruct (_ || _)%bool; [apply writeTextOpacity_total | done]
    | intros _ ?].
  apply wp_bind_total;
    [intros ?; destruct (0 <? _)%N; [apply writeIconOpacity_total | done]
    | intros _ ?].
  by rewrite Hbox, Hcircle.
Qed.

(** X29. For a bucket without collision box data and without collision
    circle data, the writeback returns. *)
Theorem updateBucketOpacities_returns o p :
  hasCollisionBoxData o = false →
  hasCollisionCircleData o = false →
  ∃ p', updateBucketOpacities o p = (Return (), p').
Proof.
  intros Hbox Hcircle.
  destruct (wp_returns (updateBucketOpacities o) (λ _ _, True) p) as ([] & p' & Hrun & _);
    [|by exists p'].
  apply wp_updateBucketOpacities_prefix. intros p1 _ _ _ _ _ _.
  apply wp_bind, wp_read.
  set (d := defaultOpacityState _). clearbody d.
  set (instances := symbolInstances (bucket (core (world p1)))).
  eapply wp_mono;
    [apply (wp_forRange (length instances) _
      (λ _ p', symbolInstances (bucket (core (world p'))) = instances)
      (λ _ _, False)) | |]; try done.
  intros i p2 Hi Hsymbols.
  eapply wp_mono;
    [apply wp_and;
      [apply (updateSymbolOpacity_total o d i); [done | done |];
         rewrite Hsymbols; apply lookup_lt_is_Some_2; lia
      | apply (preserves_wp _ _ _ (updateSymbolOpacity_addsDefaults o d i))]
    | |].
  - intros ? p3 [_ (_ & Hsymbols3 & _)]. congruence.
  - by intros ? p3 [? _].
Qed.

(** *** The writeback without collision arrays *)

#[local] Instance sameCollisionArrays_preorder : PreOrder sameCollisionArrays.
Proof.
  split.
  - by intros p.
  - intros p1 p2 p3 H12 H23. unfold sameCollisionArrays in *. congruence.
Qed.

Lemma hidePlacedSymbols_sameCollisionArrays index isHidden :
  preserves sameCollisionArrays (liftWorld (liftCore (hidePlacedSymbols index isHidden))).
Proof.
  intros p. unfold sameCollisionArrays, liftWorld, liftCore, hidePlacedSymbols.
  destruct (-1 <? index)%Z; cbn; [by destruct (bucket _) | done].
Qed.

Lemma hideUnplacedJustifications_sameCollisionArrays j si :
  preserves sameCollisionArrays (liftWorld (liftCore (hideUnplacedJustifications j si))).
Proof.
  intros p. unfold sameCollisionArrays, liftWorld, liftCore.
  destruct (hideUnplacedJustifications_justified j si (core (world p)))
    as (array' & -> & _). cbn. by destruct (bucket _).
Qed.

Ltac arrays_step :=
  lazymatch goal with
  | |- preserves _ (liftWorld (liftCore (hidePlacedSymbols _ _))) =>
      apply hidePlacedSymbols_sameCollisionArrays
  | |- preserves _ (liftWorld (liftCore (hideUnplacedJustifications _ _))) =>
      apply hideUnplacedJustifications_sameCollisionArrays
  | |- preserves _ (modifyBuffers _) => by intros ?
  | |- preserves _ (forRange _ _ _) =>
      apply preserves_forRange; [typeclasses eauto | intros ?]
  | |- _ => preserving_step
  end.

Lemma writeTextOpacity_sameCollisionArrays o s symbolInstance opacityState :
  preserves sameCollisionArrays (writeTextOpacity o s symbolInstance opacityState).
Proof. unfold writeTextOpacity. repeat arrays_step. Qed.

Lemma writeIconOpacity_sameCollisionArrays s symbolInstance opacityState :
  preserves sameCollisionArrays (writeIconOpacity s symbolInstance opacityState).
Proof. unfold writeIconOpacity. repeat arrays_step. Qed.

(** A turn of the loop that is to write collision vertices and finds no
    collision arrays throws where it reads them. *)
Lemma updateSymbolOpacity_needs_arrays o d s p :
  (hasCollisionBoxData o || hasCollisionCircleData o)%bool = true →
  collisionArrays (bucket (core (world p))) = None →
  is_Some (symbolInstances (bucket (core (world p))) !! s) →
  wp (updateSymbolOpacity o d s) (λ _ _, False) (λ e _, e = TypeError) p.
Proof.
  intros Hdata Harrays [symbolInstance Hs]. unfold updateSymbolOpacity.
  apply wp_bind, wp_read, wp_bind. rewrite Hs. apply wp_ret.
  apply wp_bind, wp_liftWorld, wp_selectOpacityState. intros w1 _ Hbucket _.
  cbn iota beta zeta.
  set (p1 := {| world := w1; buffers := buffers p |}).
  assert (collisionArrays (bucket (core (world p1))) = None) as Harrays1
    by (cbn; by rewrite Hbucket).
  clearbody p1.
  apply wp_bind.
  eapply wp_mono;
    [apply wp_and;
      [destruct ((0 <? _)%N || _)%bool; [apply writeTextOpacity_total | done]
      | apply (preserves_wp sameCollisionArrays);
        destruct ((0 <? _)%N || _)%bool;
          [apply writeTextOpacity_sameCollisionArrays | apply preserves_ret; apply _]]
    | | by intros ? ? [[] _]].
  intros ? p2 [_ Harrays2]. unfold sameCollisionArrays in Harrays2.
  rewrite Harrays1 in Harrays2.
  apply wp_bind.
  eapply wp_mono;
    [apply wp_and;
      [destruct (0 <? _)%N; [apply writeIconOpacity_total | done]
      | apply (preserves_wp sameCollisionArrays);
        destruct (0 <? _)%N;
          [apply writeIconOpacity_sameCollisionArrays | apply preserves_ret; apply _]]
    | | by intros ? ? [[] _]].
  intros ? p3 [_ Harrays3]. unfold sameCollisionArrays in Harrays3.
  rewrite Harrays2 in Harrays3.
  rewrite Hdata. unfold writeCollisionVertices. apply wp_bind, wp_read.
  rewrite Harrays3.
  reflexivity.
Qed.

(** X30. The writeback of a bucket that has collision box data or
    collision circle data needs the collision arrays of the bucket: if they
    are undefined and no collision box array is passed to deserialize them
    from, and the bucket has a symbol instance, the writeback throws a
    TypeError. *)
Theorem updateBucketOpacities_needs_collision_arrays o p :
  (hasCollisionBoxData o || hasCollisionCircleData o)%bool = true →
  collisionArrays (bucket (core (world p))) = None →
  serializedBoxes o = None →
  symbolInstances (bucket (core (world p))) ≠ [] →
  (updateBucketOpacities o p).1 = Throw TypeError.
Proof.
  intros Hdata Harrays Hboxes Hsymbols.
  apply (wp_outcome _ (λ r, r.1 = Throw TypeError)). cbn [fst].
  apply wp_updateBucketOpacities_prefix. intros p1 [[_ Hsymbols1] _] _ _ _ _ Harrays1.
  apply wp_bind, wp_read.
  destruct (symbolInstances (bucket (core (world p1)))) as [|first rest] eqn:Hlist;
    [congruence|].
  cbn [length forRange]. apply wp_bind.
  eapply wp_mono; [apply (updateSymbolOpacity_needs_arrays o _ 0 p1) | done |].
  - done.
  - rewrite (Harrays1 Hboxes). exact Harrays.
  - rewrite Hlist. by eexists.
  - by intros e ? ->.
Qed.

End WritebackFacts.
(** ** The statements at work on the reference collaborators *)

Section Examples.

Import Reference.

(** The claim C4 as the specification has it fails: it is not the case that
for every label without glyph vertices and with icon vertices, text-optional
being false, the coupling step leaves the two booleans equal.  On a label with
an icon and no glyphs whose icon is placed (text-optional and icon-optional
false) the step leaves the text's boolean false and the icon's true, and that
is the placement [placeLayerBucket] records for it. *)
Lemma icon_only_label_text_and_icon_differ :
¬ (∀ iconOptional' symbolInstance placeText placeIcon,
     SymbolInstance.numHorizontalGlyphVertices symbolInstance = 0%N →
     SymbolInstance.numVerticalGlyphVertices symbolInstance = 0%N →
     (0 < SymbolInstance.numIconVertices symbolInstance)%N →
     (combineTextAndIcon false iconOptional' symbolInstance placeText placeIcon).1
     = (combineTextAndIcon false iconOptional' symbolInstance placeText placeIcon).2)
∧ SymbolInstance.numHorizontalGlyphVertices (iconOnly 7) = 0%N
∧ SymbolInstance.numVerticalGlyphVertices (iconOnly 7) = 0%N
∧ (0 < SymbolInstance.numIconVertices (iconOnly 7))%N
∧ combineTextAndIcon false false (iconOnly 7) false true = (false, true)
∧ (placeLayerBucket (args false) firstTile).1 = Return ()
∧ placements (this (core afterFirstTile)) !! 7%N
  = Some (JointPlacement.mk false true false).
Proof.
split.
- intros Hclaim.
  specialize (Hclaim false (iconOnly 7) false true eq_refl eq_refl eq_refl).
  discriminate Hclaim.
- repeat split; vm_compute; reflexivity.
Qed.

Lemma icon_only_label_combination_example :
  SymbolInstance.numHorizontalGlyphVertices (iconOnly 7) = 0%N
  ∧ SymbolInstance.numVerticalGlyphVertices (iconOnly 7) = 0%N
  ∧ (0 < SymbolInstance.numIconVertices (iconOnly 7))%N
  ∧ combineTextAndIcon false false (iconOnly 7) true true = (true, true).
Proof.
  assert (0 < SymbolInstance.numIconVertices (iconOnly 7))%N as Hicon by reflexivity.
  split; [reflexivity|]. split; [reflexivity|]. split; [exact Hicon|].
  exact (icon_only_label_combination false (iconOnly 7) true true
           eq_refl eq_refl Hicon).
Defined.

(** The claim C2 as the specification has it fails: it is not the case that
every first-encountered instance of a crossTileID is inserted into the
collision index.  On a tile where the icon of label 7 lands on the icon of
label 9, placed before it, the turn of the loop for label 7 (not marked seen,
tile not held for fade) resolves it, records that neither its text nor its
icon is placed, marks it seen, and leaves the collision index as it was, with
the box of label 9 alone; the duplicate of label 7 in the second tile is
skipped, so that nothing is inserted for label 7 in the whole sweep. *)
Lemma first_duplicate_not_inserted_when_it_collides :
¬ (∀ (a : Args) (l : Locals) (i : nat) (w w' : World) (symbolInstance : SymbolInstance.t),
     symbolInstances (bucket (core w)) !! i = Some symbolInstance →
     holdingForFade a = false →
     seenCrossTileIDs w !! SymbolInstance.crossTileID symbolInstance ≠ Some true →
     placeSymbolInstance a l i w = (Return (), w') →
     collisionIndex (this (core w')) ≠ collisionIndex (this (core w)))
∧ holdingForFade (args false) = false
∧ (liftCore (placeLayerBucketLocals (args false)) crowdedTile).1 = Return passLocals
∧ symbolInstances (bucket (core crowdedAtDuplicate)) !! 1%nat = Some (iconOnly 7)
∧ symbolInstances secondBucket !! 1%nat = Some (iconOnly 7)
∧ seenCrossTileIDs crowdedAtDuplicate !! 7%N = None
∧ (placeSymbolInstance (args false) passLocals 1 crowdedAtDuplicate).1 = Return ()
∧ collisionIndex
    (this (core (placeSymbolInstance (args false) passLocals 1 crowdedAtDuplicate).2))
  = collisionIndex (this (core crowdedAtDuplicate))
∧ placeLayerBucket (args false) crowdedTile = (Return (), afterCrowdedTile)
∧ placements (this (core afterCrowdedTile)) !! 7%N
  = Some (JointPlacement.mk false false false)
∧ seenCrossTileIDs afterCrowdedTile !! 7%N = Some true
∧ collisionIndex (this (core afterCrowdedTile)) = [corners (squareAt 0 0)]
∧ placeSymbolInstance (args false) passLocals 1 secondTileAfterCrowdedAtDuplicate
  = (Return (), secondTileAfterCrowdedAtDuplicate).
Proof.
split.
- intros Hclaim.
  apply (Hclaim (args false) passLocals 1%nat crowdedAtDuplicate
           (placeSymbolInstance (args false) passLocals 1 crowdedAtDuplicate).2
           (iconOnly 7)).
  + vm_compute; reflexivity.
  + reflexivity.
  + vm_compute; discriminate.
  + vm_compute; reflexivity.
  + vm_compute; reflexivity.
- repeat split; vm_compute; reflexivity.
Qed.

Lemma duplicate_resolved_once_two_tiles :
  holdingForFade (args false) = false
  ∧ placeLayerBucket (args false) firstTile = (Return (), afterFirstTile)
  ∧ symbolInstances (bucket (core firstTile)) !! 0%nat = Some (iconOnly 7)
  ∧ symbolInstances secondBucket !! 1%nat = Some (iconOnly 7)
  ∧ seenCrossTileIDs firstTile !! 7%N = None
  ∧ collisionIndex (this (core firstTile)) = []
  ∧ collisionIndex (this (core afterFirstTile)) = [corners (squareAt 0 0)]
  ∧ placements (this (core afterFirstTile)) !! 7%N
    = Some (JointPlacement.mk false true false)
  ∧ seenCrossTileIDs afterFirstTile !! 7%N = Some true
  ∧ placeSymbolInstance (args false) passLocals 1 secondTileAtDuplicate
    = (Return (), secondTileAtDuplicate).
Proof.
  assert (placeLayerBucket (args false) firstTile = (Return (), afterFirstTile))
    as Hfirst by (vm_compute; reflexivity).
  destruct (duplicate_resolved_once (args false) (args false) firstTile afterFirstTile
              secondBucket 0 1 (iconOnly 7) (iconOnly 7)
              eq_refl Hfirst eq_refl eq_refl eq_refl) as (Hturn & Hmarked & Hskipped).
  split; [reflexivity|]. split; [exact Hfirst|]. split; [reflexivity|].
  split; [reflexivity|]. split; [reflexivity|]. split; [reflexivity|].
  assert (placeSymbolInstance (args false) passLocals 0
            (liftCore (placeLayerBucketLocals (args false)) firstTile).2
          = (Return (), afterFirstTile)) as Hrun by (vm_compute; reflexivity).
  destruct (Hturn passLocals
              (liftCore (placeLayerBucketLocals (args false)) firstTile).2 afterFirstTile
              eq_refl ltac:(vm_compute; discriminate) Hrun)
    as (_ & _ & collisionArrays' & placedGlyphBoxes & placedIconBoxes
        & placedGlyphCircles & placeText & placeIcon & skipFade & Hentry & Hplacements
        & Hindex & Hfound & _).
  split.
  { etransitivity; [exact Hindex|].
    injection Hentry as <-. rewrite Hfound.
    assert (placeIcon = true) as ->.
    { apply (f_equal (λ m, JointPlacement.icon <$> m !! 7%N)) in Hplacements.
      change (SymbolInstance.crossTileID (iconOnly 7)) with 7%N in Hplacements.
      rewrite lookup_insert_eq in Hplacements. cbn in Hplacements.
      rewrite orb_false_r in Hplacements.
      assert (JointPlacement.icon <$> placements (this (core afterFirstTile)) !! 7%N
              = Some true) as Hcomputed by (vm_compute; reflexivity).
      congruence. }
    assert (placeText = false) as ->.
    { apply (f_equal (λ m, JointPlacement.text <$> m !! 7%N)) in Hplacements.
      change (SymbolInstance.crossTileID (iconOnly 7)) with 7%N in Hplacements.
      rewrite lookup_insert_eq in Hplacements. cbn in Hplacements.
      rewrite orb_false_r in Hplacements.
      assert (JointPlacement.text <$> placements (this (core afterFirstTile)) !! 7%N
              = Some false) as Hcomputed by (vm_compute; reflexivity).
      congruence. }
    unfold insertPlaced.
    destruct placedGlyphBoxes, placedGlyphCircles; vm_compute; reflexivity. }
  split; [vm_compute; reflexivity|]. split; [exact Hmarked|].
  apply (Hskipped passLocals secondTile); vm_compute; reflexivity.
Defined.

(** The claim C5 as the specification has it fails: it is not the case that
for every crossTileID with opacities in the previous placement and no
placement in the current one, commit leaves the state that follows the
previous one, or nothing if that state is hidden.  Line 566 skips every
crossTileID for which the current placement holds an opacity already.  In
the placement that follows [committedFading] and was committed once, label 5
has no placement and has the opacity that the first commit left; a commit at
the time 300, at which the state that follows the previous one is hidden,
leaves that opacity where the claim has the entry dropped. *)
Lemma absent_label_with_an_opacity_is_left_alone :
¬ (∀ prev now p k prevOpacity,
     opacities prev !! k = Some prevOpacity →
     placements p !! k = None →
     let increment :=
       if negb (strict_eq (fadeDuration p) 0)
       then ((now - commitTime prev) / fadeDuration p)%Q else 1%Q in
     let jointOpacity :=
       JointOpacityState.new (Some prevOpacity) increment false false None in
     opacities (commit (Some prev) now p).2 !! k
     = (if JointOpacityState.isHidden jointOpacity then None else Some jointOpacity))
∧ opacities committedFading !! 5%N = Some fadingOut
∧ placements onceCommitted !! 5%N = None
∧ opacities onceCommitted !! 5%N
  = Some {| JointOpacityState.text := OpacityState.mk (150 # 600) false;
            JointOpacityState.icon := OpacityState.mk 0 false |}
∧ (JointOpacityState.isHidden
     (JointOpacityState.new (Some fadingOut) ((300 - 0) / 300)%Q false false None)
   = true)
∧ opacities (commit (Some committedFading) 300 onceCommitted).2 !! 5%N
  = opacities onceCommitted !! 5%N.
Proof.
split.
- intros Hclaim.
  specialize (Hclaim committedFading 300%Q onceCommitted 5%N fadingOut eq_refl).
  assert (placements onceCommitted !! 5%N = None) as Hplaced by (vm_compute; reflexivity).
  specialize (Hclaim Hplaced). vm_compute in Hclaim. discriminate Hclaim.
- repeat split; vm_compute; reflexivity.
Qed.

Lemma absent_label_fades_until_hidden_example :
  opacities committed !! 5%N = Some halfFaded
  ∧ placements successor !! 5%N = None
  ∧ opacities successor !! 5%N = None
  ∧ opacities (commit (Some committed) 150 successor).2 !! 5%N
    = Some {| JointOpacityState.text := OpacityState.mk 1 false;
              JointOpacityState.icon := OpacityState.mk 0 false |}.
Proof.
  split; [reflexivity|]. split; [reflexivity|]. split; [reflexivity|].
  destruct (absent_label_fades_until_hidden committed 150 successor 5 halfFaded
              eq_refl eq_refl eq_refl) as (Hkept & _).
  rewrite Hkept. vm_compute. reflexivity.
Defined.



End Examples.

(** ** The further statements at work *)

Section MoreExamples.

Import Reference.

Lemma OpacityState_fades_toward_previous_target_example :
  (0 <= 1 # 4)%Q
  ∧ (0 <= OpacityState.opacity (OpacityState.mk (1 # 2) true) <= 1)%Q
  ∧ (OpacityState.opacity (OpacityState.mk (1 # 2) true)
     <= OpacityState.opacity
          (OpacityState.new (Some (OpacityState.mk (1 # 2) true)) (1 # 4) false None))%Q.
Proof.
  assert (0 <= 1 # 4)%Q as Hincrement by discriminate.
  assert (0 <= OpacityState.opacity (OpacityState.mk (1 # 2) true) <= 1)%Q as Hrange
    by (split; discriminate).
  split; [exact Hincrement|]. split; [exact Hrange|].
  exact (proj1 (OpacityState_fades_toward_previous_target
                  (OpacityState.mk (1 # 2) true) (1 # 4) false None Hincrement Hrange)).
Defined.

Lemma collision_group_ids_are_dense_example :
  CollisionGroups.maxGroupID
    (CollisionGroups.gets ["streets"; "constructor"; "terrain"; "streets"]
       (CollisionGroups.new false))
  = 2%N
  ∧ dom (CollisionGroups.collisionGroups
           (CollisionGroups.gets ["streets"; "constructor"; "terrain"; "streets"]
              (CollisionGroups.new false)))
    = {["streets"; "terrain"]}
  ∧ ∃ sourceID group,
      CollisionGroups.collisionGroups
        (CollisionGroups.gets ["streets"; "constructor"; "terrain"; "streets"]
           (CollisionGroups.new false)) !! sourceID = Some group
      ∧ ID group = Some 2%N.
Proof.
  destruct (collision_group_ids_are_dense
              ["streets"; "constructor"; "terrain"; "streets"])
    as (Hdom & _ & Hdense).
  split; [reflexivity|]. split.
  - rewrite Hdom.
    change (List.filter _ _) with ["streets"; "terrain"; "streets"].
    apply set_eq. intros s. cbn [list_to_set].
    rewrite !elem_of_union, !elem_of_singleton, elem_of_empty. tauto.
  - apply Hdense. split; discriminate.
Defined.

Lemma packOpacity_round_trip_error_example :
  (0 <= OpacityState.opacity (OpacityState.mk (1 # 2) true) <= 1)%Q
  ∧ (inject_Z (laneOpacityBits (packOpacity (OpacityState.mk (1 # 2) true)) 2) / 127
     - 1 / 127 < 1 # 2)%Q
  ∧ (1 # 2
     < inject_Z (laneOpacityBits (packOpacity (OpacityState.mk (1 # 2) true)) 2) / 127
       + 1 / 127)%Q.
Proof.
  assert (0 <= OpacityState.opacity (OpacityState.mk (1 # 2) true) <= 1)%Q as Hrange
    by (split; discriminate).
  split; [exact Hrange|].
  apply (packOpacity_round_trip_error (OpacityState.mk (1 # 2) true) 2 Hrange). lia.
Defined.

Lemma packOpacity_order_example :
  (0 <= OpacityState.opacity (OpacityState.mk (1 # 4) false) <= 1)%Q
  ∧ (0 <= OpacityState.opacity (OpacityState.mk (1 # 2) false) <= 1)%Q
  ∧ (packOpacity (OpacityState.mk (1 # 4) false)
     <= packOpacity (OpacityState.mk (1 # 2) false))%Z.
Proof.
  assert (0 <= OpacityState.opacity (OpacityState.mk (1 # 4) false) <= 1)%Q as Hrange1
    by (split; discriminate).
  assert (0 <= OpacityState.opacity (OpacityState.mk (1 # 2) false) <= 1)%Q as Hrange2
    by (split; discriminate).
  split; [exact Hrange1|]. split; [exact Hrange2|].
  apply (proj1 (packOpacity_order _ _ Hrange1 Hrange2)); [discriminate | reflexivity].
Defined.

Lemma hideUnplacedJustifications_tags_one_example :
  ∃ array',
    hideUnplacedJustifications JLeft (textOnly 8) listingLeft
    = (Return (),
       set_bucket (set_placedSymbolArray array' (bucket listingLeft)) listingLeft)
    ∧ array' !! 0%nat
      = Some (tagged 8 {| layoutData := (); placedCrossTileID := 0; hidden := 0 |})
    ∧ array' !! 1%nat
      = Some (tagged 0 {| layoutData := (); placedCrossTileID := 0; hidden := 0 |}).
Proof.
  destruct (hideUnplacedJustifications_tags_one JLeft (textOnly 8) listingLeft)
    as (array' & Hrun & _ & Hentries).
  exists array'. split; [exact Hrun|]. split.
  - exact (Hentries 0%nat _ eq_refl).
  - exact (Hentries 1%nat _ eq_refl).
Defined.

Lemma attemptAnchorPlacement_outcomes_example :
  ∃ boxes c' offset,
    attemptAnchorPlacement "left" 2 textArrays (squareAt 0 0) 0 1 false false 1 []
      {| ID := Some 0%N; predicate := None |} (instancesOf (textOnly 8)) false (textOnly 8)
      listingLeft
    = (Return (Some boxes), c')
    ∧ dynamicOffsets (this c') = <[8%N := offset]> (dynamicOffsets (this listingLeft))
    ∧ anchor offset = "left"
    ∧ placements (this c') = placements (this listingLeft).
Proof.
  pose proof (attemptAnchorPlacement_outcomes "left" 2 textArrays (squareAt 0 0) 0 1
                false false 1 [] {| ID := Some 0%N; predicate := None |}
                (instancesOf (textOnly 8)) false (textOnly 8) listingLeft) as Hrun.
  destruct (attemptAnchorPlacement _ _ _ _ _ _ _ _ _ _ _ _ _ _ _)
    as [[[boxes|]|e] c'] eqn:Hattempt.
  - destruct Hrun as (_ & _ & _ & _ & _ & _ & (offset & Hoffsets & Hanchor & _) & _
                      & Hplacements & _).
    exists boxes, c', offset. split; [reflexivity|]. split; [exact Hoffsets|].
    split; [exact Hanchor | exact Hplacements].
  - exfalso. vm_compute in Hattempt. discriminate Hattempt.
  - exfalso. vm_compute in Hattempt. discriminate Hattempt.
Defined.

Lemma attemptAnchors_outcomes_example :
  ∃ boxes c' offset,
    attemptAnchors ["auto"; "left"; "right"] 2 textArrays (squareAt 0 0) 0 1 false
      false 1 [] {| ID := Some 0%N; predicate := None |} (instancesOf (textOnly 8)) false
      (textOnly 8) listingLeft
    = (Return (Some boxes), c')
    ∧ dynamicOffsets (this c') = <[8%N := offset]> (dynamicOffsets (this listingLeft))
    ∧ anchor offset ∈ ["auto"; "left"; "right"]
    ∧ anchor offset ≠ "auto".
Proof.
  pose proof (attemptAnchors_outcomes ["auto"; "left"; "right"] 2 textArrays
                (squareAt 0 0) 0 1 false false 1 [] {| ID := Some 0%N; predicate := None |}
                (instancesOf (textOnly 8)) false (textOnly 8) listingLeft) as Hrun.
  destruct (attemptAnchors _ _ _ _ _ _ _ _ _ _ _ _ _ _ _)
    as [[[boxes|]|e] c'] eqn:Hsearch.
  - destruct Hrun as (_ & _ & (offset & Hoffsets & Hmember & Hauto & _) & _).
    exists boxes, c', offset. split; [reflexivity|]. split; [exact Hoffsets|].
    split; [exact Hmember | exact Hauto].
  - exfalso. vm_compute in Hsearch. discriminate Hsearch.
  - exfalso. vm_compute in Hsearch. discriminate Hsearch.
Defined.

Lemma resolveSymbolInstance_outcomes_example :
  ∃ c' jointPlacement,
    resolveSymbolInstance (args false) passLocals 0 (iconOnly 7) (core firstTile)
    = (Return (), c')
    ∧ placements (this c')
      = <[7%N := jointPlacement]> (placements (this (core firstTile))).
Proof.
  pose proof (resolveSymbolInstance_outcomes (args false) passLocals 0 (iconOnly 7)
                (core firstTile)) as Hrun.
  destruct (resolveSymbolInstance _ _ _ _ _) as [[[]|e] c'] eqn:Hresolve.
  - destruct Hrun as (_ & _ & _ & jointPlacement & Hplacements & _).
    exists c', jointPlacement. split; [reflexivity | exact Hplacements].
  - exfalso. vm_compute in Hresolve. discriminate Hresolve.
Defined.

Lemma placeLayerBucket_elsewhere_example :
  ¬ (9%N ∈ SymbolInstance.crossTileID <$> symbolInstances (bucket (core firstTile))
     ∧ truthy (seenCrossTileIDs firstTile !! 9%N) = false)
  ∧ placements (this (core (placeLayerBucket (args false) firstTile).2)) !! 9%N
    = placements (this (core firstTile)) !! 9%N.
Proof.
  assert (¬ (9%N ∈ SymbolInstance.crossTileID
                     <$> symbolInstances (bucket (core firstTile))
             ∧ truthy (seenCrossTileIDs firstTile !! 9%N) = false)) as Hother.
  { intros [Hin _]. cbn in Hin. apply list_elem_of_singleton in Hin. discriminate Hin. }
  split; [exact Hother|].
  exact (proj1 (placeLayerBucket_elsewhere (args false) firstTile 9 Hother)).
Defined.

Lemma placeLayerBucket_returns_example :
  (∀ symbolInstance, symbolInstance ∈ symbolInstances (bucket (core firstTile)) →
     SymbolInstance.crossTileID symbolInstance ≠ 0%N)
  ∧ bucketInstanceId (bucket (core firstTile)) ≠ 0%N
  ∧ collisionArrays (bucket (core firstTile)) = Some [iconArrays]
  ∧ length (symbolInstances (bucket (core firstTile))) ≤ length [iconArrays]
  ∧ ∃ w', placeLayerBucket (args false) firstTile = (Return (), w')
          ∧ justReloaded (bucket (core w')) = false.
Proof.
  assert (∀ symbolInstance,
            symbolInstance ∈ symbolInstances (bucket (core firstTile)) →
            SymbolInstance.crossTileID symbolInstance ≠ 0%N) as Hids.
  { intros symbolInstance Hin. cbn in Hin. apply list_elem_of_singleton in Hin.
    rewrite Hin. discriminate. }
  assert (bucketInstanceId (bucket (core firstTile)) ≠ 0%N) as Hinstance by discriminate.
  assert (length (symbolInstances (bucket (core firstTile))) ≤ length [iconArrays])
    as Hlength by (cbn; lia).
  split; [exact Hids|]. split; [exact Hinstance|]. split; [reflexivity|].
  split; [exact Hlength|].
  exact (placeLayerBucket_returns (args false) firstTile [iconArrays]
           Hids Hinstance eq_refl Hlength).
Defined.

Lemma placeLayerBucket_records_example :
  holdingForFade (args false) = false
  ∧ placeLayerBucket (args false) overlapTile
    = (Return (), (placeLayerBucket (args false) overlapTile).2)
  ∧ iconOnly 7 ∈ symbolInstances (bucket (core overlapTile))
  ∧ truthy (seenCrossTileIDs overlapTile !! 7%N) = false
  ∧ ∃ jointPlacement,
      placements (this (core (placeLayerBucket (args false) overlapTile).2)) !! 7%N
      = Some jointPlacement
      ∧ JointPlacement.text jointPlacement = true
      ∧ JointPlacement.icon jointPlacement = true.
Proof.
  assert (placeLayerBucket (args false) overlapTile
          = (Return (), (placeLayerBucket (args false) overlapTile).2)) as Hrun
    by (vm_compute; reflexivity).
  assert (iconOnly 7 ∈ symbolInstances (bucket (core overlapTile))) as Hmember
    by (cbn; apply list_elem_of_here).
  split; [reflexivity|]. split; [exact Hrun|]. split; [exact Hmember|].
  split; [reflexivity|].
  destruct (placeLayerBucket_records (args false) overlapTile _ (iconOnly 7)
              eq_refl Hrun Hmember eq_refl)
    as (jointPlacement & Hrecorded & Htext & Hicon & _).
  exists jointPlacement. split; [exact Hrecorded|]. split.
  - apply Htext; [reflexivity | left; reflexivity].
  - apply Hicon; [reflexivity | left; reflexivity].
Defined.

Lemma placeLayerBucket_holding_example :
  holdingForFade (args true) = true
  ∧ ∃ w', placeLayerBucket (args true) firstTile = (Return (), w')
          ∧ seenCrossTileIDs w' = seenCrossTileIDs firstTile
          ∧ placements (this (core w')) !! 7%N
            = Some (JointPlacement.mk false false false).
Proof.
  split; [reflexivity|].
  destruct (placeLayerBucket_holding (args true) firstTile eq_refl)
    as (w' & Hrun & Hseen & _ & _ & _ & Hplacements).
  exists w'. split; [exact Hrun|]. split; [exact Hseen|].
  rewrite (Hplacements 7%N). rewrite bool_decide_eq_true_2; [reflexivity|].
  split; [|reflexivity]. cbn. apply list_elem_of_here.
Defined.

Lemma commit_outcome_example :
  (commit (Some committed) 150 successor).1 = Return ()
  ∧ commitTime (commit (Some committed) 150 successor).2 = 150%Q
  ∧ is_Some (lastPlacementChangeTime (commit (Some committed) 150 successor).2)
  ∧ placements (commit (Some committed) 150 successor).2 = placements successor.
Proof.
  destruct (commit_outcome (Some committed) 150 successor) as [Hrun Hkept].
  destruct (commit (Some committed) 150 successor) as [[[]|e] p'] eqn:Hcommit.
  - destruct Hrun as (_ & Htime & Hchange). destruct Hkept as (_ & _ & Hplacements & _).
    split; [reflexivity|]. split; [exact Htime|]. split; [exact Hchange|].
    exact Hplacements.
  - exfalso. vm_compute in Hcommit. discriminate Hcommit.
Defined.

Lemma commit_accepts_committed_example :
  commit (Some committed) 150 successor
  = (Return (), (commit (Some committed) 150 successor).2)
  ∧ ∃ next',
      commit (Some (commit (Some committed) 150 successor).2) 400
        (Placement_new view 300 true None)
      = (Return (), next').
Proof.
  assert (commit (Some committed) 150 successor
          = (Return (), (commit (Some committed) 150 successor).2)) as Hrun
    by (vm_compute; reflexivity).
  split; [exact Hrun|].
  exact (commit_accepts_committed (Some committed) 150 successor _ 400
           (Placement_new view 300 true None) Hrun).
Defined.

Lemma commit_change_time_example :
  commit (Some committed) 150 successor
  = (Return (), (commit (Some committed) 150 successor).2)
  ∧ placements successor !! 6%N = Some (JointPlacement.mk true false false)
  ∧ placedChange (opacities committed) 6 (JointPlacement.mk true false false) = true
  ∧ lastPlacementChangeTime (commit (Some committed) 150 successor).2 = Some 150%Q.
Proof.
  assert (commit (Some committed) 150 successor
          = (Return (), (commit (Some committed) 150 successor).2)) as Hrun
    by (vm_compute; reflexivity).
  split; [exact Hrun|]. split; [reflexivity|]. split; [reflexivity|].
  apply (proj1 (commit_change_time (Some committed) 150 successor _ Hrun)).
  left. exists 6%N, (JointPlacement.mk true false false). split; reflexivity.
Defined.

Lemma commit_drops_faded_label_example :
  opacities committedFading !! 5%N = Some fadingOut
  ∧ placements afterFading !! 5%N = None
  ∧ OpacityState.placed (JointOpacityState.text fadingOut) = false
  ∧ (0 < fadeDuration afterFading)%Q
  ∧ (commitTime committedFading + fadeDuration afterFading <= 300)%Q
  ∧ opacities (commit (Some committedFading) 300 afterFading).2 !! 5%N = None
  ∧ dynamicOffsets (commit (Some committedFading) 300 afterFading).2 !! 5%N = None.
Proof.
  assert (0 < fadeDuration afterFading)%Q as Hduration by reflexivity.
  assert (commitTime committedFading + fadeDuration afterFading <= 300)%Q as Hlate
    by discriminate.
  split; [reflexivity|]. split; [reflexivity|]. split; [reflexivity|].
  split; [exact Hduration|]. split; [exact Hlate|].
  apply (commit_drops_faded_label committedFading 300 afterFading 5 fadingOut);
    [reflexivity | reflexivity | reflexivity | reflexivity | reflexivity | reflexivity
    | discriminate | discriminate | exact Hduration | exact Hlate].
Defined.

Lemma commit_advances_by_symbolFadeChange_example :
  fadeDuration successorKeeping = fadeDuration committed
  ∧ placements successorKeeping !! 5%N = Some (JointPlacement.mk true false false)
  ∧ opacities committed !! 5%N = Some halfFaded
  ∧ opacities (commit (Some committed) 150 successorKeeping).2 !! 5%N
    = Some (JointOpacityState.new (Some halfFaded) (symbolFadeChange 150 committed)
              true false None).
Proof.
  split; [reflexivity|]. split; [reflexivity|]. split; [reflexivity|].
  exact (commit_advances_by_symbolFadeChange committed 150 successorKeeping 5
           (JointPlacement.mk true false false) halfFaded eq_refl eq_refl eq_refl).
Defined.

Lemma commit_starts_transition_example :
  commit (Some committed) 150 successor
  = (Return (), (commit (Some committed) 150 successor).2)
  ∧ placements successor !! 6%N = Some (JointPlacement.mk true false false)
  ∧ placedChange (from_option opacities ∅ (Some committed)) 6
      (JointPlacement.mk true false false) = true
  ∧ hasTransitions 200 (commit (Some committed) 150 successor).2 = true.
Proof.
  assert (commit (Some committed) 150 successor
          = (Return (), (commit (Some committed) 150 successor).2)) as Hrun
    by (vm_compute; reflexivity).
  split; [exact Hrun|]. split; [reflexivity|]. split; [reflexivity|].
  apply (commit_starts_transition (Some committed) 150 successor _ 6
           (JointPlacement.mk true false false) 200 Hrun eq_refl eq_refl).
  right. reflexivity.
Defined.

Lemma reloaded_label_skips_fade_example :
  holdingForFade (args false) = false
  ∧ placeLayerBucket (args false) reloadedTile
    = (Return (), (placeLayerBucket (args false) reloadedTile).2)
  ∧ iconOnly 7 ∈ symbolInstances (bucket (core reloadedTile))
  ∧ truthy (seenCrossTileIDs reloadedTile !! 7%N) = false
  ∧ justReloaded (bucket (core reloadedTile)) = true
  ∧ ∃ opacity,
      opacities (commit None 150
                   (this (core (placeLayerBucket (args false) reloadedTile).2))).2 !! 7%N
      = Some opacity
      ∧ OpacityState.placed (JointOpacityState.icon opacity) = true
      ∧ OpacityState.opacity (JointOpacityState.icon opacity) = 1%Q.
Proof.
  assert (placeLayerBucket (args false) reloadedTile
          = (Return (), (placeLayerBucket (args false) reloadedTile).2)) as Hrun
    by (vm_compute; reflexivity).
  assert (iconOnly 7 ∈ symbolInstances (bucket (core reloadedTile))) as Hmember
    by (cbn; apply list_elem_of_here).
  split; [reflexivity|]. split; [exact Hrun|]. split; [exact Hmember|].
  split; [reflexivity|]. split; [reflexivity|].
  destruct (reloaded_label_skips_fade (args false) reloadedTile _ (iconOnly 7) None 150
              eq_refl Hrun Hmember eq_refl eq_refl eq_refl)
    as (jointPlacement & opacity & Hrecorded & Hopacity & _ & Hplaced & _ & Hfull).
  assert (JointPlacement.icon jointPlacement = true) as Hicon.
  { assert (placements (this (core (placeLayerBucket (args false) reloadedTile).2)) !! 7%N
            = Some (JointPlacement.mk false true true)) as Hcomputed
      by (vm_compute; reflexivity).
    assert (Some jointPlacement = Some (JointPlacement.mk false true true)) as Hsame
      by (rewrite <- Hrecorded; exact Hcomputed).
    injection Hsame as ->. reflexivity. }
  exists opacity. split; [exact Hopacity|]. rewrite Hplaced, Hfull, Hicon.
  split; reflexivity.
Defined.

Lemma updateBucketOpacities_decides_example :
  updateBucketOpacities plainWriteback secondTileWriteback
  = (Return (), (updateBucketOpacities plainWriteback secondTileWriteback).2)
  ∧ textOnly 8 ∈ symbolInstances (bucket (core (world secondTileWriteback)))
  ∧ truthy (seenCrossTileIDs (world secondTileWriteback) !! 8%N) = false
  ∧ seenCrossTileIDs (world (updateBucketOpacities plainWriteback secondTileWriteback).2)
      !! 8%N = Some true
  ∧ opacities (this (core (world
        (updateBucketOpacities plainWriteback secondTileWriteback).2))) !! 8%N
    = Some (defaultOpacityState secondBucket).
Proof.
  assert (updateBucketOpacities plainWriteback secondTileWriteback
          = (Return (), (updateBucketOpacities plainWriteback secondTileWriteback).2))
    as Hrun by (vm_compute; reflexivity).
  assert (textOnly 8 ∈ symbolInstances (bucket (core (world secondTileWriteback))))
    as Hmember by (cbn; apply list_elem_of_here).
  assert (truthy (seenCrossTileIDs (world secondTileWriteback) !! 8%N) = false)
    as Hunseen by (vm_compute; reflexivity).
  split; [exact Hrun|]. split; [exact Hmember|]. split; [exact Hunseen|].
  destruct (updateBucketOpacities_decides plainWriteback secondTileWriteback _
              (textOnly 8) Hrun Hmember) as [Hseen Hstate].
  split; [exact Hseen|].
  etransitivity; [exact (Hstate Hunseen)|]. vm_compute. reflexivity.
Defined.

Lemma updateBucketOpacities_writes_opacities_example :
  updateBucketOpacities plainWriteback secondTileWriteback
  = (Return (), (updateBucketOpacities plainWriteback secondTileWriteback).2)
  ∧ textOpacityVertexArray
      (buffers (updateBucketOpacities plainWriteback secondTileWriteback).2)
    = replicate 2 (packOpacity (JointOpacityState.text (defaultOpacityState secondBucket)))
  ∧ iconOpacityVertexArray
      (buffers (updateBucketOpacities plainWriteback secondTileWriteback).2)
    = [packOpacity (JointOpacityState.icon duplicateOpacityState)].
Proof.
  assert (updateBucketOpacities plainWriteback secondTileWriteback
          = (Return (), (updateBucketOpacities plainWriteback secondTileWriteback).2))
    as Hrun by (vm_compute; reflexivity).
  split; [exact Hrun|].
  destruct (updateBucketOpacities_writes_opacities plainWriteback secondTileWriteback _
              Hrun) as [Htext Hicon].
  split.
  - etransitivity; [exact Htext|]. vm_compute. reflexivity.
  - etransitivity; [exact Hicon|]. vm_compute. reflexivity.
Defined.

Lemma updateBucketOpacities_whole_quads_example :
  hasCollisionBoxData debugWriteback = true
  ∧ hasCollisionCircleData debugWriteback = false
  ∧ length (collisionBoxVertexArray (buffers staleWriteback)) = 3%nat
  ∧ length (collisionCircleVertexArray (buffers staleWriteback)) = 4%nat
  ∧ length (collisionBoxVertexArray
              (buffers (updateBucketOpacities debugWriteback staleWriteback).2)) = 8%nat
  ∧ (4 | length (collisionBoxVertexArray
                   (buffers (updateBucketOpacities debugWriteback staleWriteback).2)))%nat
  ∧ (4 | length (collisionCircleVertexArray
                   (buffers (updateBucketOpacities debugWriteback staleWriteback).2)))%nat.
Proof.
  split; [reflexivity|]. split; [reflexivity|]. split; [reflexivity|].
  split; [reflexivity|]. split; [vm_compute; reflexivity|].
  apply (updateBucketOpacities_whole_quads debugWriteback staleWriteback).
  - intros Hdata. discriminate Hdata.
  - intros _. exists 1%nat. reflexivity.
Defined.

Lemma updateBucketOpacities_returns_example :
  ∃ p', updateBucketOpacities plainWriteback secondTileWriteback = (Return (), p').
Proof.
  apply (updateBucketOpacities_returns plainWriteback secondTileWriteback);
    reflexivity.
Defined.

Lemma default_state_is_confirmed_by_pass_example :
  holdingForFade (args false) = false
  ∧ placeLayerBucket (args false) overlapTile
    = (Return (), (placeLayerBucket (args false) overlapTile).2)
  ∧ iconOnly 7 ∈ symbolInstances (bucket (core overlapTile))
  ∧ truthy (seenCrossTileIDs overlapTile !! 7%N) = false
  ∧ OpacityState.opacity
      (JointOpacityState.icon (defaultOpacityState (bucket (core overlapTile)))) = 1%Q
  ∧ ∃ jointPlacement,
      placements (this (core (placeLayerBucket (args false) overlapTile).2)) !! 7%N
      = Some jointPlacement
      ∧ JointPlacement.text jointPlacement = true
      ∧ JointPlacement.icon jointPlacement = true.
Proof.
  assert (placeLayerBucket (args false) overlapTile
          = (Return (), (placeLayerBucket (args false) overlapTile).2)) as Hrun
    by (vm_compute; reflexivity).
  assert (iconOnly 7 ∈ symbolInstances (bucket (core overlapTile))) as Hmember
    by (cbn; apply list_elem_of_here).
  split; [reflexivity|]. split; [exact Hrun|]. split; [exact Hmember|].
  split; [reflexivity|].
  destruct (default_state_is_confirmed_by_pass (args false) overlapTile _ (iconOnly 7)
              eq_refl Hrun Hmember eq_refl)
    as (_ & Hopacity & jointPlacement & Hrecorded & Htext & Hicon).
  split; [exact Hopacity|].
  exists jointPlacement. split; [exact Hrecorded|]. split.
  - apply Htext. reflexivity.
  - apply Hicon. reflexivity.
Defined.

Lemma updateBucketOpacities_needs_collision_arrays_example :
  (updateBucketOpacities debugWriteback withoutArrays).1 = Throw TypeError.
Proof.
  apply (updateBucketOpacities_needs_collision_arrays debugWriteback withoutArrays).
  - reflexivity.
  - reflexivity.
  - reflexivity.
  - cbn. discriminate.
Defined.

End MoreExamples.
